(** * mini-react: a shallow embedding of [src/index.js]

    The engine is a JavaScript module working on mutable, shared objects:
    work units (fibers) linked by [parent]/[child]/[sibling]/[alternate],
    hook records captured by the closures [useState] returns, host (DOM) nodes,
    and six module-level variables.  The embedding keeps that shape: one store
    per kind of object, addressed by allocation order, and a state-and-exception
    monad [M] in which every function of the source is written statement by
    statement.  Loops and recursions over the store take a fuel argument. *)

From Stdlib Require Import ZArith String Ascii List Lia Bool.
From stdpp Require Import base option list.
Import ListNotations.

Local Open Scope string_scope.
Local Open Scope list_scope.

(** ** Values, element descriptions, props *)

(** The [type] of an element or of a work unit: a host tag (a string, with
    ["TEXT_ELEMENT"] as the text marker) or a component function.  Functions are
    compared by identity, so a component is named by a number; [==] between a
    string and a function never holds in this model (in JavaScript it would only
    for a tag spelled like the function's source text). *)
Inductive ty : Type :=
| TStr (tag : string)
| TFun (f : nat).

Definition ty_eqb (a b : ty) : bool :=
  match a, b with
  | TStr x, TStr y => String.eqb x y
  | TFun x, TFun y => Nat.eqb x y
  | _, _ => false
  end.

(** JavaScript values as far as the engine looks at them.  [VRef] is any object
    or function known only by its identity (event handlers); [VBuiltin name] is
    the member of [Object.prototype] of that name; [VElems] is the array stored
    under the key [children].  Numbers are integers here. *)
Inductive value : Type :=
| VUndefined
| VNull
| VBool (b : bool)
| VNum (n : Z)
| VStr (s : string)
| VRef (id : nat)
| VBuiltin (name : string)
| VElems (l : list (option element))
with element : Type :=
| Element (etype : ty) (eprops : list (string * value)).

Definition etype (e : element) : ty := let 'Element t _ := e in t.
Definition eprops (e : element) : list (string * value) := let 'Element _ p := e in p.

(** A props object: its own keys in [Object.keys] order, each with its value. *)
Definition propsT : Type := list (string * value).

(** [a === b].  Two array values are two distinct objects. *)
Definition strict_eq (a b : value) : bool :=
  match a, b with
  | VUndefined, VUndefined => true
  | VNull, VNull => true
  | VBool x, VBool y => Bool.eqb x y
  | VNum x, VNum y => Z.eqb x y
  | VStr x, VStr y => String.eqb x y
  | VRef x, VRef y => Nat.eqb x y
  | VBuiltin x, VBuiltin y => String.eqb x y
  | _, _ => false
  end.

(** [Object.keys(p)] *)
Definition keys (p : propsT) : list string := map fst p.

Fixpoint plookup (p : propsT) (key : string) : option value :=
  match p with
  | [] => None
  | (k, v) :: rest => if String.eqb k key then Some v else plookup rest key
  end.

(** A props object is made by an object literal (lines 11-18, 25-28, 170-172,
    280-284; [{}] at line 41), so its prototype is [Object.prototype]: [key in p]
    and [p[key]] also see the members every object inherits from there.  These
    are the names of [Object.prototype] in the standard (with its annex for
    browsers); a page that adds names of its own to [Object.prototype] is
    outside the model. *)
Definition protoNames : list string :=
  ["constructor"; "__defineGetter__"; "__defineSetter__"; "hasOwnProperty";
   "__lookupGetter__"; "__lookupSetter__"; "isPrototypeOf";
   "propertyIsEnumerable"; "toString"; "valueOf"; "__proto__"; "toLocaleString"].

Definition inherited (key : string) : option value :=
  if existsb (String.eqb key) protoNames then Some (VBuiltin key) else None.

(** [key in p] *)
Definition pin (key : string) (p : propsT) : bool :=
  match plookup p key with
  | Some _ => true
  | None => match inherited key with Some _ => true | None => false end
  end.

(** [p[key]] *)
Definition pget (p : propsT) (key : string) : value :=
  match plookup p key with
  | Some v => v
  | None => match inherited key with Some v => v | None => VUndefined end
  end.

(** [p[key] = v] on an object used as a map: overwrite in place or add last. *)
Fixpoint pset (p : propsT) (key : string) (v : value) : propsT :=
  match p with
  | [] => [(key, v)]
  | (k, w) :: rest =>
      if String.eqb k key then (k, v) :: rest else (k, w) :: pset rest key v
  end.

(** ** Strings: [startsWith], [toLowerCase], [substring]

    A string is the sequence of its bytes in UTF-8.  On a string of ASCII
    characters [toLowerCase] below is JavaScript's, and a byte is a character;
    the engine lower-cases listener keys only, and a listener key with another
    character is outside the model (see [eventTypeOf]). *)

Definition ascii7 (s : string) : bool :=
  forallb (fun c => (nat_of_ascii c <? 128)%nat) (list_ascii_of_string s).

Definition lower_ascii (c : ascii) : ascii :=
  let n := nat_of_ascii c in
  if (65 <=? n)%nat && (n <=? 90)%nat then ascii_of_nat (n + 32) else c.

Fixpoint toLowerCase (s : string) : string :=
  match s with
  | EmptyString => EmptyString
  | String c rest => String (lower_ascii c) (toLowerCase rest)
  end.

(** [s.substring(n)] *)
Fixpoint substringFrom (n : nat) (s : string) : string :=
  match n, s with
  | O, _ => s
  | S k, EmptyString => EmptyString
  | S k, String _ rest => substringFrom k rest
  end.

(** [key.startsWith("on")] *)
Definition isEvent (key : string) : bool := String.prefix "on" key.

Definition isProperty (key : string) : bool :=
  negb (String.eqb key "children") && negb (isEvent key).

Definition isNew (prev next : propsT) (key : string) : bool :=
  negb (strict_eq (pget prev key) (pget next key)).

Definition isGone (prev next : propsT) (key : string) : bool :=
  negb (pin key next).

(** ** createElement / createTextElement *)

Definition createTextElement (text : value) : element :=
  Element (TStr "TEXT_ELEMENT") [("nodeValue", text); ("children", VElems [])].

(** A child handed to [createElement]: an object (an element, or [null], whose
    [typeof] is ["object"] too) or a primitive that becomes a text element. *)
Inductive childArg : Type :=
| ChildObject (e : option element)
| ChildPrimitive (v : value).

Definition createElement (type : ty) (props : propsT) (children : list childArg)
  : element :=
  Element type
    (pset props "children"
       (VElems (map (fun child =>
                       match child with
                       | ChildObject e => e
                       | ChildPrimitive v => Some (createTextElement v)
                       end) children))).

(** ** The stores: work units, hook records, host nodes *)

Abbreviation ref := nat (only parsing).   (* a work unit, by allocation order *)
Abbreviation href := nat (only parsing).  (* a hook record *)
Abbreviation dref := nat (only parsing).  (* a host (DOM) node *)

Inductive effect : Type := PLACEMENT | UPDATE | DELETION.

(** A work unit.  A field the object literal does not mention, or that holds
    [null], is [None]: the source only ever tests these fields for truthiness
    or with [!= null]. *)
Record fiber : Type := Fiber {
  type : option ty;
  props : propsT;
  dom : option dref;
  parent : option ref;
  child : option ref;
  sibling : option ref;
  alternate : option ref;
  effectTag : option effect;
  hooks : option (list href)
}.

Definition setChild (c : option ref) (f : fiber) : fiber :=
  Fiber (type f) (props f) (dom f) (parent f) c (sibling f) (alternate f)
        (effectTag f) (hooks f).
Definition setSibling (x : option ref) (f : fiber) : fiber :=
  Fiber (type f) (props f) (dom f) (parent f) (child f) x (alternate f)
        (effectTag f) (hooks f).
Definition setEffectTag (t : option effect) (f : fiber) : fiber :=
  Fiber (type f) (props f) (dom f) (parent f) (child f) (sibling f) (alternate f)
        t (hooks f).
Definition setDom (d : option dref) (f : fiber) : fiber :=
  Fiber (type f) (props f) d (parent f) (child f) (sibling f) (alternate f)
        (effectTag f) (hooks f).
Definition setHooks (hs : option (list href)) (f : fiber) : fiber :=
  Fiber (type f) (props f) (dom f) (parent f) (child f) (sibling f) (alternate f)
        (effectTag f) hs.

(** A hook record [{state, queue}]; a queued action is a function on values. *)
Record hook : Type := Hook {
  state : value;
  queue : list (value -> value)
}.

(** A host node: [tagName] is [None] for a text node; [assigned] records, by
    name, the value the engine last assigned with [dom[name] = v] (what the
    host then holds under that name, after its own conversions, is not
    modelled); [listeners] is the listener list kept by
    [addEventListener]/[removeEventListener]. *)
Record node : Type := Node {
  tagName : option string;
  assigned : list (string * value);
  listeners : list (string * value);
  parentNode : option dref;
  childNodes : list dref
}.

(** The calls the engine makes on the host platform, in the order made. *)
Inductive hostCall : Type :=
| CreateElement (tag : string)
| CreateTextNode (text : string)
| SetProperty (d : dref) (name : string) (v : value)
| AddEventListener (d : dref) (eventType : string) (handler : value)
| RemoveEventListener (d : dref) (eventType : string) (handler : value)
| AppendChild (domParent d : dref)
| RemoveChild (domParent d : dref).

(** The module-level variables together with the three stores and the record
    of host calls. *)
Record machine : Type := Machine {
  fibers : list fiber;
  hookStore : list hook;
  document : list node;
  hostCalls : list hostCall;
  nextUnitOfWork : option ref;
  currentRoot : option ref;
  wipRoot : option ref;
  deletions : option (list ref);
  wipFiber : option ref;
  hookIndex : option nat
}.

Definition withFibers (x : list fiber) (m : machine) : machine :=
  Machine x (hookStore m) (document m) (hostCalls m) (nextUnitOfWork m)
          (currentRoot m) (wipRoot m) (deletions m) (wipFiber m) (hookIndex m).
Definition withHookStore (x : list hook) (m : machine) : machine :=
  Machine (fibers m) x (document m) (hostCalls m) (nextUnitOfWork m)
          (currentRoot m) (wipRoot m) (deletions m) (wipFiber m) (hookIndex m).
Definition withDocument (x : list node) (m : machine) : machine :=
  Machine (fibers m) (hookStore m) x (hostCalls m) (nextUnitOfWork m)
          (currentRoot m) (wipRoot m) (deletions m) (wipFiber m) (hookIndex m).
Definition withHostCalls (x : list hostCall) (m : machine) : machine :=
  Machine (fibers m) (hookStore m) (document m) x (nextUnitOfWork m)
          (currentRoot m) (wipRoot m) (deletions m) (wipFiber m) (hookIndex m).
Definition withNextUnitOfWork (x : option ref) (m : machine) : machine :=
  Machine (fibers m) (hookStore m) (document m) (hostCalls m) x
          (currentRoot m) (wipRoot m) (deletions m) (wipFiber m) (hookIndex m).
Definition withCurrentRoot (x : option ref) (m : machine) : machine :=
  Machine (fibers m) (hookStore m) (document m) (hostCalls m)
          (nextUnitOfWork m) x (wipRoot m) (deletions m) (wipFiber m)
          (hookIndex m).
Definition withWipRoot (x : option ref) (m : machine) : machine :=
  Machine (fibers m) (hookStore m) (document m) (hostCalls m)
          (nextUnitOfWork m) (currentRoot m) x (deletions m) (wipFiber m)
          (hookIndex m).
Definition withDeletions (x : option (list ref)) (m : machine) : machine :=
  Machine (fibers m) (hookStore m) (document m) (hostCalls m)
          (nextUnitOfWork m) (currentRoot m) (wipRoot m) x (wipFiber m)
          (hookIndex m).
Definition withWipFiber (x : option ref) (m : machine) : machine :=
  Machine (fibers m) (hookStore m) (document m) (hostCalls m)
          (nextUnitOfWork m) (currentRoot m) (wipRoot m) (deletions m) x
          (hookIndex m).
Definition withHookIndex (x : option nat) (m : machine) : machine :=
  Machine (fibers m) (hookStore m) (document m) (hostCalls m)
          (nextUnitOfWork m) (currentRoot m) (wipRoot m) (deletions m)
          (wipFiber m) x.

(** The module as loaded, before any call: lines 186-190 and 241-242, with the
    host document holding whatever nodes the page has. *)
Definition initial (page : list node) : machine :=
  Machine [] [] page [] None None None None None None.

(** ** The monad

    A call ends normally ([Ok]), by a JavaScript exception ([Throw], with the
    store as the exception leaves it), or is cut by the model ([Abort]: fuel
    exhausted, or an address that no object was allocated at). *)
Inductive result (A : Type) : Type :=
| Ok (a : A) (m : machine)
| Throw (m : machine)
| Abort.
Arguments Ok {A} a m.
Arguments Throw {A} m.
Arguments Abort {A}.

Definition M (A : Type) : Type := machine -> result A.

Definition ret {A} (a : A) : M A := fun m => Ok a m.
Definition bind {A B} (c : M A) (k : A -> M B) : M B :=
  fun m => match c m with
           | Ok a m' => k a m'
           | Throw m' => Throw m'
           | Abort => Abort
           end.
Definition throw {A} : M A := fun m => Throw m.
Definition abort {A} : M A := fun _ => Abort.
Definition gets {A} (f : machine -> A) : M A := fun m => Ok (f m) m.
Definition modify (f : machine -> machine) : M unit := fun m => Ok tt (f m).

Declare Scope engine_scope.
Delimit Scope engine_scope with engine.
Notation "'let!' x ':=' c 'in' k" := (bind c (fun x => k))
  (at level 10, x pattern, c at level 100, k at level 200) : engine_scope.
Notation "c ';;;' k" := (bind c (fun _ => k))
  (at level 100, k at level 200, right associativity) : engine_scope.
Local Open Scope engine_scope.

(** Reading through a reference that may be [null]/[undefined] throws. *)
Definition deref {A} (x : option A) : M A :=
  match x with Some a => ret a | None => throw end.

Definition getFiber (r : ref) : M fiber :=
  fun m => match fibers m !! r with Some f => Ok f m | None => Abort end.
Definition updFiber (r : ref) (g : fiber -> fiber) : M unit :=
  fun m => match fibers m !! r with
           | Some f => Ok tt (withFibers (<[r := g f]> (fibers m)) m)
           | None => Abort
           end.
(** An object literal: a new work unit is allocated at the end of the store. *)
Definition newFiber (f : fiber) : M ref :=
  fun m => Ok (length (fibers m)) (withFibers (fibers m ++ [f]) m).

Definition getHook (h : href) : M hook :=
  fun m => match hookStore m !! h with Some x => Ok x m | None => Abort end.
Definition updHook (h : href) (g : hook -> hook) : M unit :=
  fun m => match hookStore m !! h with
           | Some x => Ok tt (withHookStore (<[h := g x]> (hookStore m)) m)
           | None => Abort
           end.
Definition newHook (x : hook) : M href :=
  fun m => Ok (length (hookStore m)) (withHookStore (hookStore m ++ [x]) m).

Definition getNode (d : dref) : M node :=
  fun m => match document m !! d with Some x => Ok x m | None => Abort end.
Definition updNode (d : dref) (g : node -> node) : M unit :=
  fun m => match document m !! d with
           | Some x => Ok tt (withDocument (<[d := g x]> (document m)) m)
           | None => Abort
           end.
Definition newNode (x : node) : M dref :=
  fun m => Ok (length (document m)) (withDocument (document m ++ [x]) m).

(** [xs.forEach(f)] *)
Fixpoint forEach {A} (xs : list A) (f : A -> M unit) : M unit :=
  match xs with
  | [] => ret tt
  | x :: rest => f x ;;; forEach rest f
  end.

(** ** The host platform

    The DOM is not part of the repository; these are the primitives the engine
    calls, with the behaviour of the DOM standard as far as the engine can see
    it: a node has one parent, [appendChild] moves a node that is attached
    elsewhere and throws when the parent is a text node or the node is an
    ancestor of the parent, [removeChild] throws when the node is not a child
    of the given parent, a listener list holds a (type, callback) pair once and
    a listener that is neither an object nor [null]/[undefined] is refused with
    a [TypeError].  Three things are taken from the host without being
    modelled further: which tag names [document.createElement] accepts beyond
    the plain ones ([plainTag]; another name is outside the model), what a node
    holds after [dom[name] = v] (only the assignment is recorded), and that
    such an assignment leaves the tree alone (a name whose setter rebuilds the
    content of the node, as [innerHTML] or [textContent], is outside the
    model). *)

Definition called (c : hostCall) : M unit :=
  modify (fun m => withHostCalls (hostCalls m ++ [c]) m).

Definition isLetter (c : ascii) : bool :=
  let n := nat_of_ascii c in
  ((65 <=? n)%nat && (n <=? 90)%nat) || ((97 <=? n)%nat && (n <=? 122)%nat).

Definition isDigit (c : ascii) : bool :=
  let n := nat_of_ascii c in (48 <=? n)%nat && (n <=? 57)%nat.

(** A tag name every version of the DOM standard accepts: an ASCII letter
    followed by ASCII letters, digits and hyphens. *)
Definition plainTag (tag : string) : bool :=
  match tag with
  | EmptyString => false
  | String c rest =>
      isLetter c &&
      forallb (fun x => isLetter x || isDigit x || Ascii.eqb x "-"%char)
              (list_ascii_of_string rest)
  end.

Definition createElementNode (tag : string) : M dref :=
  if plainTag tag then
    called (CreateElement tag) ;;;
    newNode (Node (Some tag) [] [] None [])
  else abort.

Definition createTextNode (text : string) : M dref :=
  called (CreateTextNode text) ;;;
  newNode (Node None [] [] None []).

(** [dom[name] = v] *)
Definition setProperty (d : dref) (name : string) (v : value) : M unit :=
  called (SetProperty d name v) ;;;
  updNode d (fun n => Node (tagName n) (pset (assigned n) name v) (listeners n)
                           (parentNode n) (childNodes n)).

Definition sameListener (eventType : string) (handler : value)
  (l : string * value) : bool :=
  String.eqb (fst l) eventType && strict_eq (snd l) handler.

Definition isNullish (v : value) : bool :=
  match v with VUndefined | VNull => true | _ => false end.

(** What the host takes for a listener: an object (a function is one), [null]
    or [undefined]. *)
Definition isListenerValue (v : value) : bool :=
  match v with VBool _ | VNum _ | VStr _ => false | _ => true end.

Definition addEventListener (d : dref) (eventType : string) (handler : value)
  : M unit :=
  called (AddEventListener d eventType handler) ;;;
  if isListenerValue handler then
    updNode d (fun n =>
      if isNullish handler || existsb (sameListener eventType handler) (listeners n)
      then n
      else Node (tagName n) (assigned n) (listeners n ++ [(eventType, handler)])
                (parentNode n) (childNodes n))
  else throw.

Definition removeEventListener (d : dref) (eventType : string) (handler : value)
  : M unit :=
  called (RemoveEventListener d eventType handler) ;;;
  if isListenerValue handler then
    updNode d (fun n =>
      Node (tagName n) (assigned n)
           (List.filter (fun l => negb (sameListener eventType handler l))
                        (listeners n))
           (parentNode n) (childNodes n))
  else throw.

Definition setParentNode (p : option dref) (n : node) : node :=
  Node (tagName n) (assigned n) (listeners n) p (childNodes n).
Definition setChildNodes (cs : list dref) (n : node) : node :=
  Node (tagName n) (assigned n) (listeners n) (parentNode n) cs.

(** Is [a] the node [d] or one of its ancestors? *)
Fixpoint isInclusiveAncestor (fuel : nat) (doc : list node) (a d : dref) : bool :=
  if Nat.eqb a d then true
  else match fuel with
       | O => false
       | S n =>
           match doc !! d with
           | Some nd =>
               match parentNode nd with
               | Some q => isInclusiveAncestor n doc a q
               | None => false
               end
           | None => false
           end
       end.

Definition detach (d : dref) : M unit :=
  let! n := getNode d in
  match parentNode n with
  | Some q =>
      updNode q (fun qn =>
        setChildNodes (List.filter (fun x => negb (Nat.eqb x d)) (childNodes qn)) qn) ;;;
      updNode d (setParentNode None)
  | None => ret tt
  end.

Definition appendChild (domParent d : dref) : M unit :=
  called (AppendChild domParent d) ;;;
  let! pn := getNode domParent in
  let! doc := gets document in
  if match tagName pn with Some _ => false | None => true end
     || isInclusiveAncestor (length doc) doc d domParent
  then throw
  else
    detach d ;;;
    updNode domParent (fun pn => setChildNodes (childNodes pn ++ [d]) pn) ;;;
    updNode d (setParentNode (Some domParent)).

Definition removeChild (domParent d : dref) : M unit :=
  called (RemoveChild domParent d) ;;;
  let! n := getNode d in
  match parentNode n with
  | Some q => if Nat.eqb q domParent then detach d else throw
  | None => throw
  end.

(** ** updateDom (lines 45-100) *)

(** [name.toLowerCase().substring(2)], for a name of ASCII characters. *)
Definition eventTypeOf (name : string) : M string :=
  if ascii7 name then ret (substringFrom 2 (toLowerCase name)) else abort.

Definition updateDom (dom : dref) (prevProps nextProps : propsT) : M unit :=
  (* remove old or changed event listeners *)
  forEach
    (List.filter (fun key => negb (pin key nextProps) || isNew prevProps nextProps key)
       (List.filter isEvent (keys prevProps)))
    (fun name =>
       let! eventType := eventTypeOf name in
       removeEventListener dom eventType (pget prevProps name)) ;;;
  (* remove old properties *)
  forEach
    (List.filter (isGone prevProps nextProps)
       (List.filter isProperty (keys prevProps)))
    (fun name => setProperty dom name (VStr "")) ;;;
  (* set new or changed properties *)
  forEach
    (List.filter (isNew prevProps nextProps)
       (List.filter isProperty (keys nextProps)))
    (fun name => setProperty dom name (pget nextProps name)) ;;;
  (* add event listeners *)
  forEach
    (List.filter (isNew prevProps nextProps)
       (List.filter isEvent (keys nextProps)))
    (fun name =>
       let! eventType := eventTypeOf name in
       addEventListener dom eventType (pget nextProps name)).

(** ** createDom (lines 32-43) *)

Definition createDom (fiber : fiber) : M dref :=
  let! dom :=
    match type fiber with
    | Some (TStr tag) =>
        if String.eqb tag "TEXT_ELEMENT" then createTextNode ""
        else createElementNode tag
    | Some (TFun _) => throw            (* a function is no tag name *)
    | None => createElementNode "undefined"
    end in
  updateDom dom [] (props fiber) ;;;
  ret dom.

(** ** The commit engine (lines 105-158) *)

Fixpoint commitDeletion (fuel : nat) (fiber : option ref) (domParent : dref)
  : M unit :=
  match fuel with
  | O => abort
  | S n =>
      let! r := deref fiber in
      let! f := getFiber r in
      match dom f with
      | Some d => removeChild domParent d
      | None => commitDeletion n (child f) domParent
      end
  end.

(** [while (!domParentFiber.dom) domParentFiber = domParentFiber.parent],
    ending with the [dom] found. *)
Fixpoint domParentOf (fuel : nat) (domParentFiber : option ref) : M dref :=
  match fuel with
  | O => abort
  | S n =>
      let! r := deref domParentFiber in
      let! f := getFiber r in
      match dom f with
      | Some d => ret d
      | None => domParentOf n (parent f)
      end
  end.

Fixpoint commitWork (fuel : nat) (fiber : option ref) : M unit :=
  match fuel with
  | O => abort
  | S n =>
      match fiber with
      | None => ret tt
      | Some r =>
          let! f := getFiber r in
          let! domParent := domParentOf n (parent f) in
          (match effectTag f, dom f with
           | Some PLACEMENT, Some d => appendChild domParent d
           | Some UPDATE, Some d =>
               let! a := deref (alternate f) in
               let! old := getFiber a in
               updateDom d (props old) (props f)
           | Some DELETION, _ => commitDeletion n (Some r) domParent
           | _, _ => ret tt
           end) ;;;
          let! f := getFiber r in
          commitWork n (child f) ;;;
          let! f := getFiber r in
          commitWork n (sibling f)
      end
  end.

Definition commitRoot (fuel : nat) : M unit :=
  let! ds := gets deletions in
  let! ds := deref ds in
  forEach ds (fun r => commitWork fuel (Some r)) ;;;
  let! w := gets wipRoot in
  let! w := deref w in
  let! root := getFiber w in
  commitWork fuel (child root) ;;;
  let! w := gets wipRoot in
  modify (withCurrentRoot w) ;;;
  modify (withWipRoot None).

(** ** render (lines 166-184) *)

Definition render (element : option element) (container : option dref) : M unit :=
  let! cur := gets currentRoot in
  let! w := newFiber (Fiber None [("children", VElems [element])] container
                            None None None cur None None) in
  modify (withWipRoot (Some w)) ;;;
  modify (withDeletions (Some [])) ;;;
  let! w := gets wipRoot in
  modify (withNextUnitOfWork w).

(** ** Hooks (lines 256-297) *)

(** [wipFiber.alternate && wipFiber.alternate.hooks &&
     wipFiber.alternate.hooks[hookIndex]] *)
Definition oldHookOf (store : list fiber) (wf : fiber) (index : option nat)
  : option href :=
  match alternate wf with
  | None => None
  | Some a =>
      match store !! a with
      | None => None
      | Some af =>
          match hooks af, index with
          | Some hs, Some i => hs !! i
          | _, _ => None
          end
      end
  end.

(** The closure [setState] of one [useState] call; [hook] is the record that
    call created, which the closure captured. *)
Definition setState (hook : href) (action : value -> value) : M unit :=
  updHook hook (fun h => Hook (state h) (queue h ++ [action])) ;;;
  let! cur := gets currentRoot in
  let! c := deref cur in
  let! cf := getFiber c in
  let! w := newFiber (Fiber None (props cf) (dom cf) None None None (Some c)
                            None None) in
  modify (withWipRoot (Some w)) ;;;
  let! w := gets wipRoot in
  modify (withNextUnitOfWork w) ;;;
  modify (withDeletions (Some [])).

(** [useState(initial)] returns [[hook.state, setState]]; the second component
    is given as the hook record the closure holds, to be used with [setState]. *)
Definition useState (initial : value) : M (value * href) :=
  let! w := gets wipFiber in
  let! w := deref w in
  let! wf := getFiber w in
  let! store := gets fibers in
  let! index := gets hookIndex in
  let oldHook := oldHookOf store wf index in
  let! old :=
    match oldHook with
    | Some o => let! h := getHook o in ret (Some h)
    | None => ret None
    end in
  let! hook := newHook (Hook (match old with Some o => state o | None => initial end)
                            []) in
  let actions := match old with Some o => queue o | None => [] end in
  forEach actions
    (fun action => updHook hook (fun h => Hook (action (state h)) (queue h))) ;;;
  let! wf := getFiber w in
  let! hs := deref (hooks wf) in
  updFiber w (setHooks (Some (hs ++ [hook]))) ;;;
  modify (withHookIndex (Some (match index with Some i => S i | None => 1 end))) ;;;
  let! h := getHook hook in
  ret (state h, hook).

(** ** reconcileChildren (lines 312-378) *)

Definition sameTypeOf (oldFiber : option fiber) (element : option element) : bool :=
  match oldFiber, element with
  | Some o, Some e =>
      match type o with
      | Some t => ty_eqb (etype e) t
      | None => false
      end
  | _, _ => false
  end.

Definition isSome {A} (x : option A) : bool :=
  match x with Some _ => true | None => false end.

(** Lines 323-354: the unit made for this position, if any: an [UPDATE] unit
    when the types agree, a [PLACEMENT] unit for an element otherwise. *)
Definition createUnit (wipFiber : ref) (oldFiber : option ref) (old : option fiber)
  (element : option element) : M (option ref) :=
  let sameType := sameTypeOf old element in
  let! newFiber1 :=
    match old, element with
    | Some o, Some e =>
        if sameType then
          let! r := newFiber (Fiber (type o) (eprops e) (dom o) (Some wipFiber)
                                    None None oldFiber (Some UPDATE) None) in
          ret (Some r)
        else ret None
    | _, _ => ret None
    end in
  match element with
  | Some e =>
      if negb sameType then
        let! r := newFiber (Fiber (Some (etype e)) (eprops e) None
                                  (Some wipFiber) None None None
                                  (Some PLACEMENT) None) in
        ret (Some r)
      else ret newFiber1
  | None => ret newFiber1
  end.

(** Lines 356-360: [if (oldFiber && !sameType)]. *)
Definition markDeletion (oldFiber : option ref) (sameType : bool) : M unit :=
  match oldFiber with
  | Some o =>
      if negb sameType then
        updFiber o (setEffectTag (Some DELETION)) ;;;
        let! ds := gets deletions in
        let! ds := deref ds in
        modify (withDeletions (Some (ds ++ [o])))
      else ret tt
  | None => ret tt
  end.

(** Lines 363-365: [if (oldFiber) oldFiber = oldFiber.sibling]. *)
Definition advanceOld (oldFiber : option ref) : M (option ref) :=
  match oldFiber with
  | Some o => let! f := getFiber o in ret (sibling f)
  | None => ret oldFiber
  end.

(** Lines 368-372: the new unit becomes the parent's child at index 0, else
    the sibling of the unit made before it. *)
Definition linkUnit (wipFiber : ref) (index : nat) (element : option element)
  (prevSibling newFiber : option ref) : M unit :=
  if Nat.eqb index 0 then updFiber wipFiber (setChild newFiber)
  else if isSome element then
         let! p := deref prevSibling in
         updFiber p (setSibling newFiber)
       else ret tt.

(** The [while] loop, lines 320-377. *)
Fixpoint reconcileLoop (fuel : nat) (wipFiber : ref)
  (elements : list (option element)) (index : nat)
  (oldFiber prevSibling : option ref) : M unit :=
  match fuel with
  | O => abort
  | S n =>
      if (index <? length elements)%nat || isSome oldFiber then
        let element := mjoin (elements !! index) in
        let! old :=
          match oldFiber with
          | Some o => let! f := getFiber o in ret (Some f)
          | None => ret None
          end in
        let sameType := sameTypeOf old element in
        let! newFiber := createUnit wipFiber oldFiber old element in
        markDeletion oldFiber sameType ;;;
        let! oldFiber' := advanceOld oldFiber in
        linkUnit wipFiber index element prevSibling newFiber ;;;
        reconcileLoop n wipFiber elements (S index) oldFiber' newFiber
      else ret tt
  end.

Definition reconcileChildren (fuel : nat) (wipFiber : ref)
  (elements : list (option element)) : M unit :=
  let! wf := getFiber wipFiber in
  let! oldFiber :=
    match alternate wf with
    | Some a => let! af := getFiber a in ret (child af)
    | None => ret None
    end in
  reconcileLoop fuel wipFiber elements 0 oldFiber None.

(** ** Per-unit work and the scheduler (lines 192-254, 304-309) *)

(** A component function: called with the unit's props, it may call [useState]
    and returns one element (or [null]). *)
Definition component : Type := propsT -> M (option element).

(** [fiber.props.children] as the sequence [reconcileChildren] walks.  A number
    or boolean there has no [length] and no indexed entries; [undefined] or
    [null] makes [elements.length] throw; other values are outside the model. *)
Definition childrenOf (p : propsT) : M (list (option element)) :=
  match pget p "children" with
  | VElems l => ret l
  | VUndefined | VNull => throw
  | VBool _ | VNum _ => ret []
  | VStr _ | VRef _ | VBuiltin _ => abort
  end.

Section Engine.

(** The component functions of the application, by identity. *)
Variable components : nat -> component.

Definition updateFunctionComponent (fuel : nat) (fiber : ref) : M unit :=
  modify (withWipFiber (Some fiber)) ;;;
  modify (withHookIndex (Some 0)) ;;;
  let! w := gets wipFiber in
  let! w := deref w in
  updFiber w (setHooks (Some [])) ;;;
  let! f := getFiber fiber in
  let! result :=
    match type f with
    | Some (TFun c) => components c (props f)
    | _ => throw
    end in
  reconcileChildren fuel fiber [result].

Definition updateHostComponent (fuel : nat) (fiber : ref) : M unit :=
  let! f := getFiber fiber in
  (if isSome (dom f) then ret tt
   else
     let! d := createDom f in
     updFiber fiber (setDom (Some d))) ;;;
  let! f := getFiber fiber in
  let! elements := childrenOf (props f) in
  reconcileChildren fuel fiber elements.

(** The [while (nextFiber)] loop of [performUnitOfWork]; falling out of it
    returns [undefined]. *)
Fixpoint nextFiberLoop (fuel : nat) (nextFiber : option ref) : M (option ref) :=
  match fuel with
  | O => abort
  | S n =>
      match nextFiber with
      | None => ret None
      | Some r =>
          let! f := getFiber r in
          match sibling f with
          | Some s => ret (Some s)
          | None => nextFiberLoop n (parent f)
          end
      end
  end.

Definition isFunctionComponent (f : fiber) : bool :=
  match type f with Some (TFun _) => true | _ => false end.

Definition performUnitOfWork (fuel : nat) (fiber : ref) : M (option ref) :=
  let! f := getFiber fiber in
  (if isFunctionComponent f then updateFunctionComponent fuel fiber
   else updateHostComponent fuel fiber) ;;;
  let! f := getFiber fiber in
  match child f with
  | Some c => ret (Some c)
  | None => nextFiberLoop fuel (Some fiber)
  end.

(** The [while] loop of [workLoop].  [deadline k] is what the [k]-th call of
    [deadline.timeRemaining()] in this slice returns. *)
Fixpoint workLoopWhile (fuel : nat) (deadline : nat -> Z) (k : nat)
  (shouldYield : bool) : M unit :=
  match fuel with
  | O => abort
  | S n =>
      let! next := gets nextUnitOfWork in
      match next with
      | Some u =>
          if negb shouldYield then
            let! r := performUnitOfWork n u in
            modify (withNextUnitOfWork r) ;;;
            workLoopWhile n deadline (S k) (deadline k <? 1)%Z
          else ret tt
      | None => ret tt
      end
  end.

(** One idle slice.  The closing [requestIdleCallback(workLoop)] only asks
    the host for the next slice. *)
Definition workLoop (fuel : nat) (deadline : nat -> Z) : M unit :=
  workLoopWhile fuel deadline 0 false ;;;
  let! next := gets nextUnitOfWork in
  let! w := gets wipRoot in
  if negb (isSome next) && isSome w then commitRoot fuel else ret tt.

End Engine.

(** ** Small applications, used to run the engine on concrete input *)

(** [function Counter() { const [state, setState] = useState(1); return
    <h1 onClick={() => setState(c => c + 1)}>Count: {state}</h1> }]
    (lines 387-394).  The click handler is a closure made anew by each call;
    it is identified by the hook record it holds. *)
Definition Counter : component := fun _ =>
  let! r := useState (VNum 1) in
  ret (Some (createElement (TStr "h1") [("onClick", VRef (snd r))]
               [ChildPrimitive (VStr "Count: "); ChildPrimitive (fst r)])).

(** [function App() { return <div/> }] *)
Definition App : component := fun _ =>
  ret (Some (createElement (TStr "div") [] [])).

Definition demoComponents (c : nat) : component :=
  match c with
  | O => App
  | S _ => Counter
  end.

(** A page whose only node is the container [<div id="root">]. *)
Definition demoPage : list node := [Node (Some "div") [] [] None []].

(** An idle slice that never runs out of time. *)
Definition idle (k : nat) : Z := 50%Z.

(** The machine a computation leaves behind. *)
Definition after {A} (r : result A) : machine :=
  match r with
  | Ok _ m => m
  | Throw m => m
  | Abort => initial []
  end.

Definition completes {A} (r : result A) : bool :=
  match r with Ok _ _ => true | _ => false end.

Definition throws {A} (r : result A) : bool :=
  match r with Throw _ => true | _ => false end.

(** [render(<App/>, container)], walked and committed in one slice.  Units, in
    allocation order: 0 the root, 1 the [App] unit, 2 the [<div>] unit; nodes:
    0 the container, 1 the [<div>]. *)
Definition appCommitted : M unit :=
  render (Some (createElement (TFun 0) [] [])) (Some 0) ;;;
  workLoop demoComponents 20 idle.

(** Then [render(<p/>, container)]: unit 3 is the new root (its alternate is
    unit 0); the walk will make unit 4 and node 2 for the [<p>]. *)
Definition appReplaced : M unit :=
  appCommitted ;;;
  render (Some (createElement (TStr "p") [] [])) (Some 0).

(** The root unit that [render] made. *)
Definition replacedRoot : fiber :=
  Fiber None [("children", VElems [Some (createElement (TStr "p") [] [])])]
        (Some 0) None None None (Some 0) None None.

(** That generation walked to the end but not yet committed. *)
Definition appReplacedWalked : M unit :=
  appReplaced ;;;
  workLoopWhile demoComponents 20 idle 0 false.

(** [render(<ul><a/><b/></ul>, container)] committed, then
    [render(<ul/>, container)] walked to the end.  Units: 0 the root, 1 the
    [<ul>], 2 and 3 the [<a>] and the [<b>], 4 the new root, 5 the new [<ul>];
    nodes: 1 the [<ul>], 2 the [<a>], 3 the [<b>]. *)
Definition listEmptiedWalked : M unit :=
  render (Some (createElement (TStr "ul") []
                  [ChildObject (Some (createElement (TStr "a") [] []));
                   ChildObject (Some (createElement (TStr "b") [] []))]))
         (Some 0) ;;;
  workLoop demoComponents 20 idle ;;;
  render (Some (createElement (TStr "ul") [] [])) (Some 0) ;;;
  workLoopWhile demoComponents 20 idle 0 false.

(** An idle slice that is over after one unit of work. *)
Definition busy (k : nat) : Z := 0%Z.

(** [c => c + 1], on a number. *)
Definition increment (v : value) : value :=
  match v with
  | VNum n => VNum (n + 1)
  | _ => v
  end.

(** [render(<Counter/>, container)] (lines 395-398), walked and committed.
    Units: 0 the root, 1 the [Counter] unit (its hook is record 0), 2 the
    [<h1>], 3 and 4 the two text units. *)
Definition counterCommitted : M unit :=
  render (Some (createElement (TFun 1) [] [])) (Some 0) ;;;
  workLoop demoComponents 20 idle.

(** The same [render], and two short slices: the root and the [Counter] unit
    have been worked on, nothing is committed yet. *)
Definition counterHalfWalked : M unit :=
  render (Some (createElement (TFun 1) [] [])) (Some 0) ;;;
  workLoop demoComponents 20 busy ;;;
  workLoop demoComponents 20 busy.

(** After the commit of [<Counter/>]: two clicks (each makes a new root, units
    5 and 6) and a short slice that works on the root in progress, making the
    new [Counter] unit 7. *)
Definition counterClickedTwice : M unit :=
  counterCommitted ;;;
  forEach [increment; increment] (setState 0) ;;;
  workLoop demoComponents 20 busy.

(** Then the first three statements of [updateFunctionComponent] on that unit:
    the component function is about to run. *)
Definition counterEntered : M unit :=
  counterClickedTwice ;;;
  let! next := gets nextUnitOfWork in
  modify (withWipFiber next) ;;;
  modify (withHookIndex (Some 0)) ;;;
  let! w := gets wipFiber in
  let! w := deref w in
  updFiber w (setHooks (Some [])).

(** [render(<Counter/>, container)] and four short slices: only the last text
    unit is left to work on. *)
Definition counterAlmostWalked : M unit :=
  render (Some (createElement (TFun 1) [] [])) (Some 0) ;;;
  workLoop demoComponents 20 busy ;;;
  workLoop demoComponents 20 busy ;;;
  workLoop demoComponents 20 busy ;;;
  workLoop demoComponents 20 busy.

(** That unit. *)
Definition lastText : fiber :=
  Fiber (Some (TStr "TEXT_ELEMENT")) [("nodeValue", VNum 1); ("children", VElems [])]
        None (Some 2) None None None (Some PLACEMENT) None.

(** * Vocabulary of the statements *)

(** [hostOnly m m'] : only the document and the record of host calls differ. *)
Definition hostOnly (m m' : machine) : Prop :=
  fibers m' = fibers m /\ hookStore m' = hookStore m /\
  nextUnitOfWork m' = nextUnitOfWork m /\ currentRoot m' = currentRoot m /\
  wipRoot m' = wipRoot m /\ deletions m' = deletions m /\
  wipFiber m' = wipFiber m /\ hookIndex m' = hookIndex m.

(** [keeps c]: computation [c], when it ends normally, changed the host only. *)
Definition keeps {A} (c : M A) : Prop :=
  forall m a m', c m = Ok a m' -> hostOnly m m'.

(** A host call on node [d] that cannot fail once [d] exists. *)
Definition plainCall (d : dref) (c : M unit) (call : hostCall) : Prop :=
  forall m, d < length (document m) ->
    exists m', c m = Ok tt m' /\ hostCalls m' = hostCalls m ++ [call] /\
               length (document m') = length (document m).

(** The host calls one [updateDom] makes, in order. *)
Definition updateDomCalls (d : dref) (prevProps nextProps : propsT) : list hostCall :=
  map (fun name => RemoveEventListener d (substringFrom 2 (toLowerCase name))
                                       (pget prevProps name))
      (List.filter (fun key => negb (pin key nextProps) || isNew prevProps nextProps key)
         (List.filter isEvent (keys prevProps)))
  ++ map (fun name => SetProperty d name (VStr ""))
      (List.filter (isGone prevProps nextProps)
         (List.filter isProperty (keys prevProps)))
  ++ map (fun name => SetProperty d name (pget nextProps name))
      (List.filter (isNew prevProps nextProps)
         (List.filter isProperty (keys nextProps)))
  ++ map (fun name => AddEventListener d (substringFrom 2 (toLowerCase name))
                                       (pget nextProps name))
      (List.filter (isNew prevProps nextProps)
         (List.filter isEvent (keys nextProps))).

(** [P[key] !== N[key]], an absent key reading as [undefined]. *)
Definition differs (P N : propsT) (key : string) : Prop :=
  strict_eq (pget P key) (pget N key) = false.

(** A plain attribute key: not [children], and not a listener key. *)
Definition plainKey (key : string) : Prop :=
  key <> "children" /\ isEvent key = false.

(** The event name of a listener key: the key in lower case, without its first
    two characters (lines 62-64 and 92-94). *)
Definition eventName (key : string) : string := substringFrom 2 (toLowerCase key).

(** The listener keys of [p] are made of ASCII characters. *)
Definition asciiListenerKeys (p : propsT) : Prop :=
  forall key, In key (keys p) -> isEvent key = true -> ascii7 key = true.

(** The listeners of [p] are values the host takes. *)
Definition objectListeners (p : propsT) : Prop :=
  forall key, In key (keys p) -> isEvent key = true ->
              isListenerValue (pget p key) = true.

(** [callsOf c L]: however [c] ends, the host calls it made are [L], all of
    them when it returns and an initial part when it ends by an exception. *)
Definition callsOf (c : M unit) (L : list hostCall) : Prop :=
  forall m, match c m with
            | Ok _ m' => hostCalls m' = hostCalls m ++ L
            | Throw m' => exists j, hostCalls m' = hostCalls m ++ take j L
            | Abort => True
            end.

(** [fN (... (f1 v))]: the update functions applied in queue order. *)
Definition applyAll (fs : list (value -> value)) (v : value) : value :=
  fold_left (fun s f => f s) fs v.

(** [nextUp store x n]: starting at [x] and walking up through [parent], [n] is
    the sibling of the first unit that has one, or nothing when the units run
    out. *)
Inductive nextUp (store : list fiber) : option ref -> option ref -> Prop :=
| nextUp_exhausted : nextUp store None None
| nextUp_sibling r f s :
    store !! r = Some f -> sibling f = Some s -> nextUp store (Some r) (Some s)
| nextUp_parent r f n :
    store !! r = Some f -> sibling f = None -> nextUp store (parent f) n ->
    nextUp store (Some r) n.

(** The unit to visit after [r]: its child, else what [nextUp] finds. *)
Definition nextUnit (store : list fiber) (r : ref) (n : option ref) : Prop :=
  exists f, store !! r = Some f /\
            match child f with
            | Some c => n = Some c
            | None => nextUp store (Some r) n
            end.

(** [ancestors store x path]: the units from [x] up to the root. *)
Inductive ancestors (store : list fiber) : option ref -> list ref -> Prop :=
| ancestors_nil : ancestors store None []
| ancestors_cons r f path :
    store !! r = Some f -> ancestors store (parent f) path ->
    ancestors store (Some r) (r :: path).

(** The unit made for element [e] at a position whose old unit has the same
    type ([old] is its record, [x] the reference to it), and the unit made for
    an element otherwise. *)
Definition updateUnit (p : ref) (x : option ref) (old : fiber) (e : element) : fiber :=
  Fiber (type old) (eprops e) (dom old) (Some p) None None x (Some UPDATE) None.
Definition placementUnit (p : ref) (e : element) : fiber :=
  Fiber (Some (etype e)) (eprops e) None (Some p) None None None (Some PLACEMENT) None.

(** A field of the unit at [r], if there is one. *)
Definition fld {A} (proj : fiber -> A) (h : list fiber) (r : ref) : option A :=
  proj <$> h !! r.

(** The old chain: the units reached from [x] through [sibling]. *)
Inductive chain (h : list fiber) : option ref -> list ref -> Prop :=
| chain_nil : chain h None []
| chain_cons o s os :
    fld sibling h o = Some s -> chain h s os -> chain h (Some o) (o :: os).

(** The fields [reconcileChildren] never assigns on a unit that exists. *)
Definition core (f : fiber)
  : option ty * propsT * option dref * option ref * option ref * option (list href) :=
  (type f, props f, dom f, parent f, alternate f, hooks f).

(** Tagging the units [os] for deletion. *)
Definition tagAll (os : list ref) (h : list fiber) : list fiber :=
  fold_left (fun h o => alter (setEffectTag (Some DELETION)) o h) os h.

Definition inb (r : ref) (l : list ref) : bool := existsb (Nat.eqb r) l.

(** Everything but the store of units and the pending deletions. *)
Definition sameGlobals (m m' : machine) : Prop :=
  hookStore m' = hookStore m /\ document m' = document m /\
  hostCalls m' = hostCalls m /\ nextUnitOfWork m' = nextUnitOfWork m /\
  currentRoot m' = currentRoot m /\ wipRoot m' = wipRoot m /\
  wipFiber m' = wipFiber m /\ hookIndex m' = hookIndex m.

(** The record of the old unit at a position, the unit made for element [e]
    there, and the old unit to delete there. *)
Definition oldRecord (h : list fiber) (x : option ref) : option fiber :=
  match x with
  | Some o => h !! o
  | None => None
  end.

Definition unitFor (h : list fiber) (p : ref) (x : option ref) (e : element) : fiber :=
  match oldRecord h x with
  | Some f =>
      if sameTypeOf (Some f) (Some e) then updateUnit p x f e
      else placementUnit p e
  | None => placementUnit p e
  end.

Definition removedAt (h : list fiber) (x : option ref) (e : option element)
  : list ref :=
  match x with
  | Some o => if sameTypeOf (oldRecord h x) e then [] else [o]
  | None => []
  end.

Definition nextOf (h : list fiber) (x : option ref) : option ref :=
  match x with
  | Some o => h !! o ≫= sibling
  | None => None
  end.

(** The old units deleted by a call: those at a position with no element of
    the same type. *)
Fixpoint removedOf (h : list fiber) (es : list element) (os : list ref)
  {struct os} : list ref :=
  match os with
  | [] => []
  | o :: os' =>
      match es with
      | [] => os
      | e :: es' => removedAt h (Some o) (Some e) ++ removedOf h es' os'
      end
  end.

Definition linked (es : list element) (prev : option ref) (r : ref) : bool :=
  match es, prev with
  | _ :: _, Some pr => Nat.eqb pr r
  | _, _ => false
  end.

(** The sibling of the [k]-th new unit: the next new unit, if there is one. *)
Definition nextNew (n len k : nat) : option ref :=
  if (S k <? len)%nat then Some (n + S k) else None.

(** What the loop, entered at an index past zero, has done when it ends:
    [h] and [ds] are the store and the pending deletions it started from. *)
Definition restPost (p : ref) (es : list element) (os : list ref)
  (prev : option ref) (h : list fiber) (ds : list ref) (m' : machine) : Prop :=
  length (fibers m') = length h + length es /\
  deletions m' = Some (ds ++ removedOf h es os) /\
  (forall r, r < length h ->
     fld core (fibers m') r = fld core h r /\
     fld child (fibers m') r = fld child h r /\
     fld sibling (fibers m') r =
       (if linked es prev r then Some (Some (length h)) else fld sibling h r) /\
     fld effectTag (fibers m') r =
       (if inb r (removedOf h es os) then Some (Some DELETION)
        else fld effectTag h r)) /\
  (forall k e, es !! k = Some e ->
     fibers m' !! (length h + k) =
     Some (setSibling (nextNew (length h) (length es) k)
             (unitFor h p (os !! k) e))).

(** The store after one turn at a position with an element, the unit made
    being linked as the sibling of [pr]. *)
Definition turnStore (p : ref) (h : list fiber) (x : option ref) (e : element)
  (pr : ref) : list fiber :=
  alter (setSibling (Some (length h))) pr
    (tagAll (removedAt h x (Some e)) (h ++ [unitFor h p x e])).

(** The store after the turn at index 0 with an element: the unit made is the
    parent's child. *)
Definition firstStore (p : ref) (h : list fiber) (x : option ref) (e : element)
  : list fiber :=
  alter (setChild (Some (length h))) p
    (tagAll (removedAt h x (Some e)) (h ++ [unitFor h p x e])).

Definition nonempty {A} (l : list A) : bool :=
  match l with [] => false | _ :: _ => true end.

(** The first unit of the new chain. *)
Definition firstNew (n : nat) (es : list element) : option ref :=
  match es with [] => None | _ :: _ => Some n end.

(** What one call of [reconcileChildren] on parent [p], elements [es] and old
    chain [os] has done: [h], [ds] are the store and the pending deletions
    before the call. *)
Definition reconcilePost (p : ref) (es : list element) (os : list ref)
  (h : list fiber) (ds : list ref) (m' : machine) : Prop :=
  length (fibers m') = length h + length es /\
  deletions m' = Some (ds ++ removedOf h es os) /\
  (forall r, r < length h ->
     fld core (fibers m') r = fld core h r /\
     fld child (fibers m') r =
       (if Nat.eqb p r && (nonempty es || nonempty os)
        then Some (firstNew (length h) es) else fld child h r) /\
     fld sibling (fibers m') r = fld sibling h r /\
     fld effectTag (fibers m') r =
       (if inb r (removedOf h es os) then Some (Some DELETION)
        else fld effectTag h r)) /\
  (forall k e, es !! k = Some e ->
     fibers m' !! (length h + k) =
     Some (setSibling (nextNew (length h) (length es) k)
             (unitFor h p (os !! k) e))).

(** The head of the old chain: [wipFiber.alternate && wipFiber.alternate.child]. *)
Definition oldHead (h : list fiber) (pf : fiber) : option ref :=
  match alternate pf with
  | Some a => h !! a ≫= child
  | None => None
  end.

(** What a call of [reconcileChildren] needs to run to its end: the parent is a
    unit of the store, its alternate (if any) too, the old chain [os] is
    finite, a pending-deletions collection exists, and the fuel covers the
    positions. *)
Definition reconcilePre (fuel : nat) (p : ref) (pf : fiber) (es : list element)
  (os ds : list ref) (m : machine) : Prop :=
  fibers m !! p = Some pf /\
  (forall a, alternate pf = Some a -> is_Some (fibers m !! a)) /\
  chain (fibers m) (oldHead (fibers m) pf) os /\
  deletions m = Some ds /\
  length es + length os < fuel.

(** Position [k] of the old chain holds [o], and there is no element of the
    same type at that position. *)
Definition unmatched (h : list fiber) (es : list element) (os : list ref)
  (k : nat) (o : ref) : Prop :=
  os !! k = Some o /\ sameTypeOf (h !! o) (es !! k) = false.

(** The work done on a unit before the next one is chosen. *)
Definition processUnit (components : nat -> component) (fuel : nat) (r : ref)
  (f : fiber) : M unit :=
  if isFunctionComponent f then updateFunctionComponent components fuel r
  else updateHostComponent fuel r.

(** ** Vocabulary of the further properties *)

(** The entry of [children] that [createElement] makes for a child. *)
Definition asChild (c : childArg) : option element :=
  match c with
  | ChildObject e => e
  | ChildPrimitive v => Some (createTextElement v)
  end.

(** Node [d] after the calls [G x], [x] in [xs], applied in order. *)
Definition foldNode {A} (G : A -> node -> node) (xs : list A) (nd : node) : node :=
  fold_left (fun n x => G x n) xs nd.

(** The node after [dom[name] = v]. *)
Definition setProp (name : string) (v : value) (n : node) : node :=
  Node (tagName n) (pset (assigned n) name v) (listeners n)
       (parentNode n) (childNodes n).

(** The node after [dom.addEventListener(ev, h)]. *)
Definition addListener (ev : string) (h : value) (n : node) : node :=
  if isNullish h || existsb (sameListener ev h) (listeners n) then n
  else Node (tagName n) (assigned n) (listeners n ++ [(ev, h)])
            (parentNode n) (childNodes n).

(** The node after [dom.removeEventListener(ev, h)]. *)
Definition rmListener (ev : string) (h : value) (n : node) : node :=
  Node (tagName n) (assigned n)
       (List.filter (fun l => negb (sameListener ev h l)) (listeners n))
       (parentNode n) (childNodes n).

(** The node [nd] after the four passes of [updateDom] from [P] to [N]. *)
Definition updateDomNode (P N : propsT) (nd : node) : node :=
  foldNode (fun name => addListener (substringFrom 2 (toLowerCase name)) (pget N name))
    (List.filter (isNew P N) (List.filter isEvent (keys N)))
    (foldNode (fun name => setProp name (pget N name))
       (List.filter (isNew P N) (List.filter isProperty (keys N)))
       (foldNode (fun name => setProp name (VStr ""))
          (List.filter (isGone P N) (List.filter isProperty (keys P)))
          (foldNode (fun name => rmListener (substringFrom 2 (toLowerCase name))
                                   (pget P name))
             (List.filter (fun key => negb (pin key N) || isNew P N key)
                (List.filter isEvent (keys P)))
             nd))).

(** The node [document.createElement] or [document.createTextNode] returns for
    a tag. *)
Definition freshNode (tag : string) : node :=
  if String.eqb tag "TEXT_ELEMENT" then Node None [] [] None []
  else Node (Some tag) [] [] None [].

(** The value the engine last assigned to the node under a name, [undefined]
    when it assigned none. *)
Definition assignedValue (nd : node) (name : string) : value :=
  match plookup (assigned nd) name with Some v => v | None => VUndefined end.

(** How a computation can end, with the machine it leaves. *)
Definition ends {A} (r : result A) (m' : machine) : Prop :=
  match r with
  | Ok _ x => x = m'
  | Throw x => x = m'
  | Abort => False
  end.

(** [pres R c]: however [c] ends, normally or by an exception, the machine it
    leaves is related by [R] to the one it started from. *)
Definition pres (R : machine -> machine -> Prop) {A} (c : M A) : Prop :=
  forall m m', ends (c m) m' -> R m m'.

(** [holds I c]: [c] keeps the invariant [I], however it ends. *)
Definition holds (I : machine -> Prop) {A} (c : M A) : Prop :=
  forall m m', I m -> ends (c m) m' -> I m'.

(** The host is as it was: same document, same record of host calls. *)
Definition hostSame (m m' : machine) : Prop :=
  document m' = document m /\ hostCalls m' = hostCalls m.

(** A node that hangs nowhere and holds nothing. *)
Definition detached (nd : node) : Prop :=
  parentNode nd = None /\ childNodes nd = [].

(** The nodes [base] are in the document as they were, and every node made
    since is detached. *)
Definition hostFrame (base : list node) (m : machine) : Prop :=
  exists new, document m = base ++ new /\ Forall detached new.

(** [domAlong next store x path res]: following the link [next] from unit [x],
    [path] lists the units visited up to and including the first one that has
    a [dom], which is [res]; [res] is [None] when the links end first. *)
Inductive domAlong (next : fiber -> option ref) (store : list fiber)
  : option ref -> list ref -> option dref -> Prop :=
| domAlong_end : domAlong next store None [] None
| domAlong_found r f d :
    store !! r = Some f -> dom f = Some d ->
    domAlong next store (Some r) [r] (Some d)
| domAlong_step r f path res :
    store !! r = Some f -> dom f = None ->
    domAlong next store (next f) path res ->
    domAlong next store (Some r) (r :: path) res.

(** [tagsKept m m']: the same units exist, each with the [effectTag] it had. *)
Definition tagsKept (m m' : machine) : Prop :=
  forall r, fld effectTag (fibers m') r = fld effectTag (fibers m) r.

(** [tagsStep m m']: a unit that existed has the [effectTag] it had or
    [DELETION]; a unit made since has [UPDATE] or [PLACEMENT], or [DELETION]. *)
Definition tagsStep (m m' : machine) : Prop :=
  forall r,
    match fld effectTag (fibers m) r with
    | Some t => fld effectTag (fibers m') r = Some t \/
                fld effectTag (fibers m') r = Some (Some DELETION)
    | None => fld effectTag (fibers m') r = None \/
              fld effectTag (fibers m') r = Some (Some UPDATE) \/
              fld effectTag (fibers m') r = Some (Some PLACEMENT) \/
              fld effectTag (fibers m') r = Some (Some DELETION)
    end.

(** [splits R c P]: however [c] ends, it has first gone through steps related
    by [R] to a machine [m1], and either ended there or gone on from [m1] to
    its end as [P] says. *)
Definition splits (R P : machine -> machine -> Prop) {A} (c : M A) : Prop :=
  forall m m', ends (c m) m' -> exists m1, R m m1 /\ (m' = m1 \/ P m1 m').

(** The machine is as it was. *)
Definition unchanged (m m' : machine) : Prop := m' = m.

(** * Properties *)

(** ** Reasoning in the monad *)

Lemma bind_Ok {A B} (c : M A) (k : A -> M B) m b m' :
  bind c k m = Ok b m' ->
  exists a m1, c m = Ok a m1 /\ k a m1 = Ok b m'.
Proof.
  unfold bind. destruct (c m) as [a m1| |]; try discriminate. eauto.
Qed.

Lemma bind_eq {A B} (c : M A) (k : A -> M B) m a m1 :
  c m = Ok a m1 -> bind c k m = k a m1.
Proof. unfold bind. intros ->. reflexivity. Qed.

Lemma getFiber_Ok r m f m' :
  getFiber r m = Ok f m' -> fibers m !! r = Some f /\ m' = m.
Proof.
  unfold getFiber. destruct (fibers m !! r); intros H; inversion H; auto.
Qed.

Lemma getFiber_eq r m f : fibers m !! r = Some f -> getFiber r m = Ok f m.
Proof. unfold getFiber. intros ->. reflexivity. Qed.

Lemma getHook_eq h m x : hookStore m !! h = Some x -> getHook h m = Ok x m.
Proof. unfold getHook. intros ->. reflexivity. Qed.

Lemma updFiber_eq r g m f :
  fibers m !! r = Some f ->
  updFiber r g m = Ok tt (withFibers (<[r := g f]> (fibers m)) m).
Proof. unfold updFiber. intros ->. reflexivity. Qed.

Lemma updHook_eq h g m x :
  hookStore m !! h = Some x ->
  updHook h g m = Ok tt (withHookStore (<[h := g x]> (hookStore m)) m).
Proof. unfold updHook. intros ->. reflexivity. Qed.

Ltac unfold_with :=
  unfold withFibers, withHookStore, withDocument, withHostCalls,
    withNextUnitOfWork, withCurrentRoot, withWipRoot, withDeletions,
    withWipFiber, withHookIndex in *.

(** A conjunction of closed facts, each settled by running the engine. *)
Ltac by_evaluation :=
  repeat match goal with |- _ /\ _ => split end; vm_compute; reflexivity.

(** Decompose a hypothesis saying that a monadic computation ended normally. *)
Ltac ok_inv :=
  repeat match goal with
    | H : bind _ _ _ = Ok _ _ |- _ =>
        let a := fresh "a" in
        let m1 := fresh "m" in
        let H1 := fresh "E" in
        apply bind_Ok in H; destruct H as (a & m1 & H1 & H)
    | H : ret _ _ = Ok _ _ |- _ => inversion H; subst; clear H
    | H : gets _ _ = Ok _ _ |- _ => inversion H; subst; clear H
    | H : modify _ _ = Ok _ _ |- _ => inversion H; subst; clear H
    | H : throw _ = Ok _ _ |- _ => discriminate H
    | H : abort _ = Ok _ _ |- _ => discriminate H
    | H : deref ?x _ = Ok _ _ |- _ =>
        let Hx := fresh "D" in
        destruct x eqn:Hx; [inversion H; subst; clear H | discriminate H]
    | H : getFiber _ _ = Ok _ _ |- _ =>
        apply getFiber_Ok in H; destruct H as [H ?]; subst
    end.

(** ** What the commit engine leaves alone *)

Lemma hostOnly_refl m : hostOnly m m.
Proof. repeat split. Qed.

Lemma hostOnly_trans m1 m2 m3 : hostOnly m1 m2 -> hostOnly m2 m3 -> hostOnly m1 m3.
Proof.
  unfold hostOnly. intros H1 H2.
  destruct H1 as (?&?&?&?&?&?&?&?), H2 as (?&?&?&?&?&?&?&?).
  repeat split; congruence.
Qed.

Lemma keeps_ret {A} (a : A) : keeps (ret a).
Proof. intros m x m' H. inversion H. apply hostOnly_refl. Qed.

Lemma keeps_bind {A B} (c : M A) (k : A -> M B) :
  keeps c -> (forall a, keeps (k a)) -> keeps (bind c k).
Proof.
  intros Hc Hk m b m' H. apply bind_Ok in H. destruct H as (a & m1 & H1 & H2).
  eapply hostOnly_trans; [eapply Hc | eapply Hk]; eauto.
Qed.

Lemma keeps_throw {A} : keeps (@throw A).
Proof. intros m a m' H. discriminate. Qed.

Lemma keeps_abort {A} : keeps (@abort A).
Proof. intros m a m' H. discriminate. Qed.

Lemma keeps_gets {A} (f : machine -> A) : keeps (gets f).
Proof. intros m a m' H. inversion H. apply hostOnly_refl. Qed.

Lemma keeps_deref {A} (x : option A) : keeps (deref x).
Proof. destruct x; [apply keeps_ret | apply keeps_throw]. Qed.

Lemma keeps_getFiber r : keeps (getFiber r).
Proof.
  intros m a m' H. apply getFiber_Ok in H. destruct H as [_ ->].
  apply hostOnly_refl.
Qed.

Lemma keeps_getNode d : keeps (getNode d).
Proof.
  intros m a m'. unfold getNode. destruct (document m !! d); intros H; inversion H.
  apply hostOnly_refl.
Qed.

Lemma keeps_updNode d g : keeps (updNode d g).
Proof.
  intros m a m'. unfold updNode. destruct (document m !! d); intros H; inversion H.
  repeat split.
Qed.

Lemma keeps_newNode x : keeps (newNode x).
Proof. intros m a m' H. inversion H. repeat split. Qed.

Lemma keeps_called c : keeps (called c).
Proof. intros m a m' H. inversion H. repeat split. Qed.

Lemma keeps_forEach {A} (xs : list A) (f : A -> M unit) :
  (forall x, keeps (f x)) -> keeps (forEach xs f).
Proof.
  intros Hf. induction xs as [|x xs IH]; simpl.
  - apply keeps_ret.
  - apply keeps_bind; auto.
Qed.

Create HintDb keeps.
#[local] Hint Resolve keeps_ret keeps_throw keeps_abort keeps_gets keeps_deref
  keeps_getFiber keeps_getNode keeps_updNode keeps_newNode keeps_called : keeps.

Ltac keeps_tac :=
  repeat first
    [ apply keeps_bind; [|intros ?]
    | apply keeps_forEach; intros ?
    | solve [auto with keeps]
    | match goal with
      | |- keeps (match ?x with _ => _ end) => destruct x
      | |- keeps (if ?b then _ else _) => destruct b
      end ].

Lemma keeps_detach d : keeps (detach d).
Proof. unfold detach. keeps_tac. Qed.

Lemma keeps_appendChild p d : keeps (appendChild p d).
Proof. unfold appendChild. keeps_tac; apply keeps_detach. Qed.

Lemma keeps_removeChild p d : keeps (removeChild p d).
Proof. unfold removeChild. keeps_tac; apply keeps_detach. Qed.

Lemma keeps_setProperty d name v : keeps (setProperty d name v).
Proof. unfold setProperty. keeps_tac. Qed.

Lemma keeps_addEventListener d e h : keeps (addEventListener d e h).
Proof. unfold addEventListener. keeps_tac. Qed.

Lemma keeps_removeEventListener d e h : keeps (removeEventListener d e h).
Proof. unfold removeEventListener. keeps_tac. Qed.

#[local] Hint Resolve keeps_appendChild keeps_removeChild keeps_setProperty
  keeps_addEventListener keeps_removeEventListener : keeps.

Lemma keeps_eventTypeOf name : keeps (eventTypeOf name).
Proof. unfold eventTypeOf. keeps_tac. Qed.

#[local] Hint Resolve keeps_eventTypeOf : keeps.

Lemma keeps_updateDom d prev next : keeps (updateDom d prev next).
Proof. unfold updateDom. keeps_tac. Qed.

#[local] Hint Resolve keeps_updateDom : keeps.

Lemma keeps_commitDeletion fuel : forall fiber domParent,
  keeps (commitDeletion fuel fiber domParent).
Proof.
  induction fuel as [|n IH]; intros fiber domParent; simpl.
  - apply keeps_abort.
  - keeps_tac.
Qed.

Lemma keeps_domParentOf fuel : forall r, keeps (domParentOf fuel r).
Proof.
  induction fuel as [|n IH]; intros r; simpl.
  - apply keeps_abort.
  - keeps_tac.
Qed.

#[local] Hint Resolve keeps_commitDeletion keeps_domParentOf : keeps.

Lemma keeps_commitWork fuel : forall fiber, keeps (commitWork fuel fiber).
Proof.
  induction fuel as [|n IH]; intros fiber; simpl.
  - apply keeps_abort.
  - destruct fiber as [r|]; [|apply keeps_ret].
    keeps_tac.
Qed.

(** ** Every outcome: what a computation preserves however it ends *)

Section Preserve.

Variable R : machine -> machine -> Prop.
Hypothesis R_refl : forall m, R m m.
Hypothesis R_trans : forall m1 m2 m3, R m1 m2 -> R m2 m3 -> R m1 m3.

Lemma pres_ret {A} (a : A) : pres R (ret a).
Proof. intros m m' H. simpl in H. subst. apply R_refl. Qed.

Lemma pres_throw {A} : pres R (@throw A).
Proof. intros m m' H. simpl in H. subst. apply R_refl. Qed.

Lemma pres_abort {A} : pres R (@abort A).
Proof. intros m m' []. Qed.

Lemma pres_gets {A} (f : machine -> A) : pres R (gets f).
Proof. intros m m' H. simpl in H. subst. apply R_refl. Qed.

Lemma pres_deref {A} (x : option A) : pres R (deref x).
Proof. destruct x; [apply pres_ret | apply pres_throw]. Qed.

Lemma pres_bind {A B} (c : M A) (k : A -> M B) :
  pres R c -> (forall a, pres R (k a)) -> pres R (bind c k).
Proof.
  intros Hc Hk m m' H. unfold bind in H.
  destruct (c m) as [a m1|m1|] eqn:E.
  - eapply R_trans; [apply (Hc m m1); rewrite E; reflexivity|].
    apply (Hk a m1 m'). exact H.
  - simpl in H. subst. apply (Hc m m'). rewrite E. reflexivity.
  - destruct H.
Qed.

Lemma pres_forEach {A} (xs : list A) (f : A -> M unit) :
  (forall x, pres R (f x)) -> pres R (forEach xs f).
Proof.
  intros Hf. induction xs as [|x xs IH]; simpl.
  - apply pres_ret.
  - apply pres_bind; auto.
Qed.

Lemma pres_modify (f : machine -> machine) :
  (forall m, R m (f m)) -> pres R (modify f).
Proof. intros Hf m m' H. simpl in H. subst. apply Hf. Qed.

Lemma pres_getFiber r : pres R (getFiber r).
Proof.
  intros m m'. unfold getFiber. destruct (fibers m !! r); simpl; intros H;
    [subst; apply R_refl | destruct H].
Qed.

Lemma pres_getHook h : pres R (getHook h).
Proof.
  intros m m'. unfold getHook. destruct (hookStore m !! h); simpl; intros H;
    [subst; apply R_refl | destruct H].
Qed.

Lemma pres_getNode d : pres R (getNode d).
Proof.
  intros m m'. unfold getNode. destruct (document m !! d); simpl; intros H;
    [subst; apply R_refl | destruct H].
Qed.

End Preserve.

Lemma ends_bind {A B} (c : M A) (k : A -> M B) m m' :
  ends (bind c k m) m' ->
  (exists a m1, c m = Ok a m1 /\ ends (k a m1) m') \/ c m = Throw m'.
Proof.
  unfold bind. destruct (c m) as [a m1|m1|]; simpl; intros H.
  - left. eauto.
  - right. subst. reflexivity.
  - destruct H.
Qed.

Lemma hostSame_refl m : hostSame m m.
Proof. split; reflexivity. Qed.

Lemma hostSame_trans m1 m2 m3 : hostSame m1 m2 -> hostSame m2 m3 -> hostSame m1 m3.
Proof. intros [? ?] [? ?]. split; congruence. Qed.

Lemma same_updFiber r g : pres hostSame (updFiber r g).
Proof.
  intros m m'. unfold updFiber. destruct (fibers m !! r); simpl; intros H;
    [subst; split; reflexivity | destruct H].
Qed.

Lemma same_newFiber f : pres hostSame (newFiber f).
Proof. intros m m' H. simpl in H. subst. split; reflexivity. Qed.

Lemma same_updHook h g : pres hostSame (updHook h g).
Proof.
  intros m m'. unfold updHook. destruct (hookStore m !! h); simpl; intros H;
    [subst; split; reflexivity | destruct H].
Qed.

Lemma same_newHook x : pres hostSame (newHook x).
Proof. intros m m' H. simpl in H. subst. split; reflexivity. Qed.

Create HintDb same.
#[local] Hint Resolve hostSame_refl hostSame_trans : same.
#[local] Hint Resolve same_updFiber same_newFiber same_updHook same_newHook : same.

(** Goals [pres hostSame c] for straight-line code. *)
Ltac same_side := try exact hostSame_refl; try exact hostSame_trans.

Ltac same_tac :=
  repeat first
    [ solve [auto with same]
    | apply pres_bind; same_side; [|intros ?]
    | apply pres_forEach; same_side; intros ?
    | solve [apply pres_ret; same_side]
    | solve [apply pres_throw; same_side]
    | solve [apply pres_abort]
    | solve [apply pres_gets; same_side]
    | solve [apply pres_deref; same_side]
    | solve [apply pres_getFiber; same_side]
    | solve [apply pres_getHook; same_side]
    | solve [apply pres_modify; intros ?; split; reflexivity]
    | match goal with
      | |- pres _ (match ?x with _ => _ end) => destruct x
      | |- pres _ (if ?b then _ else _) => destruct b
      | |- pres _ (let _ := _ in _) => cbv zeta
      end ].

Lemma same_createUnit p x old e : pres hostSame (createUnit p x old e).
Proof. unfold createUnit. same_tac. Qed.

Lemma same_markDeletion x b : pres hostSame (markDeletion x b).
Proof. unfold markDeletion. same_tac. Qed.

Lemma same_advanceOld x : pres hostSame (advanceOld x).
Proof. unfold advanceOld. same_tac. Qed.

Lemma same_linkUnit p i e prev new : pres hostSame (linkUnit p i e prev new).
Proof. unfold linkUnit. same_tac. Qed.

#[local] Hint Resolve same_createUnit same_markDeletion same_advanceOld
  same_linkUnit : same.

Lemma same_reconcileLoop fuel : forall p elements i x prev,
  pres hostSame (reconcileLoop fuel p elements i x prev).
Proof.
  induction fuel as [|k IH]; intros p elements i x prev; cbn [reconcileLoop].
  - apply pres_abort.
  - same_tac.
Qed.

Lemma same_reconcileChildren fuel p elements :
  pres hostSame (reconcileChildren fuel p elements).
Proof. unfold reconcileChildren. same_tac. apply same_reconcileLoop. Qed.

Lemma same_useState initial : pres hostSame (useState initial).
Proof. unfold useState. same_tac. Qed.

Lemma same_setState h action : pres hostSame (setState h action).
Proof. unfold setState. same_tac. Qed.

Lemma same_render element container : pres hostSame (render element container).
Proof. unfold render. same_tac. Qed.

(** ** What the commit engine leaves alone, however it ends *)

Lemma only_called c : pres hostOnly (called c).
Proof. intros m m' H. simpl in H. subst. repeat split. Qed.

Lemma only_updNode d g : pres hostOnly (updNode d g).
Proof.
  intros m m'. unfold updNode. destruct (document m !! d); simpl; intros H;
    [subst; repeat split | destruct H].
Qed.

Lemma only_newNode x : pres hostOnly (newNode x).
Proof. intros m m' H. simpl in H. subst. repeat split. Qed.

Create HintDb only.
#[local] Hint Resolve hostOnly_refl hostOnly_trans only_called only_updNode
  only_newNode : only.

(** Goals [pres hostOnly c] for straight-line code. *)
Ltac only_side := try exact hostOnly_refl; try exact hostOnly_trans.

Ltac only_tac :=
  repeat first
    [ solve [auto with only]
    | apply pres_bind; only_side; [|intros ?]
    | apply pres_forEach; only_side; intros ?
    | solve [apply pres_ret; only_side]
    | solve [apply pres_throw; only_side]
    | solve [apply pres_abort]
    | solve [apply pres_gets; only_side]
    | solve [apply pres_deref; only_side]
    | solve [apply pres_getFiber; only_side]
    | solve [apply pres_getNode; only_side]
    | match goal with
      | |- pres _ (match ?x with _ => _ end) => destruct x
      | |- pres _ (if ?b then _ else _) => destruct b
      | |- pres _ (let _ := _ in _) => cbv zeta
      end ].

Lemma only_detach d : pres hostOnly (detach d).
Proof. unfold detach. only_tac. Qed.

#[local] Hint Resolve only_detach : only.

Lemma only_appendChild p d : pres hostOnly (appendChild p d).
Proof. unfold appendChild. only_tac. Qed.

Lemma only_removeChild p d : pres hostOnly (removeChild p d).
Proof. unfold removeChild. only_tac. Qed.

Lemma only_updateDom d prev next : pres hostOnly (updateDom d prev next).
Proof.
  unfold updateDom, setProperty, addEventListener, removeEventListener,
    eventTypeOf.
  only_tac.
Qed.

#[local] Hint Resolve only_appendChild only_removeChild only_updateDom : only.

Lemma only_commitDeletion fuel : forall x domParent,
  pres hostOnly (commitDeletion fuel x domParent).
Proof.
  induction fuel as [|n IH]; intros x domParent; cbn [commitDeletion].
  - apply pres_abort.
  - only_tac.
Qed.

Lemma only_domParentOf fuel : forall x, pres hostOnly (domParentOf fuel x).
Proof.
  induction fuel as [|n IH]; intros x; cbn [domParentOf].
  - apply pres_abort.
  - only_tac.
Qed.

#[local] Hint Resolve only_commitDeletion only_domParentOf : only.

Lemma only_commitWork fuel : forall x, pres hostOnly (commitWork fuel x).
Proof.
  induction fuel as [|n IH]; intros x; cbn [commitWork].
  - apply pres_abort.
  - only_tac.
Qed.

#[local] Hint Resolve only_commitWork : only.

Lemma throw_bind_only {A B} (c : M A) (k : A -> M B) :
  pres hostOnly c ->
  (forall a m m', k a m = Throw m' -> hostOnly m m') ->
  forall m m', bind c k m = Throw m' -> hostOnly m m'.
Proof.
  intros Hc Hk m m'. unfold bind. destruct (c m) as [a m1|m1|] eqn:E; intros H.
  - apply hostOnly_trans with m1.
    + apply (Hc m m1). rewrite E. reflexivity.
    + apply (Hk a). exact H.
  - injection H as ->. apply (Hc m m'). rewrite E. reflexivity.
  - discriminate H.
Qed.

(** ** commitRoot *)

Lemma commitRoot_globals fuel m m' :
  commitRoot fuel m = Ok tt m' ->
  currentRoot m' = wipRoot m /\ wipRoot m' = None /\ deletions m' = deletions m.
Proof.
  unfold commitRoot. intros H. ok_inv.
  match goal with
  | E1 : forEach _ _ _ = Ok _ _, E2 : commitWork _ _ _ = Ok _ _ |- _ =>
      apply keeps_forEach in E1; [|intros ?; apply keeps_commitWork];
      apply keeps_commitWork in E2;
      destruct E1 as (?&?&?&?&?&?&?&?), E2 as (?&?&?&?&?&?&?&?)
  end.
  simpl. repeat split; congruence.
Qed.

(** [commitRoot] after its two passes: once the commit of the pending
    deletions and of the units under the root has returned, [commitRoot]
    promotes [wipRoot] and clears it. *)
Lemma commitRoot_after_passes fuel m w root ds m2 :
  wipRoot m = Some w -> fibers m !! w = Some root -> deletions m = Some ds ->
  (forEach ds (fun r => commitWork fuel (Some r)) ;;;
   commitWork fuel (child root)) m = Ok tt m2 ->
  commitRoot fuel m = Ok tt (withWipRoot None (withCurrentRoot (Some w) m2)).
Proof.
  intros Hw Hroot Hds H. apply bind_Ok in H. destruct H as ([] & m1 & Hdel & Hwork).
  assert (H1 : hostOnly m m1).
  { apply keeps_forEach in Hdel; [exact Hdel|intros ?; apply keeps_commitWork]. }
  assert (H2 : hostOnly m1 m2) by (apply keeps_commitWork in Hwork; exact Hwork).
  destruct H1 as (Hf1 & _ & _ & _ & Hw1 & _), H2 as (_ & _ & _ & _ & Hw2 & _).
  unfold commitRoot.
  rewrite (bind_eq _ _ _ _ _ (eq_refl : gets deletions m = Ok _ m)).
  rewrite Hds.
  rewrite (bind_eq _ _ _ _ _ (eq_refl : deref (Some ds) m = Ok ds m)).
  rewrite (bind_eq _ _ _ _ _ Hdel).
  rewrite (bind_eq _ _ _ _ _ (eq_refl : gets wipRoot m1 = Ok _ m1)).
  rewrite Hw1, Hw.
  rewrite (bind_eq _ _ _ _ _ (eq_refl : deref (Some w) m1 = Ok w m1)).
  assert (Hroot1 : fibers m1 !! w = Some root) by (rewrite Hf1; exact Hroot).
  rewrite (bind_eq _ _ _ _ _ (getFiber_eq _ _ _ Hroot1)).
  rewrite (bind_eq _ _ _ _ _ Hwork).
  rewrite (bind_eq _ _ _ _ _ (eq_refl : gets wipRoot m2 = Ok _ m2)).
  rewrite Hw2, Hw1, Hw. reflexivity.
Qed.

(** C3 (as amended).  [commitRoot] completes only from a state that has a
    [wipRoot] and a pending-deletions collection; when it completes,
    [currentRoot] is the previous [wipRoot] and [wipRoot] is cleared; the
    pending-deletions collection is left as it was (it is only replaced by
    [render] and by the update capability). *)
Theorem commitRoot_promotes fuel m m' :
  commitRoot fuel m = Ok tt m' ->
  exists w ds,
    wipRoot m = Some w /\ deletions m = Some ds /\
    currentRoot m' = Some w /\ wipRoot m' = None /\ deletions m' = Some ds.
Proof.
  intros H. destruct (commitRoot_globals fuel m m' H) as (Hcur & Hwip & Hdel).
  unfold commitRoot in H. apply bind_Ok in H. destruct H as (ds0 & m0 & E0 & H).
  inversion E0; subst. clear E0.
  destruct (deletions m0) as [ds|] eqn:Hds; [|discriminate H].
  destruct (wipRoot m0) as [w|] eqn:Hw.
  - exists w, ds. repeat split; congruence.
  - exfalso. unfold deref at 1, ret at 1 in H. unfold bind at 1 in H.
    apply bind_Ok in H. destruct H as (u & m1 & E1 & H).
    apply keeps_forEach in E1; [|intros ?; apply keeps_commitWork].
    destruct E1 as (_ & _ & _ & _ & Hw1 & _).
    unfold bind, gets in H. rewrite Hw1, Hw in H. discriminate H.
Qed.

Lemma commitRoot_promotes_witness :
  let m := after (appReplacedWalked (initial demoPage)) in
  let m' := after (commitRoot 20 m) in
  exists w ds,
    wipRoot m = Some w /\ deletions m = Some ds /\
    currentRoot m' = Some w /\ wipRoot m' = None /\ deletions m' = Some ds.
Proof.
  intros m m'. apply (commitRoot_promotes 20 m m'). vm_compute. reflexivity.
Defined.

(** C3 as stated fails: after the commit of the generation that replaces
    [<App/>] by [<p/>], the pending-deletions collection still holds the
    deleted unit. *)
Lemma commitRoot_deletions_not_cleared :
  let m := after (appReplacedWalked (initial demoPage)) in
  exists m', commitRoot 20 m = Ok tt m' /\
             currentRoot m' = wipRoot m /\ wipRoot m' = None /\
             deletions m' = Some [1] /\ deletions m' <> Some [].
Proof.
  intros m. eexists. split; [vm_compute; reflexivity|].
  split; [vm_compute; reflexivity|]. split; [vm_compute; reflexivity|].
  split; [vm_compute; reflexivity|]. vm_compute. discriminate.
Qed.

(** ** updateDom *)

Lemma substringFrom_toLowerCase n : forall s,
  substringFrom n (toLowerCase s) = toLowerCase (substringFrom n s).
Proof.
  induction n as [|n IH]; intros s.
  - destruct s; reflexivity.
  - destruct s as [|c s]; simpl; [reflexivity | apply IH].
Qed.

Lemma plookup_In key : forall p, In key (keys p) <-> plookup p key <> None.
Proof.
  induction p as [|[k v] p IH]; simpl.
  - split; [tauto | congruence].
  - destruct (String.eqb_spec k key) as [->|Hne].
    + split; [congruence | auto].
    + rewrite <- IH. split; [intros [?|?]; [contradiction | assumption] | auto].
Qed.

Lemma pin_own key p : In key (keys p) -> pin key p = true.
Proof.
  intros H. apply plookup_In in H. unfold pin.
  destruct (plookup p key); [reflexivity|congruence].
Qed.

Lemma called_then_updNode d call g :
  plainCall d (called call ;;; updNode d g) call.
Proof.
  intros m Hd. unfold bind, called, modify, updNode, withHostCalls. simpl.
  destruct (lookup_lt_is_Some_2 (document m) d Hd) as [x Hx].
  rewrite Hx. eexists. split; [reflexivity|]. simpl.
  split; [reflexivity | apply length_insert].
Qed.

Lemma plain_setProperty d name v :
  plainCall d (setProperty d name v) (SetProperty d name v).
Proof. apply called_then_updNode. Qed.

Lemma eventTypeOf_ascii name m :
  ascii7 name = true -> eventTypeOf name m = Ok (eventName name) m.
Proof. intros H. unfold eventTypeOf. rewrite H. reflexivity. Qed.

Lemma plain_addEventListener d name h :
  ascii7 name = true -> isListenerValue h = true ->
  plainCall d (let! ev := eventTypeOf name in addEventListener d ev h)
            (AddEventListener d (eventName name) h).
Proof.
  intros Ha Hh m Hd. rewrite (bind_eq _ _ _ _ _ (eventTypeOf_ascii name m Ha)).
  unfold addEventListener. rewrite Hh. apply called_then_updNode. exact Hd.
Qed.

Lemma plain_removeEventListener d name h :
  ascii7 name = true -> isListenerValue h = true ->
  plainCall d (let! ev := eventTypeOf name in removeEventListener d ev h)
            (RemoveEventListener d (eventName name) h).
Proof.
  intros Ha Hh m Hd. rewrite (bind_eq _ _ _ _ _ (eventTypeOf_ascii name m Ha)).
  unfold removeEventListener. rewrite Hh. apply called_then_updNode. exact Hd.
Qed.

Lemma forEach_plainCalls {A} d (f : A -> M unit) (g : A -> hostCall) xs :
  (forall x, In x xs -> plainCall d (f x) (g x)) ->
  forall m, d < length (document m) ->
    exists m', forEach xs f m = Ok tt m' /\
               hostCalls m' = hostCalls m ++ map g xs /\
               length (document m') = length (document m).
Proof.
  induction xs as [|x xs IH]; intros Hf m Hd; simpl.
  - exists m. rewrite app_nil_r. auto.
  - destruct (Hf x (or_introl eq_refl) m Hd) as (m1 & E1 & C1 & L1).
    destruct (IH (fun y Hy => Hf y (or_intror Hy)) m1 ltac:(lia))
      as (m2 & E2 & C2 & L2).
    exists m2. rewrite (bind_eq _ _ _ _ _ E1). split; [exact E2|].
    rewrite C2, C1, <- app_assoc. simpl. split; [reflexivity | lia].
Qed.

Lemma updateDom_calls d prevProps nextProps m :
  d < length (document m) ->
  asciiListenerKeys prevProps -> asciiListenerKeys nextProps ->
  objectListeners prevProps -> objectListeners nextProps ->
  exists m', updateDom d prevProps nextProps m = Ok tt m' /\
             hostCalls m' = hostCalls m ++ updateDomCalls d prevProps nextProps /\
             length (document m') = length (document m).
Proof.
  intros Hd HaP HaN HoP HoN.
  unfold updateDom, updateDomCalls.
  edestruct (forEach_plainCalls d
               (fun name => let! ev := eventTypeOf name in
                            removeEventListener d ev (pget prevProps name))
               (fun name => RemoveEventListener d (substringFrom 2 (toLowerCase name))
                                                (pget prevProps name)))
    as (m1 & E1 & C1 & L1);
    [ | exact Hd | rewrite (bind_eq _ _ _ _ _ E1)].
  { intros x Hx. apply filter_In in Hx as [Hx _]. apply filter_In in Hx as [Hx He].
    apply plain_removeEventListener; [apply HaP|apply HoP]; assumption. }
  rewrite <- L1 in Hd.
  edestruct (forEach_plainCalls d (fun name => setProperty d name (VStr ""))
               (fun name => SetProperty d name (VStr "")))
    as (m2 & E2 & C2 & L2);
    [ | exact Hd | rewrite (bind_eq _ _ _ _ _ E2)].
  { intros x _. apply plain_setProperty. }
  rewrite <- L2 in Hd.
  edestruct (forEach_plainCalls d
               (fun name => setProperty d name (pget nextProps name))
               (fun name => SetProperty d name (pget nextProps name)))
    as (m3 & E3 & C3 & L3);
    [ | exact Hd | rewrite (bind_eq _ _ _ _ _ E3)].
  { intros x _. apply plain_setProperty. }
  rewrite <- L3 in Hd.
  edestruct (forEach_plainCalls d
               (fun name => let! ev := eventTypeOf name in
                            addEventListener d ev (pget nextProps name))
               (fun name => AddEventListener d (substringFrom 2 (toLowerCase name))
                                             (pget nextProps name))
               (List.filter (isNew prevProps nextProps)
                  (List.filter isEvent (keys nextProps))))
    as (m4 & E4 & C4 & L4);
    [ | exact Hd | ].
  { intros x Hx. apply filter_In in Hx as [Hx _]. apply filter_In in Hx as [Hx He].
    apply plain_addEventListener; [apply HaN|apply HoN]; assumption. }
  exists m4. split; [exact E4|]. split; [|lia].
  rewrite C4, C3, C2, C1. rewrite <- !app_assoc. reflexivity.
Qed.

(** The calls made however the computation ends. *)
Lemma callsOf_ret : callsOf (ret tt) [].
Proof. intros m. simpl. symmetry. apply app_nil_r. Qed.

Lemma callsOf_seq (c1 c2 : M unit) L1 L2 :
  callsOf c1 L1 -> callsOf c2 L2 -> callsOf (c1 ;;; c2) (L1 ++ L2).
Proof.
  intros H1 H2 m. specialize (H1 m). unfold bind.
  destruct (c1 m) as [a m1|m1|]; [| |exact I].
  - specialize (H2 m1). destruct (c2 m1) as [b m2|m2|]; [| |exact I].
    + rewrite H2, H1, app_assoc. reflexivity.
    + destruct H2 as [j H2]. exists (length L1 + j).
      rewrite H2, H1, take_app_add, app_assoc. reflexivity.
  - destruct H1 as [j H1]. exists (min j (length L1)).
    rewrite H1. f_equal.
    rewrite take_app_le by lia.
    destruct (Nat.le_gt_cases j (length L1)) as [Hle|Hgt].
    + rewrite Nat.min_l by exact Hle. reflexivity.
    + rewrite Nat.min_r by lia. rewrite !take_ge by lia. reflexivity.
Qed.

Lemma callsOf_forEach {A} (f : A -> M unit) (g : A -> hostCall) :
  (forall x, callsOf (f x) [g x]) ->
  forall xs, callsOf (forEach xs f) (map g xs).
Proof.
  intros Hf. induction xs as [|x xs IH]; cbn [forEach map].
  - apply callsOf_ret.
  - apply (callsOf_seq _ _ [g x] (map g xs)); [apply Hf | exact IH].
Qed.

Lemma callsOf_called_then call (c : M unit) :
  (forall m, match c m with
             | Ok _ m' | Throw m' => hostCalls m' = hostCalls m
             | Abort => True
             end) ->
  callsOf (called call ;;; c) [call].
Proof.
  intros Hc m. unfold bind, called, modify.
  specialize (Hc (withHostCalls (hostCalls m ++ [call]) m)).
  destruct (c _) as [a m'|m'|]; [exact Hc| |exact I].
  exists 1. rewrite Hc. reflexivity.
Qed.

Lemma updNode_calls d g m :
  match updNode d g m with
  | Ok _ m' | Throw m' => hostCalls m' = hostCalls m
  | Abort => True
  end.
Proof. unfold updNode. destruct (document m !! d); reflexivity. Qed.

Lemma callsOf_setProperty d name v :
  callsOf (setProperty d name v) [SetProperty d name v].
Proof. apply callsOf_called_then. intros m. apply updNode_calls. Qed.

Lemma callsOf_addEventListener d name h :
  callsOf (let! ev := eventTypeOf name in addEventListener d ev h)
          [AddEventListener d (eventName name) h].
Proof.
  intros m. unfold bind at 1. unfold eventTypeOf.
  destruct (ascii7 name); [|exact I]. cbn [ret].
  revert m. apply callsOf_called_then. intros m.
  destruct (isListenerValue h); [apply updNode_calls|reflexivity].
Qed.

Lemma callsOf_removeEventListener d name h :
  callsOf (let! ev := eventTypeOf name in removeEventListener d ev h)
          [RemoveEventListener d (eventName name) h].
Proof.
  intros m. unfold bind at 1. unfold eventTypeOf.
  destruct (ascii7 name); [|exact I]. cbn [ret].
  revert m. apply callsOf_called_then. intros m.
  destruct (isListenerValue h); [apply updNode_calls|reflexivity].
Qed.

Lemma updateDom_callsOf d P N : callsOf (updateDom d P N) (updateDomCalls d P N).
Proof.
  unfold updateDom, updateDomCalls.
  apply callsOf_seq.
  { apply (callsOf_forEach _ (fun name => RemoveEventListener d (eventName name)
                                             (pget P name))).
    intros x. apply callsOf_removeEventListener. }
  apply callsOf_seq.
  { apply (callsOf_forEach _ (fun name => SetProperty d name (VStr ""))).
    intros x. apply callsOf_setProperty. }
  apply callsOf_seq.
  { apply (callsOf_forEach _ (fun name => SetProperty d name (pget N name))).
    intros x. apply callsOf_setProperty. }
  apply (callsOf_forEach _ (fun name => AddEventListener d (eventName name)
                                          (pget N name))).
  intros x. apply callsOf_addEventListener.
Qed.

Lemma isProperty_plainKey key : isProperty key = true <-> plainKey key.
Proof.
  unfold isProperty, plainKey. rewrite andb_true_iff, !negb_true_iff.
  destruct (String.eqb_spec key "children"); split; intros [? ?]; split;
    congruence.
Qed.

Lemma isNew_differs P N key : isNew P N key = true <-> differs P N key.
Proof. unfold isNew, differs. apply negb_true_iff. Qed.

Lemma gone_or_new P N key :
  negb (pin key N) || isNew P N key = true <->
  pin key N = false \/ differs P N key.
Proof. rewrite orb_true_iff, isNew_differs, negb_true_iff. reflexivity. Qed.




(** ** The update capability *)

(** What one call of the update capability does when a generation has been
    committed. *)
Lemma setState_run h action m x c cf :
  hookStore m !! h = Some x ->
  currentRoot m = Some c ->
  fibers m !! c = Some cf ->
  setState h action m =
  Ok tt (Machine
           (fibers m ++ [Fiber None (props cf) (dom cf) None None None (Some c)
                               None None])
           (<[h := Hook (state x) (queue x ++ [action])]> (hookStore m))
           (document m) (hostCalls m)
           (Some (length (fibers m))) (currentRoot m)
           (Some (length (fibers m))) (Some []) (wipFiber m) (hookIndex m)).
Proof.
  intros Hh Hc Hcf. unfold setState.
  rewrite (bind_eq _ _ _ _ _ (updHook_eq h _ m x Hh)).
  unfold bind, gets, deref, getFiber, newFiber, modify, ret; unfold_with; simpl.
  rewrite Hc. simpl. rewrite Hcf. reflexivity.
Qed.

(** C9.  Invoking the update capability of hook [h] with an update function
    appends the function to the queue of [h], creates a brand-new root unit with
    [dom] and [props] of [currentRoot] and [alternate] set to [currentRoot],
    makes it [wipRoot] and [nextUnitOfWork], and resets the pending deletions
    to the empty collection; every invocation does so, whatever was scheduled
    before. *)
Theorem setState_schedules h action m x c cf :
  hookStore m !! h = Some x ->
  currentRoot m = Some c ->
  fibers m !! c = Some cf ->
  exists m',
    setState h action m = Ok tt m' /\
    hookStore m' !! h = Some (Hook (state x) (queue x ++ [action])) /\
    fibers m !! length (fibers m) = None /\
    fibers m' =
      fibers m ++ [Fiber None (props cf) (dom cf) None None None (Some c) None None] /\
    wipRoot m' = Some (length (fibers m)) /\
    nextUnitOfWork m' = Some (length (fibers m)) /\
    deletions m' = Some [] /\
    currentRoot m' = currentRoot m.
Proof.
  intros Hh Hc Hcf. eexists. split; [apply (setState_run _ _ _ _ _ _ Hh Hc Hcf)|].
  simpl. split.
  - apply list_lookup_insert_eq. apply lookup_lt_is_Some. eauto.
  - split; [apply lookup_ge_None; lia|]. repeat split.
Qed.

Lemma setState_schedules_witness :
  let m := after (counterCommitted (initial demoPage)) in
  let root := Fiber None [("children", VElems [Some (createElement (TFun 1) [] [])])]
                    (Some 0) None (Some 1) None None None None in
  (hookStore m !! 0 = Some (Hook (VNum 1) []) /\ currentRoot m = Some 0 /\
   fibers m !! 0 = Some root) /\
  exists m',
    setState 0 increment m = Ok tt m' /\
    hookStore m' !! 0 = Some (Hook (VNum 1) [increment]) /\
    fibers m !! length (fibers m) = None /\
    fibers m' =
      fibers m ++ [Fiber None (props root) (dom root) None None None (Some 0)
                         None None] /\
    wipRoot m' = Some (length (fibers m)) /\
    nextUnitOfWork m' = Some (length (fibers m)) /\
    deletions m' = Some [] /\
    currentRoot m' = currentRoot m.
Proof.
  intros m root.
  assert (H1 : hookStore m !! 0 = Some (Hook (VNum 1) [])) by reflexivity.
  assert (H2 : currentRoot m = Some 0) by reflexivity.
  assert (H3 : fibers m !! 0 = Some root) by reflexivity.
  split; [auto|].
  exact (setState_schedules 0 increment m _ 0 root H1 H2 H3).
Defined.

(** C10.  With no committed generation ([currentRoot] is [null]) the update
    capability throws: the update function has been pushed on the queue, but no
    root is built and nothing is scheduled.  So a call that ends normally had a
    committed generation. *)
Theorem setState_needs_currentRoot h action m :
  (forall x, hookStore m !! h = Some x -> currentRoot m = None ->
     exists m', setState h action m = Throw m' /\
                hookStore m' !! h = Some (Hook (state x) (queue x ++ [action])) /\
                fibers m' = fibers m /\ wipRoot m' = wipRoot m /\
                nextUnitOfWork m' = nextUnitOfWork m /\
                deletions m' = deletions m) /\
  (forall m', setState h action m = Ok tt m' -> exists c, currentRoot m = Some c).
Proof.
  split.
  - intros x Hh Hc. unfold setState.
    rewrite (bind_eq _ _ _ _ _ (updHook_eq h _ m x Hh)).
    unfold bind, gets, deref, throw; unfold_with; simpl. rewrite Hc. eexists.
    split; [reflexivity|]. simpl. split; [|repeat split].
    apply list_lookup_insert_eq. apply lookup_lt_is_Some. eauto.
  - intros m' H. unfold setState in H. ok_inv.
    match goal with
    | E : updHook _ _ _ = Ok _ _ |- _ =>
        unfold updHook in E; destruct (hookStore m !! h); inversion E; subst
    end.
    simpl in *. eauto.
Qed.

Lemma setState_needs_currentRoot_witness :
  let m := after (counterHalfWalked (initial demoPage)) in
  (hookStore m !! 0 = Some (Hook (VNum 1) []) /\ currentRoot m = None) /\
  exists m', setState 0 increment m = Throw m' /\
             hookStore m' !! 0 = Some (Hook (VNum 1) [increment]) /\
             fibers m' = fibers m /\ wipRoot m' = wipRoot m /\
             nextUnitOfWork m' = nextUnitOfWork m /\
             deletions m' = deletions m.
Proof.
  intros m.
  assert (H1 : hookStore m !! 0 = Some (Hook (VNum 1) [])) by reflexivity.
  assert (H2 : currentRoot m = None) by reflexivity.
  split; [auto|].
  exact (proj1 (setState_needs_currentRoot 0 increment m) _ H1 H2).
Defined.

(** ** useState *)

Lemma applyAll_app fs gs v : applyAll (fs ++ gs) v = applyAll gs (applyAll fs v).
Proof. apply fold_left_app. Qed.

Lemma withHookStore_id m : withHookStore (hookStore m) m = m.
Proof. destruct m; reflexivity. Qed.

Lemma replay_run : forall actions h m x,
  hookStore m !! h = Some x ->
  forEach actions
    (fun action => updHook h (fun hk => Hook (action (state hk)) (queue hk))) m =
  Ok tt (withHookStore
           (<[h := Hook (applyAll actions (state x)) (queue x)]> (hookStore m)) m).
Proof.
  induction actions as [|a actions IH]; intros h m x Hx; simpl.
  - destruct x as [s q]. simpl. rewrite (list_insert_id _ _ _ Hx).
    rewrite withHookStore_id. reflexivity.
  - rewrite (bind_eq _ _ _ _ _ (updHook_eq h _ m x Hx)).
    rewrite (IH h _ (Hook (a (state x)) (queue x))).
    + unfold withHookStore; simpl. rewrite list_insert_insert_eq. reflexivity.
    + simpl. apply list_lookup_insert_eq. eapply lookup_lt_Some; eauto.
Qed.

Lemma useState_old initial m w wf hs o old :
  wipFiber m = Some w ->
  fibers m !! w = Some wf ->
  hooks wf = Some hs ->
  oldHookOf (fibers m) wf (hookIndex m) = Some o ->
  hookStore m !! o = Some old ->
  useState initial m =
  Ok (applyAll (queue old) (state old), length (hookStore m))
     (Machine (<[w := setHooks (Some (hs ++ [length (hookStore m)])) wf]> (fibers m))
              (hookStore m ++ [Hook (applyAll (queue old) (state old)) []])
              (document m) (hostCalls m) (nextUnitOfWork m) (currentRoot m)
              (wipRoot m) (deletions m) (wipFiber m)
              (Some (match hookIndex m with Some i => S i | None => 1 end))).
Proof.
  intros Hw Hwf Hhs Ho Hold. unfold useState.
  unfold bind at 1. unfold gets at 1. rewrite Hw.
  unfold bind at 1. unfold deref at 1, ret at 1.
  rewrite (bind_eq _ _ _ _ _ (getFiber_eq _ _ _ Hwf)).
  unfold bind at 1. unfold gets at 1.
  unfold bind at 1. unfold gets at 1.
  rewrite Ho.
  unfold bind at 1. rewrite (bind_eq _ _ _ _ _ (getHook_eq _ _ _ Hold)).
  unfold ret at 1.
  unfold bind at 1. unfold newHook at 1.
  unfold bind at 1.
  rewrite (replay_run _ _ _ (Hook (state old) [])).
  2:{ unfold withHookStore; simpl. apply list_lookup_middle. reflexivity. }
  unfold withHookStore; simpl.
  replace (<[length (hookStore m) := Hook (applyAll (queue old) (state old)) []]>
             (hookStore m ++ [Hook (state old) []]))
    with (hookStore m ++ [Hook (applyAll (queue old) (state old)) []])
    by (rewrite insert_app_r_alt, Nat.sub_diag by lia; reflexivity).
  unfold bind, getFiber, deref, updFiber, modify, getHook, ret; unfold_with; simpl.
  rewrite Hwf, Hhs. simpl. rewrite Hwf. simpl.
  rewrite list_lookup_middle by reflexivity. simpl. rewrite ?Hw. reflexivity.
Qed.

Lemma useState_fresh initial m w wf hs :
  wipFiber m = Some w ->
  fibers m !! w = Some wf ->
  hooks wf = Some hs ->
  oldHookOf (fibers m) wf (hookIndex m) = None ->
  useState initial m =
  Ok (initial, length (hookStore m))
     (Machine (<[w := setHooks (Some (hs ++ [length (hookStore m)])) wf]> (fibers m))
              (hookStore m ++ [Hook initial []])
              (document m) (hostCalls m) (nextUnitOfWork m) (currentRoot m)
              (wipRoot m) (deletions m) (wipFiber m)
              (Some (match hookIndex m with Some i => S i | None => 1 end))).
Proof.
  intros Hw Hwf Hhs Ho. unfold useState.
  unfold bind at 1. unfold gets at 1. rewrite Hw.
  unfold bind at 1. unfold deref at 1, ret at 1.
  rewrite (bind_eq _ _ _ _ _ (getFiber_eq _ _ _ Hwf)).
  unfold bind at 1. unfold gets at 1.
  unfold bind at 1. unfold gets at 1.
  rewrite Ho.
  unfold bind, getFiber, deref, updFiber, modify, getHook, newHook, ret; unfold_with;
    simpl.
  rewrite Hwf, Hhs. simpl. rewrite Hwf. simpl.
  rewrite list_lookup_middle by reflexivity. simpl. rewrite ?Hw. reflexivity.
Qed.

(** [N] invocations of the update capability of one hook queue their functions
    in invocation order. *)
Lemma setState_all : forall fs h m x c cf,
  hookStore m !! h = Some x ->
  currentRoot m = Some c ->
  fibers m !! c = Some cf ->
  exists m', forEach fs (setState h) m = Ok tt m' /\
             hookStore m' !! h = Some (Hook (state x) (queue x ++ fs)).
Proof.
  induction fs as [|f fs IH]; intros h m x c cf Hh Hc Hcf; simpl.
  - exists m. rewrite app_nil_r. destruct x; auto.
  - rewrite (bind_eq _ _ _ _ _ (setState_run h f m x c cf Hh Hc Hcf)).
    edestruct (IH h) as (m' & E & Hq); [| | | exists m'; split; [exact E|]].
    + simpl. apply list_lookup_insert_eq. eapply lookup_lt_Some; eauto.
    + simpl. exact Hc.
    + simpl. apply lookup_app_l_Some. exact Hcf.
    + rewrite Hq. simpl. rewrite <- app_assoc. reflexivity.
Qed.

(** C2.  When [useState] runs for a hook slot whose previous incarnation has a
    hook, the new hook's state (and the value returned) is the old hook's
    state with every update function of the old hook's queue applied in queue
    order; with no previous hook it is the initial value given.  And after [N]
    invocations of the update capability of a hook with [f1..fN], the next
    [useState] for that slot yields [fN (... (f1 s))], [s] being what the hook
    held (its state, after the updates already queued). *)
Theorem useState_replays :
  (forall initial m w wf hs o old,
      wipFiber m = Some w -> fibers m !! w = Some wf -> hooks wf = Some hs ->
      oldHookOf (fibers m) wf (hookIndex m) = Some o ->
      hookStore m !! o = Some old ->
      exists m',
        useState initial m =
          Ok (applyAll (queue old) (state old), length (hookStore m)) m' /\
        hookStore m' !! length (hookStore m) =
          Some (Hook (applyAll (queue old) (state old)) [])) /\
  (forall initial m w wf hs,
      wipFiber m = Some w -> fibers m !! w = Some wf -> hooks wf = Some hs ->
      oldHookOf (fibers m) wf (hookIndex m) = None ->
      exists m',
        useState initial m = Ok (initial, length (hookStore m)) m' /\
        hookStore m' !! length (hookStore m) = Some (Hook initial [])) /\
  (forall fs h m x c cf,
      hookStore m !! h = Some x -> currentRoot m = Some c ->
      fibers m !! c = Some cf ->
      exists m1,
        forEach fs (setState h) m = Ok tt m1 /\
        forall initial m2 w wf hs,
          hookStore m2 !! h = hookStore m1 !! h ->
          wipFiber m2 = Some w -> fibers m2 !! w = Some wf ->
          hooks wf = Some hs ->
          oldHookOf (fibers m2) wf (hookIndex m2) = Some h ->
          exists m3,
            useState initial m2 =
              Ok (applyAll fs (applyAll (queue x) (state x)),
                  length (hookStore m2)) m3 /\
            hookStore m3 !! length (hookStore m2) =
              Some (Hook (applyAll fs (applyAll (queue x) (state x))) [])).
Proof.
  split; [|split].
  - intros initial m w wf hs o old Hw Hwf Hhs Ho Hold. eexists.
    split; [apply (useState_old _ _ _ _ _ _ _ Hw Hwf Hhs Ho Hold)|].
    simpl. apply list_lookup_middle. reflexivity.
  - intros initial m w wf hs Hw Hwf Hhs Ho. eexists.
    split; [apply (useState_fresh _ _ _ _ _ Hw Hwf Hhs Ho)|].
    simpl. apply list_lookup_middle. reflexivity.
  - intros fs h m x c cf Hh Hc Hcf.
    destruct (setState_all fs h m x c cf Hh Hc Hcf) as (m1 & E & Hq).
    exists m1. split; [exact E|].
    intros initial m2 w wf hs Hsame Hw Hwf Hhs Ho. rewrite Hq in Hsame.
    eexists.
    split; [rewrite (useState_old _ _ _ _ _ _ _ Hw Hwf Hhs Ho Hsame)|].
    + cbn [state queue]. rewrite applyAll_app. reflexivity.
    + cbn [state queue hookStore]. apply list_lookup_middle. reflexivity.
Qed.

Lemma useState_replays_witness :
  let m := after (counterCommitted (initial demoPage)) in
  let m2 := after (counterEntered (initial demoPage)) in
  exists m3, useState (VNum 1) m2 = Ok (VNum 3, 1) m3 /\
             hookStore m3 !! 1 = Some (Hook (VNum 3) []).
Proof.
  intros m m2.
  pose (root := Fiber None [("children", VElems [Some (createElement (TFun 1) [] [])])]
                      (Some 0) None (Some 1) None None None None).
  pose (unit := Fiber (Some (TFun 1)) [("children", VElems [])] None (Some 6)
                      None None (Some 1) (Some UPDATE) (Some [])).
  assert (H1 : hookStore m !! 0 = Some (Hook (VNum 1) [])) by (vm_compute; reflexivity).
  assert (H2 : currentRoot m = Some 0) by (vm_compute; reflexivity).
  assert (H3 : fibers m !! 0 = Some root) by (vm_compute; reflexivity).
  destruct (proj2 (proj2 useState_replays) [increment; increment] 0 m _ 0 root
              H1 H2 H3) as (m1 & E & Hnext).
  assert (Hm1 : m1 = after (forEach [increment; increment] (setState 0) m)).
  { rewrite E. reflexivity. }
  assert (Hs : hookStore m2 !! 0 = hookStore m1 !! 0).
  { rewrite Hm1. vm_compute. reflexivity. }
  assert (H4 : wipFiber m2 = Some 7) by (vm_compute; reflexivity).
  assert (H5 : fibers m2 !! 7 = Some unit) by (vm_compute; reflexivity).
  assert (H6 : hooks unit = Some []) by reflexivity.
  assert (H7 : oldHookOf (fibers m2) unit (hookIndex m2) = Some 0)
    by (vm_compute; reflexivity).
  destruct (Hnext (VNum 1) m2 7 unit [] Hs H4 H5 H6 H7) as (m3 & E3 & H3').
  exists m3. split; [exact E3 | exact H3'].
Defined.

(** ** The walk: the next unit of work *)

Section Walk.

Variable components : nat -> component.

Lemma nextFiberLoop_nextUp fuel : forall x m n m',
  nextFiberLoop fuel x m = Ok n m' -> m' = m /\ nextUp (fibers m) x n.
Proof.
  induction fuel as [|k IH]; intros x m n m' H; simpl in H; [discriminate|].
  destruct x as [r|].
  - ok_inv. destruct (sibling a) as [s|] eqn:Hs.
    + ok_inv. split; [reflexivity|]. eapply nextUp_sibling; eauto.
    + apply IH in H. destruct H as [-> H]. split; [reflexivity|].
      eapply nextUp_parent; eauto.
  - ok_inv. split; [reflexivity | constructor].
Qed.

Lemma nextFiberLoop_total m : forall x path,
  ancestors (fibers m) x path ->
  forall fuel, length path < fuel ->
  exists n, nextFiberLoop fuel x m = Ok n m.
Proof.
  induction 1 as [|r f path Hr Hp IH]; intros fuel Hfuel;
    (destruct fuel as [|k]; [simpl in Hfuel; lia|]); simpl.
  - eexists. reflexivity.
  - rewrite (bind_eq _ _ _ _ _ (getFiber_eq _ _ _ Hr)).
    destruct (sibling f) as [s|].
    + eexists. reflexivity.
    + apply IH. simpl in Hfuel. lia.
Qed.


End Walk.


(** ** reconcileChildren *)

Lemma insert_alter_lookup {A} (g : A -> A) (l : list A) i x :
  l !! i = Some x -> <[i := g x]> l = alter g i l.
Proof.
  intros H. rewrite list_insert_alter. apply list_alter_ext; [|reflexivity].
  intros y Hy. congruence.
Qed.

Lemma updFiber_alter r g m f :
  fibers m !! r = Some f ->
  updFiber r g m = Ok tt (withFibers (alter g r (fibers m)) m).
Proof.
  intros H. rewrite (updFiber_eq _ _ _ _ H), (insert_alter_lookup _ _ _ _ H).
  reflexivity.
Qed.

Lemma createUnit_update p x f e m :
  sameTypeOf (Some f) (Some e) = true ->
  createUnit p x (Some f) (Some e) m =
  Ok (Some (length (fibers m)))
     (withFibers (fibers m ++ [updateUnit p x f e]) m).
Proof. intros H. unfold createUnit. rewrite H. reflexivity. Qed.

Lemma createUnit_placement p x old e m :
  sameTypeOf old (Some e) = false ->
  createUnit p x old (Some e) m =
  Ok (Some (length (fibers m)))
     (withFibers (fibers m ++ [placementUnit p e]) m).
Proof.
  intros H. unfold createUnit. rewrite H. destruct old; reflexivity.
Qed.

Lemma createUnit_none p x old m : createUnit p x old None m = Ok None m.
Proof. unfold createUnit. destruct old; reflexivity. Qed.

Lemma markDeletion_run o f ds m :
  fibers m !! o = Some f ->
  deletions m = Some ds ->
  markDeletion (Some o) false m =
  Ok tt (withDeletions (Some (ds ++ [o]))
           (withFibers (alter (setEffectTag (Some DELETION)) o (fibers m)) m)).
Proof.
  intros Hf Hds. unfold markDeletion. simpl.
  rewrite (bind_eq _ _ _ _ _ (updFiber_alter _ _ _ _ Hf)).
  unfold bind, gets, deref, modify, ret; unfold_with; simpl.
  rewrite Hds. reflexivity.
Qed.

Lemma advanceOld_run o f m :
  fibers m !! o = Some f -> advanceOld (Some o) m = Ok (sibling f) m.
Proof.
  intros Hf. unfold advanceOld.
  rewrite (bind_eq _ _ _ _ _ (getFiber_eq _ _ _ Hf)). reflexivity.
Qed.

Lemma linkUnit_first p element prev new m f :
  fibers m !! p = Some f ->
  linkUnit p 0 element prev new m =
  Ok tt (withFibers (alter (setChild new) p (fibers m)) m).
Proof. intros Hf. unfold linkUnit. simpl. apply (updFiber_alter _ _ _ _ Hf). Qed.

Lemma linkUnit_next p i e pr new m f :
  fibers m !! pr = Some f ->
  linkUnit p (S i) (Some e) (Some pr) new m =
  Ok tt (withFibers (alter (setSibling new) pr (fibers m)) m).
Proof. intros Hf. unfold linkUnit. simpl. apply (updFiber_alter _ _ _ _ Hf). Qed.

Lemma linkUnit_skip p i prev new m : linkUnit p (S i) None prev new m = Ok tt m.
Proof. reflexivity. Qed.

Lemma fld_alter_frame {A} (proj : fiber -> A) g i h r :
  (forall f, proj (g f) = proj f) -> fld proj (alter g i h) r = fld proj h r.
Proof.
  intros Hg. unfold fld. rewrite list_lookup_alter. case_decide; [subst|reflexivity].
  destruct (h !! r); simpl; [rewrite Hg|]; reflexivity.
Qed.

Lemma fld_alter_ne {A} (proj : fiber -> A) g i h r :
  i <> r -> fld proj (alter g i h) r = fld proj h r.
Proof. intros Hne. unfold fld. rewrite list_lookup_alter_ne by exact Hne. reflexivity. Qed.

Lemma fld_alter_eq {A} (proj : fiber -> A) g h r :
  fld proj (alter g r h) r = fld (fun f => proj (g f)) h r.
Proof. unfold fld. rewrite list_lookup_alter_eq. destruct (h !! r); reflexivity. Qed.

Lemma fld_app_l {A} (proj : fiber -> A) h l r :
  r < length h -> fld proj (h ++ l) r = fld proj h r.
Proof. intros Hr. unfold fld. rewrite lookup_app_l by exact Hr. reflexivity. Qed.

Lemma chain_lt h x os : chain h x os -> Forall (fun o => o < length h) os.
Proof.
  induction 1 as [|o s os Hs _ IH]; constructor; [|exact IH].
  unfold fld in Hs. destruct (h !! o) eqn:E; [|discriminate].
  eapply lookup_lt_Some; eauto.
Qed.

Lemma chain_ext h h' x os :
  (forall o, In o os -> fld sibling h' o = fld sibling h o) ->
  chain h x os -> chain h' x os.
Proof.
  intros Hext Hc. induction Hc as [|o s os Hs _ IH].
  - constructor.
  - apply chain_cons with s.
    + rewrite Hext by (left; reflexivity). exact Hs.
    + apply IH. intros o' Ho'. apply Hext. right. exact Ho'.
Qed.

Lemma inb_In r l : inb r l = true <-> In r l.
Proof.
  unfold inb. rewrite existsb_exists. split.
  - intros (x & Hin & Hx). apply Nat.eqb_eq in Hx. subst. exact Hin.
  - intros Hin. exists r. split; [exact Hin | apply Nat.eqb_refl].
Qed.

Lemma inb_app r l1 l2 : inb r (l1 ++ l2) = inb r l1 || inb r l2.
Proof. unfold inb. apply existsb_app. Qed.

Lemma length_tagAll os : forall h, length (tagAll os h) = length h.
Proof.
  induction os as [|o os IH]; intros h; simpl; [reflexivity|].
  rewrite IH. apply length_alter.
Qed.

Lemma fld_tagAll_frame {A} (proj : fiber -> A) os :
  (forall t f, proj (setEffectTag t f) = proj f) ->
  forall h r, fld proj (tagAll os h) r = fld proj h r.
Proof.
  intros Hp. induction os as [|o os IH]; intros h r; simpl; [reflexivity|].
  rewrite IH. apply fld_alter_frame. intros f. apply Hp.
Qed.

Lemma fld_tagAll_effectTag os : forall h r,
  r < length h ->
  fld effectTag (tagAll os h) r =
  if inb r os then Some (Some DELETION) else fld effectTag h r.
Proof.
  induction os as [|o os IH]; intros h r Hr; simpl; [reflexivity|].
  rewrite IH by (rewrite length_alter; exact Hr).
  destruct (inb r os) eqn:Hin; [rewrite orb_true_r; reflexivity|].
  rewrite orb_false_r. destruct (Nat.eqb_spec r o) as [->|Hne].
  - rewrite fld_alter_eq. unfold fld.
    destruct (lookup_lt_is_Some_2 h o Hr) as [f ->]. reflexivity.
  - apply fld_alter_ne. auto.
Qed.

Lemma sameGlobals_refl m : sameGlobals m m.
Proof. repeat split. Qed.

Lemma sameGlobals_trans m1 m2 m3 :
  sameGlobals m1 m2 -> sameGlobals m2 m3 -> sameGlobals m1 m3.
Proof.
  unfold sameGlobals. intros (?&?&?&?&?&?&?&?) (?&?&?&?&?&?&?&?).
  repeat split; congruence.
Qed.

Lemma sameGlobals_with h ds m : sameGlobals m (withDeletions ds (withFibers h m)).
Proof. repeat split. Qed.

Lemma with_id m ds :
  deletions m = Some ds -> withDeletions (Some ds) (withFibers (fibers m) m) = m.
Proof. destruct m; simpl. intros ->. reflexivity. Qed.

Lemma readOld_run o f m :
  fibers m !! o = Some f ->
  (let! f := getFiber o in ret (Some f)) m = Ok (Some f) m.
Proof. intros Hf. rewrite (bind_eq _ _ _ _ _ (getFiber_eq _ _ _ Hf)). reflexivity. Qed.

(** Once the elements are used up and the index is past zero, the loop tags
    what is left of the old chain. *)
Lemma reconcileLoop_tail p elements : forall os x m ds i prev fuel,
  i <> 0 ->
  length elements <= i ->
  chain (fibers m) x os ->
  deletions m = Some ds ->
  length os < fuel ->
  reconcileLoop fuel p elements i x prev m =
  Ok tt (withDeletions (Some (ds ++ os)) (withFibers (tagAll os (fibers m)) m)).
Proof.
  induction os as [|o os IH]; intros x m ds i prev fuel Hi Hlen Hchain Hds Hfuel;
    (destruct fuel as [|k]; [simpl in Hfuel; lia|]);
    inversion Hchain as [|o' s os' Hs Hrest]; subst; cbn [reconcileLoop].
  - replace (i <? length elements)%nat with false
      by (symmetry; apply Nat.ltb_ge; exact Hlen).
    simpl. rewrite app_nil_r. rewrite with_id by exact Hds. reflexivity.
  - replace (i <? length elements)%nat with false
      by (symmetry; apply Nat.ltb_ge; exact Hlen).
    cbn [orb isSome].
    unfold fld in Hs. destruct (fibers m !! o) as [f|] eqn:Hf; [|discriminate].
    simpl in Hs. injection Hs as Hs.
    rewrite (lookup_ge_None_2 elements i Hlen). cbn [mjoin option_join].
    rewrite (bind_eq _ _ _ _ _ (readOld_run _ _ _ Hf)).
    rewrite (bind_eq _ _ _ _ _ (createUnit_none _ _ _ _)).
    replace (sameTypeOf (Some f) None) with false by (destruct f; reflexivity).
    rewrite (bind_eq _ _ _ _ _ (markDeletion_run _ _ _ _ Hf Hds)).
    assert (Hf' : fibers (withDeletions (Some (ds ++ [o]))
                            (withFibers (alter (setEffectTag (Some DELETION)) o
                                           (fibers m)) m)) !! o
                  = Some (setEffectTag (Some DELETION) f)).
    { simpl. rewrite list_lookup_alter_eq, Hf. reflexivity. }
    rewrite (bind_eq _ _ _ _ _ (advanceOld_run _ _ _ Hf')).
    destruct i as [|j]; [congruence|].
    rewrite (bind_eq _ _ _ _ _ (linkUnit_skip _ _ _ _ _)).
    rewrite (IH _ _ (ds ++ [o])); try (simpl; auto; lia).
    + simpl. rewrite <- app_assoc. reflexivity.
    + simpl. rewrite Hs. eapply chain_ext; [|exact Hrest].
      intros o' _. apply fld_alter_frame. reflexivity.
    + simpl in Hfuel. lia.
Qed.

Lemma chain_next h x os :
  chain h x os -> chain h (nextOf h x) (tail os).
Proof.
  intros Hc. inversion Hc as [|o s os' Hs Hrest]; subst; simpl; [constructor|].
  unfold fld in Hs. destruct (h !! o) as [f|]; [|discriminate].
  simpl in *. injection Hs as ->. exact Hrest.
Qed.

Lemma chain_is_Some h o os : chain h (Some o) os -> is_Some (h !! o).
Proof.
  intros Hc. inversion Hc as [|o' s os' Hs Hrest]; subst.
  unfold fld in Hs. destruct (h !! o); [eauto | discriminate].
Qed.

(** One turn of the loop at a position that has an element, up to the linking
    of the unit made. *)
Lemma turn_element p elements i e x os prev m ds k :
  elements !! i = Some (Some e) ->
  chain (fibers m) x os ->
  deletions m = Some ds ->
  reconcileLoop (S k) p elements i x prev m =
  (linkUnit p i (Some e) prev (Some (length (fibers m))) ;;;
   reconcileLoop k p elements (S i) (nextOf (fibers m) x)
     (Some (length (fibers m))))
    (withDeletions (Some (ds ++ removedAt (fibers m) x (Some e)))
       (withFibers (tagAll (removedAt (fibers m) x (Some e))
                      (fibers m ++ [unitFor (fibers m) p x e])) m)).
Proof.
  intros He Hchain Hds. cbn [reconcileLoop].
  replace (i <? length elements)%nat with true
    by (symmetry; apply Nat.ltb_lt; eapply lookup_lt_Some; eauto).
  cbn [orb]. rewrite He. cbn [mjoin option_join].
  destruct x as [o|].
  - destruct (chain_is_Some _ _ _ Hchain) as [f Hf].
    rewrite (bind_eq _ _ _ _ _ (readOld_run _ _ _ Hf)).
    unfold unitFor, removedAt, nextOf. cbn [oldRecord]. rewrite Hf.
    destruct (sameTypeOf (Some f) (Some e)) eqn:Hsame.
    + rewrite (bind_eq _ _ _ _ _ (createUnit_update _ _ _ _ _ Hsame)).
      unfold markDeletion at 1. cbn [negb]. unfold bind at 1, ret at 1.
      assert (Hf' : fibers (withFibers (fibers m ++ [updateUnit p (Some o) f e]) m)
                    !! o = Some f).
      { simpl. apply lookup_app_l_Some. exact Hf. }
      rewrite (bind_eq _ _ _ _ _ (advanceOld_run _ _ _ Hf')).
      cbn [tagAll fold_left]. rewrite app_nil_r.
      replace (withDeletions (Some ds)
                 (withFibers (fibers m ++ [updateUnit p (Some o) f e]) m))
        with (withFibers (fibers m ++ [updateUnit p (Some o) f e]) m)
        by (destruct m; simpl in *; subst; reflexivity).
      reflexivity.
    + rewrite (bind_eq _ _ _ _ _ (createUnit_placement _ _ _ _ _ Hsame)).
      assert (Hf' : fibers (withFibers (fibers m ++ [placementUnit p e]) m)
                    !! o = Some f).
      { simpl. apply lookup_app_l_Some. exact Hf. }
      rewrite (bind_eq _ _ _ _ _ (markDeletion_run _ _ ds _ Hf' Hds)).
      match goal with
      | |- bind (advanceOld _) _ ?m1 = _ =>
          assert (Hf'' : fibers m1 !! o = Some (setEffectTag (Some DELETION) f))
      end.
      { simpl. rewrite list_lookup_alter_eq. rewrite lookup_app_l_Some with (x := f)
          by exact Hf. reflexivity. }
      rewrite (bind_eq _ _ _ _ _ (advanceOld_run _ _ _ Hf'')).
      reflexivity.
  - unfold ret at 1. unfold bind at 1.
    unfold unitFor, removedAt, nextOf. cbn [oldRecord].
    assert (Hsame : sameTypeOf None (Some e) = false) by reflexivity.
    rewrite (bind_eq _ _ _ _ _ (createUnit_placement _ _ _ _ _ Hsame)).
    unfold markDeletion at 1, advanceOld at 1. unfold bind at 1, ret at 1.
    unfold bind at 1. unfold ret at 1.
    cbn [tagAll fold_left]. rewrite app_nil_r.
    replace (withDeletions (Some ds) (withFibers (fibers m ++ [placementUnit p e]) m))
      with (withFibers (fibers m ++ [placementUnit p e]) m)
      by (destruct m; simpl in *; subst; reflexivity).
    reflexivity.
Qed.

Lemma removedOf_nil h os : removedOf h [] os = os.
Proof. destruct os; reflexivity. Qed.

Lemma removedOf_In h r : forall es os, In r (removedOf h es os) -> In r os.
Proof.
  intros es os. revert es. induction os as [|o os IH]; intros es Hin; simpl in Hin.
  - destruct Hin.
  - destruct es as [|e es]; [exact Hin|].
    apply in_app_or in Hin. destruct Hin as [Hin|Hin].
    + unfold removedAt in Hin. destruct (sameTypeOf _ _); simpl in Hin; [tauto|].
      destruct Hin as [->|[]]. left. reflexivity.
    + right. eapply IH. exact Hin.
Qed.

Lemma oldRecord_ext h h' x :
  (forall o, x = Some o -> fld core h' o = fld core h o) ->
  match oldRecord h' x, oldRecord h x with
  | Some f', Some f => type f' = type f /\ dom f' = dom f
  | None, None => True
  | _, _ => False
  end.
Proof.
  intros H. destruct x as [o|]; simpl; [|exact I].
  specialize (H o eq_refl). unfold fld in H.
  destruct (h' !! o) as [f'|], (h !! o) as [f|]; simpl in H; try discriminate; auto.
  injection H as Ht _ Hd _ _ _. auto.
Qed.

Lemma unitFor_ext h h' p x e :
  (forall o, x = Some o -> fld core h' o = fld core h o) ->
  unitFor h' p x e = unitFor h p x e.
Proof.
  intros H. apply oldRecord_ext in H. unfold unitFor.
  destruct (oldRecord h' x) as [f'|], (oldRecord h x) as [f|]; try contradiction;
    [|reflexivity].
  destruct H as [Ht Hd]. unfold sameTypeOf, updateUnit. rewrite Ht, Hd. reflexivity.
Qed.

Lemma removedAt_ext h h' x e :
  (forall o, x = Some o -> fld core h' o = fld core h o) ->
  removedAt h' x e = removedAt h x e.
Proof.
  intros H. apply oldRecord_ext in H. unfold removedAt.
  destruct x as [o|]; [|reflexivity].
  destruct (oldRecord h' (Some o)) as [f'|], (oldRecord h (Some o)) as [f|];
    try contradiction; [|reflexivity].
  destruct H as [Ht _]. unfold sameTypeOf. rewrite Ht. reflexivity.
Qed.

Lemma removedOf_ext h h' : forall os es,
  (forall o, In o os -> fld core h' o = fld core h o) ->
  removedOf h' es os = removedOf h es os.
Proof.
  induction os as [|o os IH]; intros es H; cbn [removedOf]; [reflexivity|].
  destruct es as [|e es]; [reflexivity|].
  rewrite (removedAt_ext h h').
  - rewrite IH; [reflexivity|]. intros o' Ho'. apply H. right. exact Ho'.
  - intros o' Ho'. injection Ho' as <-. apply H. left. reflexivity.
Qed.

Lemma removedOf_cons h e es x os :
  chain h x os ->
  removedAt h x (Some e) ++ removedOf h es (tail os) = removedOf h (e :: es) os.
Proof.
  intros Hc. inversion Hc; subst; simpl; [destruct es|]; reflexivity.
Qed.

Lemma lookup_head_chain h x os : chain h x os -> os !! 0 = x.
Proof. intros Hc. inversion Hc; reflexivity. Qed.

(** A unit is determined by its fields. *)
Lemma fiber_fields f g :
  core f = core g -> child f = child g -> sibling f = sibling g ->
  effectTag f = effectTag g -> f = g.
Proof.
  destruct f, g. unfold core. simpl. intros H -> -> ->. injection H.
  intros. subst. reflexivity.
Qed.

Lemma fld_exists {A} (proj : fiber -> A) h r f :
  h !! r = Some f -> fld proj h r = Some (proj f).
Proof. unfold fld. intros ->. reflexivity. Qed.

Lemma lookup_tagAll_notin R : forall h r, ~ In r R -> tagAll R h !! r = h !! r.
Proof.
  induction R as [|o R IH]; intros h r Hr; simpl; [reflexivity|].
  rewrite IH by (intros H; apply Hr; right; exact H).
  apply list_lookup_alter_ne. intros ->. apply Hr. left. reflexivity.
Qed.

Lemma removedAt_In h x e r : In r (removedAt h x e) -> x = Some r.
Proof.
  unfold removedAt. destruct x as [o|]; [|intros []].
  destruct (sameTypeOf _ _); [intros []|]. intros [->|[]]. reflexivity.
Qed.

Lemma chain_head_lt h o os : chain h (Some o) os -> o < length h.
Proof.
  intros Hc. destruct (chain_is_Some _ _ _ Hc) as [f Hf].
  eapply lookup_lt_Some; eauto.
Qed.

Lemma turnStore_length p h x e pr : length (turnStore p h x e pr) = length h + 1.
Proof.
  unfold turnStore. rewrite length_alter, length_tagAll, length_app. reflexivity.
Qed.

Lemma turnStore_old p h x os e pr r :
  chain h x os -> pr < length h -> r < length h ->
  fld core (turnStore p h x e pr) r = fld core h r /\
  fld child (turnStore p h x e pr) r = fld child h r /\
  fld sibling (turnStore p h x e pr) r =
    (if Nat.eqb pr r then Some (Some (length h)) else fld sibling h r) /\
  fld effectTag (turnStore p h x e pr) r =
    (if inb r (removedAt h x (Some e)) then Some (Some DELETION)
     else fld effectTag h r).
Proof.
  intros Hc Hpr Hr. unfold turnStore. repeat split.
  - rewrite fld_alter_frame by reflexivity.
    rewrite fld_tagAll_frame by reflexivity. apply fld_app_l. exact Hr.
  - rewrite fld_alter_frame by reflexivity.
    rewrite fld_tagAll_frame by reflexivity. apply fld_app_l. exact Hr.
  - destruct (Nat.eqb_spec pr r) as [->|Hne].
    + rewrite fld_alter_eq. unfold fld.
      destruct (lookup_lt_is_Some_2
                  (tagAll (removedAt h x (Some e)) (h ++ [unitFor h p x e])) r)
        as [f ->]; [|reflexivity].
      rewrite length_tagAll, length_app. lia.
    + rewrite fld_alter_ne by exact Hne.
      rewrite fld_tagAll_frame by reflexivity. apply fld_app_l. exact Hr.
  - rewrite fld_alter_frame by reflexivity.
    rewrite fld_tagAll_effectTag by (rewrite length_app; lia).
    rewrite fld_app_l by exact Hr. reflexivity.
Qed.

Lemma turnStore_new p h x os e pr :
  chain h x os -> pr < length h ->
  turnStore p h x e pr !! length h = Some (unitFor h p x e).
Proof.
  intros Hc Hpr. unfold turnStore.
  rewrite list_lookup_alter_ne by lia.
  rewrite lookup_tagAll_notin.
  - apply list_lookup_middle. reflexivity.
  - intros Hin. apply removedAt_In in Hin. subst x.
    apply chain_head_lt in Hc. lia.
Qed.

Lemma drop_head_lookup {A} (l : list A) i x rest :
  drop i l = x :: rest -> l !! i = Some x /\ drop (S i) l = rest.
Proof.
  intros H.
  assert (Hx : l !! i = Some x).
  { rewrite <- (Nat.add_0_r i), <- lookup_drop, H. reflexivity. }
  split; [exact Hx|]. rewrite (drop_S _ _ _ Hx) in H. congruence.
Qed.

Lemma drop_nil_length {A} (l : list A) i : drop i l = [] -> length l <= i.
Proof.
  intros H. assert (Hl : length (drop i l) = 0) by (rewrite H; reflexivity).
  rewrite length_drop in Hl. lia.
Qed.

Lemma unitFor_links h p x e :
  child (unitFor h p x e) = None /\ sibling (unitFor h p x e) = None.
Proof.
  unfold unitFor. destruct (oldRecord h x); [destruct (sameTypeOf _ _)|]; auto.
Qed.

Lemma lookup_tail_S {A} (l : list A) k : tail l !! k = l !! S k.
Proof. destruct l; reflexivity. Qed.

Lemma nextNew_shift n len k : nextNew (n + 1) len k = nextNew n (S len) (S k).
Proof.
  unfold nextNew. change (S (S k) <? S len)%nat with (S k <? len)%nat.
  destruct (S k <? len)%nat; [f_equal; lia | reflexivity].
Qed.

(** From what the rest of the loop did to the store [h2] left by one turn, to
    what the turn and the rest did to the store [h] before it. *)
Lemma rest_compose p h h2 x os e es ds m' :
  chain h x os ->
  length h2 = length h + 1 ->
  h2 !! length h = Some (unitFor h p x e) ->
  (forall r, r < length h ->
     fld core h2 r = fld core h r /\
     fld effectTag h2 r =
       (if inb r (removedAt h x (Some e)) then Some (Some DELETION)
        else fld effectTag h r)) ->
  restPost p es (tail os) (Some (length h)) h2
           (ds ++ removedAt h x (Some e)) m' ->
  length (fibers m') = length h + length (e :: es) /\
  deletions m' = Some (ds ++ removedOf h (e :: es) os) /\
  (forall r, r < length h ->
     fld core (fibers m') r = fld core h r /\
     fld child (fibers m') r = fld child h2 r /\
     fld sibling (fibers m') r = fld sibling h2 r /\
     fld effectTag (fibers m') r =
       (if inb r (removedOf h (e :: es) os) then Some (Some DELETION)
        else fld effectTag h r)) /\
  (forall k e0, (e :: es) !! k = Some e0 ->
     fibers m' !! (length h + k) =
     Some (setSibling (nextNew (length h) (length (e :: es)) k)
             (unitFor h p (os !! k) e0))).
Proof.
  intros Hchain Hlen2 Hu Hold2 Hpost.
  set (n := length h) in *. set (R := removedAt h x (Some e)) in *.
  set (u := unitFor h p x e) in *.
  pose proof (chain_lt _ _ _ Hchain) as Hlt. fold n in Hlt.
  assert (Hlt' : Forall (fun o => o < n) (tail os)).
  { destruct os; [constructor|]. inversion Hlt; assumption. }
  unfold restPost in Hpost. rewrite Hlen2 in Hpost.
  destruct Hpost as (Hlen' & Hdel' & Hold' & Hnew').
  assert (Hcore2 : forall o, In o (tail os) -> fld core h2 o = fld core h o).
  { intros o Ho. rewrite Forall_forall in Hlt'.
    apply list_elem_of_In, Hlt' in Ho. apply (Hold2 o Ho). }
  assert (Hrem : removedOf h2 es (tail os) = removedOf h es (tail os))
    by (apply removedOf_ext; exact Hcore2).
  pose proof (removedOf_cons h e es x os Hchain) as Hcons. fold R in Hcons.
  assert (Hfresh : inb n (removedOf h es (tail os)) = false).
  { destruct (inb n _) eqn:E; [|reflexivity]. apply inb_In in E.
    apply removedOf_In in E. rewrite Forall_forall in Hlt'.
    apply list_elem_of_In, Hlt' in E. lia. }
  rewrite Hrem in Hdel', Hold'.
  split; [simpl; lia|].
  split; [rewrite Hdel', <- app_assoc, Hcons; reflexivity|].
  split.
  { intros r Hr.
    destruct (Hold' r ltac:(lia)) as (Hc & Hch & Hs & Ht).
    destruct (Hold2 r Hr) as (Hc2 & Ht2).
    split; [congruence|]. split; [exact Hch|]. split.
    - rewrite Hs.
      replace (linked es (Some n) r) with false
        by (destruct es; simpl; [reflexivity|];
            symmetry; apply Nat.eqb_neq; lia).
      reflexivity.
    - rewrite Ht, Ht2, <- Hcons, inb_app.
      destruct (inb r R), (inb r (removedOf h es (tail os))); reflexivity. }
  { intros [|k'] e0 Hk.
    - simpl in Hk. injection Hk as <-.
      rewrite (lookup_head_chain _ _ _ Hchain). fold u.
      destruct (Hold' n ltac:(lia)) as (Hc & Hch & Hs & Ht).
      destruct (unitFor_links h p x e) as [Hu1 Hu2]. fold u in Hu1, Hu2.
      rewrite Hfresh in Ht.
      rewrite (fld_exists core _ _ _ Hu) in Hc.
      rewrite (fld_exists child _ _ _ Hu) in Hch.
      rewrite (fld_exists sibling _ _ _ Hu) in Hs.
      rewrite (fld_exists effectTag _ _ _ Hu) in Ht.
      rewrite Nat.add_0_r.
      destruct (fibers m' !! n) as [f'|] eqn:Hf'; unfold fld in Hc;
        rewrite Hf' in Hc; [|discriminate].
      unfold fld in Hch, Hs, Ht. rewrite Hf' in Hch, Hs, Ht.
      simpl in Hc, Hch, Hs, Ht.
      f_equal. apply fiber_fields.
      + change (core f' = core u). congruence.
      + change (child f' = child u). congruence.
      + change (sibling f' = nextNew n (S (length es)) 0).
        unfold nextNew. destruct es as [|e1 es1]; simpl in Hs |- *.
        * congruence.
        * rewrite Nat.eqb_refl in Hs. congruence.
      + change (effectTag f' = effectTag u). congruence.
    - simpl in Hk. specialize (Hnew' k' e0 Hk).
      replace (n + S k') with (n + 1 + k') by lia. rewrite Hnew'.
      cbn [length]. rewrite nextNew_shift, lookup_tail_S.
      rewrite (unitFor_ext h h2); [reflexivity|].
      intros o Ho. apply Hcore2. rewrite <- lookup_tail_S in Ho.
      apply list_elem_of_In. eapply list_elem_of_lookup_2. exact Ho. }
Qed.

Lemma reconcileLoop_rest p elements : forall es os i x prev m ds fuel,
  i <> 0 ->
  drop i elements = map Some es ->
  chain (fibers m) x os ->
  deletions m = Some ds ->
  (es <> [] -> exists pr, prev = Some pr /\ pr < length (fibers m) /\ ~ In pr os) ->
  length es + length os < fuel ->
  exists m', reconcileLoop fuel p elements i x prev m = Ok tt m' /\
             sameGlobals m m' /\ restPost p es os prev (fibers m) ds m'.
Proof.
  induction es as [|e es IH];
    intros os i x prev m ds fuel Hi Hdrop Hchain Hds Hprev Hfuel.
  - apply drop_nil_length in Hdrop.
    eexists. split; [apply (reconcileLoop_tail p elements os x m ds i prev fuel);
                     auto; simpl in Hfuel; lia|].
    split; [apply sameGlobals_with|].
    unfold restPost. cbn [fibers deletions withDeletions withFibers].
    rewrite removedOf_nil, length_tagAll. simpl.
    split; [lia|]. split; [reflexivity|]. split.
    + intros r Hr. repeat split.
      * apply fld_tagAll_frame. reflexivity.
      * apply fld_tagAll_frame. reflexivity.
      * apply fld_tagAll_frame. reflexivity.
      * apply fld_tagAll_effectTag. exact Hr.
    + intros k e Hk. rewrite lookup_nil in Hk. discriminate.
  - simpl in Hdrop. apply drop_head_lookup in Hdrop. destruct Hdrop as [He Hdrop].
    destruct fuel as [|k]; [simpl in Hfuel; lia|].
    rewrite (turn_element p elements i e x os prev m ds k He Hchain Hds).
    destruct i as [|j]; [congruence|].
    destruct Hprev as (pr & -> & Hpr & Hnotin); [discriminate|].
    set (h := fibers m) in *. set (n := length h) in *.
    set (R := removedAt h x (Some e)) in *.
    set (u := unitFor h p x e) in *.
    destruct (lookup_lt_is_Some_2 (tagAll R (h ++ [u])) pr) as [prf Hprf].
    { rewrite length_tagAll, length_app. lia. }
    match goal with
    | |- context [bind (linkUnit _ _ _ _ _) _ ?m0] => set (m3 := m0)
    end.
    assert (Hprf' : fibers m3 !! pr = Some prf) by exact Hprf.
    rewrite (bind_eq _ _ _ _ _ (linkUnit_next p j e pr (Some n) m3 prf Hprf')).
    subst m3. cbn [fibers withDeletions withFibers].
    fold (turnStore p h x e pr).
    set (h2 := turnStore p h x e pr).
    pose proof (turnStore_length p h x e pr) as Hlen2. fold h2 n in Hlen2.
    pose proof (chain_next _ _ _ Hchain) as Hnext. fold h in Hnext.
    pose proof (chain_lt _ _ _ Hchain) as Hlt. fold h n in Hlt.
    assert (Hlt' : Forall (fun o => o < n) (tail os)).
    { destruct os; [constructor|]. inversion Hlt; assumption. }
    assert (Hin_tail : forall o, In o (tail os) -> In o os).
    { intros o Ho. destruct os; [destruct Ho | right; exact Ho]. }
    edestruct (IH (tail os) (S (S j)) (nextOf h x) (Some n)
                 (withFibers h2 (withDeletions (Some (ds ++ R))
                                   (withFibers (tagAll R (h ++ [u])) m)))
                 (ds ++ R) k)
      as (m' & Hrun & Hglob & Hpost).
    + lia.
    + exact Hdrop.
    + cbn [fibers withFibers]. eapply chain_ext; [|exact Hnext].
      intros o Ho.
      assert (Hon : o < n) by (rewrite Forall_forall in Hlt'; apply Hlt';
                                apply list_elem_of_In; exact Ho).
      destruct (turnStore_old p h x os e pr o Hchain Hpr Hon) as (_ & _ & Hs & _).
      fold h2 n in Hs. rewrite Hs.
      destruct (Nat.eqb_spec pr o) as [->|_]; [|reflexivity].
      exfalso. apply Hnotin. apply Hin_tail. exact Ho.
    + reflexivity.
    + intros _. exists n. cbn [fibers withFibers]. split; [reflexivity|].
      split; [lia|]. intros Hin.
      rewrite Forall_forall in Hlt'. apply list_elem_of_In in Hin.
      apply Hlt' in Hin. lia.
    + assert (length (tail os) <= length os) by (destruct os; simpl; lia).
      simpl in Hfuel. lia.
    + exists m'. split; [exact Hrun|]. split.
      { eapply sameGlobals_trans; [|exact Hglob]. repeat split. }
      cbn [fibers withFibers] in Hpost. fold h n R in Hpost.
      destruct (rest_compose p h h2 x os e es ds m' Hchain Hlen2
                  (turnStore_new p h x os e pr Hchain Hpr)) as (Hl & Hd & Ho & Hn).
      { intros r Hr.
        destruct (turnStore_old p h x os e pr r Hchain Hpr Hr) as (Hc2 & _ & _ & Ht2).
        split; [exact Hc2 | exact Ht2]. }
      { exact Hpost. }
      unfold restPost. fold h n.
      split; [exact Hl|]. split; [exact Hd|]. split; [|exact Hn].
      intros r Hr. destruct (Ho r Hr) as (Hc & Hch & Hs & Ht).
      destruct (turnStore_old p h x os e pr r Hchain Hpr Hr)
        as (_ & Hch2 & Hs2 & _).
      split; [exact Hc|]. split; [rewrite Hch; exact Hch2|]. split; [|exact Ht].
      rewrite Hs. exact Hs2.
Qed.

Lemma firstStore_length p h x e : length (firstStore p h x e) = length h + 1.
Proof.
  unfold firstStore. rewrite length_alter, length_tagAll, length_app. reflexivity.
Qed.

Lemma firstStore_old p h x e r :
  p < length h -> r < length h ->
  fld core (firstStore p h x e) r = fld core h r /\
  fld child (firstStore p h x e) r =
    (if Nat.eqb p r then Some (Some (length h)) else fld child h r) /\
  fld sibling (firstStore p h x e) r = fld sibling h r /\
  fld effectTag (firstStore p h x e) r =
    (if inb r (removedAt h x (Some e)) then Some (Some DELETION)
     else fld effectTag h r).
Proof.
  intros Hp Hr. unfold firstStore. repeat split.
  - rewrite fld_alter_frame by reflexivity.
    rewrite fld_tagAll_frame by reflexivity. apply fld_app_l. exact Hr.
  - destruct (Nat.eqb_spec p r) as [<-|Hne].
    + rewrite fld_alter_eq. unfold fld.
      destruct (lookup_lt_is_Some_2
                  (tagAll (removedAt h x (Some e)) (h ++ [unitFor h p x e])) p)
        as [f ->]; [|reflexivity].
      rewrite length_tagAll, length_app. lia.
    + rewrite fld_alter_ne by exact Hne.
      rewrite fld_tagAll_frame by reflexivity. apply fld_app_l. exact Hr.
  - rewrite fld_alter_frame by reflexivity.
    rewrite fld_tagAll_frame by reflexivity. apply fld_app_l. exact Hr.
  - rewrite fld_alter_frame by reflexivity.
    rewrite fld_tagAll_effectTag by (rewrite length_app; lia).
    rewrite fld_app_l by exact Hr. reflexivity.
Qed.

Lemma firstStore_new p h x os e :
  chain h x os -> p < length h ->
  firstStore p h x e !! length h = Some (unitFor h p x e).
Proof.
  intros Hc Hp. unfold firstStore.
  rewrite list_lookup_alter_ne by lia.
  rewrite lookup_tagAll_notin.
  - apply list_lookup_middle. reflexivity.
  - intros Hin. apply removedAt_In in Hin. subst x.
    apply chain_head_lt in Hc. lia.
Qed.

(** The turn at index 0 when there is no element but an old unit. *)
Lemma turn_delete_first p o os prev m ds k pf :
  chain (fibers m) (Some o) (o :: os) ->
  deletions m = Some ds ->
  fibers m !! p = Some pf ->
  reconcileLoop (S k) p [] 0 (Some o) prev m =
  reconcileLoop k p [] 1 (nextOf (fibers m) (Some o)) None
    (withFibers (alter (setChild None) p
                   (alter (setEffectTag (Some DELETION)) o (fibers m)))
       (withDeletions (Some (ds ++ [o])) m)).
Proof.
  intros Hchain Hds Hp. cbn [reconcileLoop].
  cbn [length Nat.ltb Nat.leb orb isSome lookup list_lookup mjoin option_join].
  destruct (chain_is_Some _ _ _ Hchain) as [f Hf].
  rewrite (bind_eq _ _ _ _ _ (readOld_run _ _ _ Hf)).
  rewrite (bind_eq _ _ _ _ _ (createUnit_none _ _ _ _)).
  replace (sameTypeOf (Some f) None) with false by (destruct f; reflexivity).
  rewrite (bind_eq _ _ _ _ _ (markDeletion_run _ _ _ _ Hf Hds)).
  match goal with
  | |- bind (advanceOld _) _ ?m1 = _ =>
      assert (Hf' : fibers m1 !! o = Some (setEffectTag (Some DELETION) f))
  end.
  { simpl. rewrite list_lookup_alter_eq, Hf. reflexivity. }
  rewrite (bind_eq _ _ _ _ _ (advanceOld_run _ _ _ Hf')).
  match goal with
  | |- bind (linkUnit _ _ _ _ _) _ ?m1 = _ =>
      destruct (lookup_lt_is_Some_2 (fibers m1) p) as [pf' Hp']
  end.
  { simpl. rewrite length_alter. eapply lookup_lt_Some; eauto. }
  rewrite (bind_eq _ _ _ _ _ (linkUnit_first _ _ _ _ _ _ Hp')).
  unfold nextOf. rewrite Hf. reflexivity.
Qed.

Lemma reconcileLoop_first p es : forall os x m ds fuel,
  p < length (fibers m) ->
  chain (fibers m) x os ->
  deletions m = Some ds ->
  length es + length os < fuel ->
  exists m', reconcileLoop fuel p (map Some es) 0 x None m = Ok tt m' /\
             sameGlobals m m' /\ reconcilePost p es os (fibers m) ds m'.
Proof.
  intros os x m ds fuel Hp Hchain Hds Hfuel.
  destruct fuel as [|k]; [lia|].
  set (h := fibers m) in *. set (n := length h) in *.
  destruct es as [|e es].
  - inversion Hchain as [|o s os' Hs Hrest]; subst.
    + (* nothing new, nothing old *)
      exists m. split; [reflexivity|]. split; [apply sameGlobals_refl|].
      unfold reconcilePost. fold h n. simpl. rewrite app_nil_r, Nat.add_0_r.
      split; [reflexivity|]. split; [exact Hds|]. split.
      * intros r Hr. rewrite andb_false_r. auto.
      * intros k' e Hk. rewrite lookup_nil in Hk. discriminate.
    + (* only old units *)
      destruct (lookup_lt_is_Some_2 h p Hp) as [pf Hpf].
      cbn [map]. rewrite (turn_delete_first p o os' None m ds k pf Hchain Hds Hpf).
      fold h.
      pose proof (chain_next _ _ _ Hchain) as Hnext. cbn [tail] in Hnext.
      rewrite reconcileLoop_tail with (os := os') (ds := ds ++ [o]).
      * eexists. split; [reflexivity|]. split; [repeat split|].
        unfold reconcilePost. cbn [fibers deletions withFibers withDeletions].
        fold h n. rewrite length_tagAll, !length_alter. fold n.
        cbn [removedOf length]. rewrite <- app_assoc.
        split; [lia|]. split; [reflexivity|]. split.
        -- intros r Hr. repeat split.
           ++ rewrite fld_tagAll_frame by reflexivity.
              rewrite !fld_alter_frame by reflexivity. reflexivity.
           ++ rewrite fld_tagAll_frame by reflexivity.
              cbn [nonempty orb firstNew]. rewrite andb_true_r.
              destruct (Nat.eqb_spec p r) as [<-|Hne].
              ** rewrite fld_alter_eq. unfold fld.
                 rewrite list_lookup_alter. case_decide; subst; rewrite Hpf;
                   reflexivity.
              ** rewrite fld_alter_ne by exact Hne.
                 apply fld_alter_frame. reflexivity.
           ++ rewrite fld_tagAll_frame by reflexivity.
              rewrite !fld_alter_frame by reflexivity. reflexivity.
           ++ rewrite fld_tagAll_effectTag by (rewrite !length_alter; exact Hr).
              rewrite fld_alter_frame by reflexivity.
              change (inb r (o :: os')) with (Nat.eqb r o || inb r os').
              destruct (inb r os'); [rewrite orb_true_r; reflexivity|].
              rewrite orb_false_r. destruct (Nat.eqb_spec r o) as [->|Hne].
              ** rewrite fld_alter_eq. unfold fld.
                 destruct (lookup_lt_is_Some_2 h o Hr) as [f ->]. reflexivity.
              ** apply fld_alter_ne. auto.
        -- intros k' e Hk. rewrite lookup_nil in Hk. discriminate.
      * discriminate.
      * simpl. lia.
      * cbn [fibers withFibers]. eapply chain_ext; [|exact Hnext].
        intros o' _. rewrite !fld_alter_frame by reflexivity. reflexivity.
      * reflexivity.
      * simpl in Hfuel. lia.
  - assert (He : map Some (e :: es) !! 0 = Some (Some e)) by reflexivity.
    rewrite (turn_element p _ 0 e x os None m ds k He Hchain Hds).
    fold h n.
    set (R := removedAt h x (Some e)) in *.
    set (u := unitFor h p x e) in *.
    match goal with
    | |- context [bind (linkUnit _ _ _ _ _) _ ?m0] => set (m3 := m0)
    end.
    destruct (lookup_lt_is_Some_2 (fibers m3) p) as [pf Hpf].
    { subst m3. cbn [fibers withDeletions withFibers].
      rewrite length_tagAll, length_app. lia. }
    rewrite (bind_eq _ _ _ _ _ (linkUnit_first p (Some e) None (Some n) m3 pf Hpf)).
    subst m3. cbn [fibers withDeletions withFibers].
    fold (firstStore p h x e). set (h2 := firstStore p h x e).
    pose proof (firstStore_length p h x e) as Hlen2. fold h2 n in Hlen2.
    pose proof (chain_next _ _ _ Hchain) as Hnext.
    pose proof (chain_lt _ _ _ Hchain) as Hlt. fold n in Hlt.
    assert (Hlt' : Forall (fun o => o < n) (tail os)).
    { destruct os; [constructor|]. inversion Hlt; assumption. }
    edestruct (reconcileLoop_rest p (map Some (e :: es)) es (tail os) 1
                 (nextOf h x) (Some n)
                 (withFibers h2 (withDeletions (Some (ds ++ R))
                                   (withFibers (tagAll R (h ++ [u])) m)))
                 (ds ++ R) k)
      as (m' & Hrun & Hglob & Hpost).
    + discriminate.
    + reflexivity.
    + cbn [fibers withFibers]. eapply chain_ext; [|exact Hnext].
      intros o Ho.
      assert (Hon : o < n) by (rewrite Forall_forall in Hlt'; apply Hlt';
                                apply list_elem_of_In; exact Ho).
      apply (firstStore_old p h x e o Hp Hon).
    + reflexivity.
    + intros _. exists n. cbn [fibers withFibers]. split; [reflexivity|].
      split; [lia|]. intros Hin.
      rewrite Forall_forall in Hlt'. apply list_elem_of_In in Hin.
      apply Hlt' in Hin. lia.
    + assert (length (tail os) <= length os) by (destruct os; simpl; lia).
      simpl in Hfuel. lia.
    + exists m'. split; [exact Hrun|]. split.
      { eapply sameGlobals_trans; [|exact Hglob]. repeat split. }
      cbn [fibers withFibers] in Hpost. fold h n R in Hpost.
      destruct (rest_compose p h h2 x os e es ds m' Hchain Hlen2
                  (firstStore_new p h x os e Hchain Hp)) as (Hl & Hd & Ho & Hn).
      { intros r Hr.
        destruct (firstStore_old p h x e r Hp Hr) as (Hc2 & _ & _ & Ht2).
        split; [exact Hc2 | exact Ht2]. }
      { exact Hpost. }
      unfold reconcilePost. fold h n.
      split; [exact Hl|]. split; [exact Hd|]. split; [|exact Hn].
      intros r Hr. destruct (Ho r Hr) as (Hc & Hch & Hs & Ht).
      destruct (firstStore_old p h x e r Hp Hr) as (_ & Hch2 & Hs2 & _).
      split; [exact Hc|]. split; [|split; [rewrite Hs; exact Hs2 | exact Ht]].
      rewrite Hch. cbn [nonempty orb firstNew]. rewrite andb_true_r. exact Hch2.
Qed.

Lemma reconcileChildren_run fuel p pf es os ds m :
  reconcilePre fuel p pf es os ds m ->
  exists m', reconcileChildren fuel p (map Some es) m = Ok tt m' /\
             sameGlobals m m' /\ reconcilePost p es os (fibers m) ds m'.
Proof.
  intros (Hp & Halt & Hchain & Hds & Hfuel). unfold reconcileChildren.
  rewrite (bind_eq _ _ _ _ _ (getFiber_eq _ _ _ Hp)).
  assert (Hplt : p < length (fibers m)) by (eapply lookup_lt_Some; eauto).
  unfold oldHead in Hchain. destruct (alternate pf) as [a|].
  - destruct (Halt a eq_refl) as [af Haf]. rewrite Haf in Hchain. simpl in Hchain.
    assert (Hread : (let! af := getFiber a in ret (child af)) m = Ok (child af) m)
      by (rewrite (bind_eq _ _ _ _ _ (getFiber_eq _ _ _ Haf)); reflexivity).
    rewrite (bind_eq _ _ _ _ _ Hread).
    apply reconcileLoop_first; assumption.
  - unfold ret at 1. unfold bind at 1.
    apply reconcileLoop_first; assumption.
Qed.

Lemma chain_det h x l1 : chain h x l1 -> forall l2, chain h x l2 -> l1 = l2.
Proof.
  induction 1 as [|o s os Hs _ IH]; intros l2 H2; inversion H2; subst;
    [reflexivity|].
  f_equal. apply IH. congruence.
Qed.

Lemma chain_suffix h o l2 : forall l1 x,
  chain h x (l1 ++ o :: l2) -> chain h (Some o) (o :: l2).
Proof.
  induction l1 as [|a l1 IH]; intros x Hc; simpl in Hc.
  - inversion Hc; subst. exact Hc.
  - inversion Hc; subst. eapply IH. eassumption.
Qed.

Lemma chain_NoDup h x os : chain h x os -> List.NoDup os.
Proof.
  induction 1 as [|o s os Hs Hrest IH]; constructor; [|exact IH].
  intros Hin. apply in_split in Hin. destruct Hin as (l1 & l2 & ->).
  pose proof (chain_suffix _ _ _ _ _ Hrest) as Hsuf.
  assert (Hfull : chain h (Some o) (o :: l1 ++ o :: l2))
    by (econstructor; eassumption).
  pose proof (chain_det _ _ _ Hsuf _ Hfull) as Heq.
  apply (f_equal (@length nat)) in Heq. simpl in Heq. rewrite length_app in Heq.
  simpl in Heq. lia.
Qed.

Lemma removedOf_NoDup h : forall os es, List.NoDup os -> List.NoDup (removedOf h es os).
Proof.
  induction os as [|o os IH]; intros es Hnd; cbn [removedOf]; [constructor|].
  destruct es as [|e es]; [exact Hnd|].
  inversion Hnd as [|? ? Hnotin Hnd']; subst.
  unfold removedAt. destruct (sameTypeOf _ _); simpl.
  - apply IH. exact Hnd'.
  - constructor; [|apply IH; exact Hnd'].
    intros Hin. apply Hnotin. eapply removedOf_In. exact Hin.
Qed.

(** The new units form a chain. *)
Lemma new_chain h n len :
  (forall k, k < len -> fld sibling h (n + k) = Some (nextNew n len k)) ->
  forall j k, k + j = len ->
    chain h (match j with O => None | S _ => Some (n + k) end) (seq (n + k) j).
Proof.
  intros Hsib. induction j as [|j IH]; intros k Hk; simpl; [constructor|].
  apply chain_cons with (s := nextNew n len k).
  - apply Hsib. lia.
  - specialize (IH (S k) ltac:(lia)). unfold nextNew.
    replace (n + S k) with (S (n + k)) in IH by lia.
    destruct j as [|j'].
    + replace (S k <? len)%nat with false by (symmetry; apply Nat.ltb_ge; lia).
      exact IH.
    + replace (S k <? len)%nat with true by (symmetry; apply Nat.ltb_lt; lia).
      replace (n + S k) with (S (n + k)) by lia. exact IH.
Qed.

Lemma ty_eqb_eq a b : ty_eqb a b = true <-> a = b.
Proof.
  destruct a, b; simpl; split; intros H; try discriminate.
  - apply String.eqb_eq in H. congruence.
  - injection H as ->. apply String.eqb_refl.
  - apply Nat.eqb_eq in H. congruence.
  - injection H as ->. apply Nat.eqb_refl.
Qed.

Lemma sameTypeOf_true old e :
  sameTypeOf (Some old) (Some e) = true <-> type old = Some (etype e).
Proof.
  unfold sameTypeOf. destruct (type old) as [t|].
  - rewrite ty_eqb_eq. split; congruence.
  - split; discriminate.
Qed.

(** The new chain after a call on a parent that had no child yet. *)
Lemma reconcilePost_chain p pf es os h ds m' :
  h !! p = Some pf -> child pf = None ->
  reconcilePost p es os h ds m' ->
  fld child (fibers m') p = Some (firstNew (length h) es) /\
  chain (fibers m') (firstNew (length h) es) (seq (length h) (length es)).
Proof.
  intros Hp Hfresh (Hlen & Hdel & Hold & Hnew).
  assert (Hplt : p < length h) by (eapply lookup_lt_Some; eauto).
  split.
  - destruct (Hold p Hplt) as (_ & Hch & _). rewrite Hch, Nat.eqb_refl.
    unfold fld. rewrite Hp. simpl. rewrite Hfresh.
    destruct es, os; reflexivity.
  - pose proof (new_chain (fibers m') (length h) (length es)) as Hc.
    specialize (Hc ltac:(
      intros k Hk; destruct (lookup_lt_is_Some_2 es k Hk) as [e He];
      unfold fld; rewrite (Hnew k e He); reflexivity) (length es) 0 eq_refl).
    rewrite Nat.add_0_r in Hc. destruct es; exact Hc.
Qed.

Lemma removedOf_unmatched h o : forall os es,
  In o (removedOf h es os) <-> exists k, unmatched h es os k o.
Proof.
  unfold unmatched. induction os as [|a os IH]; intros es; cbn [removedOf].
  - split; [intros [] | intros (k & Hk & _); rewrite lookup_nil in Hk; discriminate].
  - destruct es as [|e es].
    + split.
      * intros Hin. apply list_elem_of_In, list_elem_of_lookup_1 in Hin.
        destruct Hin as [k Hk]. exists k. split; [exact Hk|].
        rewrite lookup_nil. destruct (h !! o); reflexivity.
      * intros (k & Hk & _). apply list_elem_of_In.
        eapply list_elem_of_lookup_2. exact Hk.
    + rewrite in_app_iff, IH. unfold removedAt, oldRecord. split.
      * intros [Hin|(k & Hk & Hs)].
        -- destruct (sameTypeOf (h !! a) (Some e)) eqn:E; [destruct Hin|].
           destruct Hin as [->|[]]. exists 0. split; [reflexivity | exact E].
        -- exists (S k). split; assumption.
      * intros ([|k] & Hk & Hs).
        -- simpl in Hk, Hs. injection Hk as ->. left. rewrite Hs. left. reflexivity.
        -- right. exists k. split; assumption.
Qed.

Lemma lookup_seq_next n len k : seq n len !! S k = nextNew n len k.
Proof.
  unfold nextNew. destruct (Nat.ltb_spec (S k) len) as [Hlt|Hge].
  - apply lookup_seq_lt. exact Hlt.
  - apply lookup_seq_ge. exact Hge.
Qed.

(** C1.  One call of [reconcileChildren], position by position.  [news] is the
    new chain, from the parent's [child] on.  Where the old unit and the
    element have the same type, the unit made is an [UPDATE] unit with the old
    unit's [type] and [dom], the element's props, and the old unit as
    [alternate]; an element without such an old unit gets a [PLACEMENT] unit
    with no [dom] and no [alternate]; an old unit without such an element is
    tagged [DELETION], is in the pending deletions, and is not in the new
    chain. *)
Theorem reconcileChildren_by_position fuel p pf es os ds m :
  reconcilePre fuel p pf es os ds m ->
  child pf = None ->
  exists m' news ds',
    reconcileChildren fuel p (map Some es) m = Ok tt m' /\
    fld child (fibers m') p = Some (head news) /\
    chain (fibers m') (head news) news /\
    deletions m' = Some ds' /\
    (forall k e o old,
        es !! k = Some e -> os !! k = Some o -> fibers m !! o = Some old ->
        type old = Some (etype e) ->
        exists u, news !! k = Some u /\
                  fibers m' !! u =
                  Some (Fiber (type old) (eprops e) (dom old) (Some p) None
                              (news !! S k) (Some o) (Some UPDATE) None)) /\
    (forall k e,
        es !! k = Some e ->
        (forall o old, os !! k = Some o -> fibers m !! o = Some old ->
                       type old <> Some (etype e)) ->
        exists u, news !! k = Some u /\
                  fibers m' !! u =
                  Some (Fiber (Some (etype e)) (eprops e) None (Some p) None
                              (news !! S k) None (Some PLACEMENT) None)) /\
    (forall k o old,
        os !! k = Some o -> fibers m !! o = Some old ->
        (forall e, es !! k = Some e -> type old <> Some (etype e)) ->
        fld effectTag (fibers m') o = Some (Some DELETION) /\
        In o ds' /\ ~ In o news).
Proof.
  intros Hpre Hfresh.
  destruct (reconcileChildren_run fuel p pf es os ds m Hpre)
    as (m' & Hrun & _ & Hpost).
  destruct Hpre as (Hp & _ & Hchain & _ & _).
  destruct (reconcilePost_chain p pf es os _ ds m' Hp Hfresh Hpost)
    as [Hchild Hnews].
  destruct Hpost as (Hlen & Hdel & Hold & Hnew).
  set (h := fibers m) in *. set (n := length h) in *.
  assert (Hhead : head (seq n (length es)) = firstNew n es)
    by (destruct es; reflexivity).
  exists m', (seq n (length es)), (ds ++ removedOf h es os).
  rewrite Hhead.
  split; [exact Hrun|]. split; [exact Hchild|]. split; [exact Hnews|].
  split; [exact Hdel|]. split; [|split].
  - intros k e o old He Ho Hold' Hty. exists (n + k).
    split; [apply lookup_seq_lt; eapply lookup_lt_Some; eauto|].
    rewrite (Hnew k e He), lookup_seq_next, Ho.
    unfold unitFor, oldRecord. rewrite Hold'.
    apply sameTypeOf_true in Hty. rewrite Hty. reflexivity.
  - intros k e He Hno. exists (n + k).
    split; [apply lookup_seq_lt; eapply lookup_lt_Some; eauto|].
    rewrite (Hnew k e He), lookup_seq_next.
    unfold unitFor, oldRecord.
    destruct (os !! k) as [o|] eqn:Ho; [|reflexivity].
    destruct (h !! o) as [old|] eqn:Hold'; [|reflexivity].
    destruct (sameTypeOf (Some old) (Some e)) eqn:Hs; [|reflexivity].
    apply sameTypeOf_true in Hs. exfalso. exact (Hno o old eq_refl Hold' Hs).
  - intros k o old Ho Hold' Hno.
    assert (Hin : In o (removedOf h es os)).
    { apply removedOf_unmatched. exists k. split; [exact Ho|].
      rewrite Hold'. destruct (es !! k) as [e|] eqn:He.
      - destruct (sameTypeOf (Some old) (Some e)) eqn:Hs; [|reflexivity].
        apply sameTypeOf_true in Hs. exfalso. exact (Hno e eq_refl Hs).
      - destruct old; reflexivity. }
    assert (Hlt : o < n) by (eapply lookup_lt_Some; eauto).
    split; [|split].
    + destruct (Hold o Hlt) as (_ & _ & _ & Ht). rewrite Ht.
      apply inb_In in Hin. rewrite Hin. reflexivity.
    + apply in_or_app. right. exact Hin.
    + intros Hseq. apply in_seq in Hseq. lia.
Qed.

(** *** Null entries *)

(** [reconcileChildren] up to its loop: the loop starts at the head of the old
    chain. *)
Lemma reconcileChildren_enter fuel p pf elements m :
  fibers m !! p = Some pf ->
  (forall a, alternate pf = Some a -> is_Some (fibers m !! a)) ->
  reconcileChildren fuel p elements m =
  reconcileLoop fuel p elements 0 (oldHead (fibers m) pf) None m.
Proof.
  intros Hp Halt. unfold reconcileChildren.
  rewrite (bind_eq _ _ _ _ _ (getFiber_eq _ _ _ Hp)).
  unfold oldHead. destruct (alternate pf) as [a|].
  - destruct (Halt a eq_refl) as [af Haf]. rewrite Haf.
    assert (Hread : (let! af := getFiber a in ret (child af)) m = Ok (child af) m)
      by (rewrite (bind_eq _ _ _ _ _ (getFiber_eq _ _ _ Haf)); reflexivity).
    rewrite (bind_eq _ _ _ _ _ Hread). reflexivity.
  - reflexivity.
Qed.

(** One turn of the loop at a position whose element is [null] or missing, up
    to the linking. *)
Lemma turn_none p elements i x os prev m ds k :
  mjoin (elements !! i) = None ->
  (i <? length elements)%nat || isSome x = true ->
  chain (fibers m) x os ->
  deletions m = Some ds ->
  reconcileLoop (S k) p elements i x prev m =
  (linkUnit p i None prev None ;;;
   reconcileLoop k p elements (S i) (nextOf (fibers m) x) None)
    (withDeletions (Some (ds ++ removedAt (fibers m) x None))
       (withFibers (tagAll (removedAt (fibers m) x None) (fibers m)) m)).
Proof.
  intros He Hgo Hchain Hds. cbn [reconcileLoop]. rewrite Hgo, He.
  destruct x as [o|].
  - destruct (chain_is_Some _ _ _ Hchain) as [f Hf].
    rewrite (bind_eq _ _ _ _ _ (readOld_run _ _ _ Hf)).
    rewrite (bind_eq _ _ _ _ _ (createUnit_none _ _ _ _)).
    replace (sameTypeOf (Some f) None) with false by (destruct f; reflexivity).
    rewrite (bind_eq _ _ _ _ _ (markDeletion_run _ _ _ _ Hf Hds)).
    match goal with
    | |- bind (advanceOld _) _ ?m1 = _ =>
        assert (Hf' : fibers m1 !! o = Some (setEffectTag (Some DELETION) f))
    end.
    { simpl. rewrite list_lookup_alter_eq, Hf. reflexivity. }
    rewrite (bind_eq _ _ _ _ _ (advanceOld_run _ _ _ Hf')).
    unfold removedAt, nextOf. cbn [oldRecord]. rewrite Hf.
    replace (sameTypeOf (Some f) None) with false by (destruct f; reflexivity).
    reflexivity.
  - unfold ret at 1. unfold bind at 1.
    rewrite (bind_eq _ _ _ _ _ (createUnit_none _ _ _ _)).
    unfold markDeletion at 1, advanceOld at 1. unfold bind at 1, ret at 1.
    unfold bind at 1. unfold ret at 1.
    unfold removedAt, nextOf. cbn [tagAll fold_left]. rewrite app_nil_r.
    rewrite with_id by exact Hds. reflexivity.
Qed.

Lemma mjoin_past (es : list element) k j :
  length es <= j -> mjoin ((map Some es ++ repeat None k) !! j) = None.
Proof.
  intros Hj. rewrite lookup_app_r by (rewrite length_map; exact Hj).
  destruct (repeat None k !! (j - length (map Some es))) as [x|] eqn:E;
    [|reflexivity].
  apply list_elem_of_lookup_2, list_elem_of_In, repeat_spec in E. subst x.
  reflexivity.
Qed.

Lemma mjoin_nulls (es : list element) k j :
  mjoin ((map Some es ++ repeat None k) !! j) = mjoin (map Some es !! j).
Proof.
  destruct (Nat.lt_ge_cases j (length es)) as [Hlt|Hge].
  - rewrite lookup_app_l by (rewrite length_map; exact Hlt). reflexivity.
  - rewrite mjoin_past by exact Hge.
    rewrite lookup_ge_None_2 by (rewrite length_map; exact Hge). reflexivity.
Qed.

(** Turns at positions past the first with no element and no old unit change
    nothing. *)
Lemma reconcileLoop_idle p elements : forall n fuel i prev m,
  i <> 0 ->
  (forall j, i <= j -> mjoin (elements !! j) = None) ->
  length elements - i <= n -> n < fuel ->
  reconcileLoop fuel p elements i None prev m = Ok tt m.
Proof.
  induction n as [|n IH]; intros fuel i prev m Hi Hnone Hlen Hfuel;
    (destruct fuel as [|k]; [lia|]); cbn [reconcileLoop].
  - replace (i <? length elements)%nat with false
      by (symmetry; apply Nat.ltb_ge; lia).
    reflexivity.
  - destruct (i <? length elements)%nat eqn:Hlt; [|reflexivity].
    cbn [orb]. rewrite (Hnone i (le_n i)).
    destruct i as [|j]; [congruence|].
    unfold ret at 1. unfold bind at 1.
    rewrite (bind_eq _ _ _ _ _ (createUnit_none _ _ _ _)).
    cbn [markDeletion advanceOld].
    unfold ret at 1. unfold bind at 1. unfold ret at 1. unfold bind at 1.
    rewrite (bind_eq _ _ _ _ _ (linkUnit_skip _ _ _ _ _)).
    apply IH; [discriminate|intros j' Hj'; apply Hnone; lia| |lia].
    apply Nat.ltb_lt in Hlt. lia.
Qed.

Lemma bind_sim {A B} (c : M A) (k1 k2 : A -> M B) m :
  (forall a m1, c m = Ok a m1 -> k2 a m1 <> Abort -> k1 a m1 = k2 a m1) ->
  bind c k2 m <> Abort -> bind c k1 m = bind c k2 m.
Proof.
  unfold bind. destruct (c m) as [a m1|m1|]; intros Hk H; [|reflexivity|congruence].
  apply Hk; [reflexivity|exact H].
Qed.

(** Null entries after the elements change nothing, unless the sequence holds
    nothing else and there is no old unit: the loop on the longer sequence
    ends as the loop on the elements does. *)
Lemma reconcileLoop_nulls p (es : list element) k : forall fuel2 fuel1 i x prev m,
  reconcileLoop fuel2 p (map Some es) i x prev m <> Abort ->
  fuel2 + k <= fuel1 ->
  i <> 0 \/ es <> [] \/ x <> None ->
  reconcileLoop fuel1 p (map Some es ++ repeat None k) i x prev m =
  reconcileLoop fuel2 p (map Some es) i x prev m.
Proof.
  induction fuel2 as [|n IH]; intros fuel1 i x prev m Hrun Hfuel Hcase;
    [exfalso; apply Hrun; reflexivity|].
  destruct fuel1 as [|n1]; [lia|].
  destruct ((i <? length (map Some es))%nat || isSome x) eqn:Hc.
  - cbn [reconcileLoop] in *. rewrite Hc in *. rewrite mjoin_nulls.
    replace ((i <? length (map Some es ++ repeat None k))%nat || isSome x) with true.
    2:{ symmetry. apply orb_true_iff in Hc. apply orb_true_iff.
        destruct Hc as [Hc|Hc]; [left|right; exact Hc].
        apply Nat.ltb_lt in Hc. apply Nat.ltb_lt. rewrite length_app. lia. }
    cbv zeta in *.
    apply bind_sim; [|exact Hrun]. intros old m1 _ H1.
    apply bind_sim; [|exact H1]. intros new m2 _ H2.
    apply bind_sim; [|exact H2]. intros [] m3 _ H3.
    apply bind_sim; [|exact H3]. intros x' m4 _ H4.
    apply bind_sim; [|exact H4]. intros [] m5 _ H5.
    apply IH; [exact H5|lia|left; discriminate].
  - assert (E : reconcileLoop (S n) p (map Some es) i x prev m = Ok tt m)
      by (cbn [reconcileLoop]; rewrite Hc; reflexivity).
    rewrite E.
    apply orb_false_iff in Hc. destruct Hc as [Hlt Hx].
    destruct x as [o|]; [discriminate Hx|].
    apply Nat.ltb_ge in Hlt. rewrite length_map in Hlt.
    destruct (Nat.eq_dec i 0) as [->|Hi].
    { exfalso. destruct Hcase as [H|[H|H]]; [congruence| |congruence].
      destruct es; [congruence|simpl in Hlt; lia]. }
    apply (reconcileLoop_idle p _ k).
    + exact Hi.
    + intros j Hj. apply mjoin_past. lia.
    + rewrite length_app, length_map, repeat_length. lia.
    + lia.
Qed.

(** An element after a [null]: the call does not return. *)
Lemma reconcileLoop_null_gap p elements j e :
  elements !! j = Some None -> elements !! S j = Some (Some e) ->
  forall fuel i x prev m r m', i <= j ->
  reconcileLoop fuel p elements i x prev m <> Ok r m'.
Proof.
  intros Hnull Helem.
  assert (Hlen : S j < length elements) by (eapply lookup_lt_Some; eauto).
  assert (Hturn : forall fuel x m r m',
             reconcileLoop fuel p elements (S j) x None m <> Ok r m').
  { intros fuel x m r m' H. destruct fuel as [|n]; [discriminate H|].
    cbn [reconcileLoop] in H.
    replace (S j <? length elements)%nat with true in H
      by (symmetry; apply Nat.ltb_lt; exact Hlen).
    cbn [orb] in H. rewrite Helem in H. cbn [mjoin option_join] in H. cbv zeta in H.
    apply bind_Ok in H. destruct H as (old & m1 & _ & H).
    apply bind_Ok in H. destruct H as (new & m2 & _ & H).
    apply bind_Ok in H. destruct H as ([] & m3 & _ & H).
    apply bind_Ok in H. destruct H as (x' & m4 & _ & H).
    apply bind_Ok in H. destruct H as ([] & m5 & H & _).
    unfold linkUnit in H. cbn [Nat.eqb isSome deref] in H.
    unfold bind, throw in H. discriminate H. }
  induction fuel as [|n IH]; intros i x prev m r m' Hi H; [discriminate H|].
  cbn [reconcileLoop] in H.
  replace (i <? length elements)%nat with true in H
    by (symmetry; apply Nat.ltb_lt; lia).
  cbn [orb] in H. cbv zeta in H.
  apply bind_Ok in H. destruct H as (old & m1 & _ & H).
  apply bind_Ok in H. destruct H as (new & m2 & Hnew & H).
  apply bind_Ok in H. destruct H as ([] & m3 & _ & H).
  apply bind_Ok in H. destruct H as (x' & m4 & _ & H).
  apply bind_Ok in H. destruct H as ([] & m5 & _ & H).
  destruct (Nat.eq_dec i j) as [->|Hne].
  - rewrite Hnull in Hnew. cbn [mjoin option_join] in Hnew.
    rewrite createUnit_none in Hnew. injection Hnew as <- <-.
    exact (Hturn _ _ _ _ _ H).
  - apply (IH (S i) x' new m5 r m'); [lia|exact H].
Qed.

Lemma reconcileChildren_null_gap elements j e :
  elements !! j = Some None -> elements !! S j = Some (Some e) ->
  forall fuel p m r m', reconcileChildren fuel p elements m <> Ok r m'.
Proof.
  intros Hnull Helem fuel p m r m' H. unfold reconcileChildren in H.
  apply bind_Ok in H. destruct H as (wf & m1 & _ & H).
  apply bind_Ok in H. destruct H as (x & m2 & _ & H).
  exact (reconcileLoop_null_gap p elements j e Hnull Helem _ _ _ _ _ _ _
           (Nat.le_0_l j) H).
Qed.

(** A sequence has its [null] entries after its elements, or a [null] entry
    with an element next. *)
Lemma nulls_last_or_gap (elements : list (option element)) :
  (exists es k, elements = map Some es ++ repeat None k) \/
  (exists j e, elements !! j = Some None /\ elements !! S j = Some (Some e)).
Proof.
  induction elements as [|[e|] rest IH].
  - left. exists [], 0. reflexivity.
  - destruct IH as [(es & k & ->)|(j & e' & H1 & H2)].
    + left. exists (e :: es), k. reflexivity.
    + right. exists (S j), e'. auto.
  - destruct IH as [(es & k & ->)|(j & e' & H1 & H2)].
    + destruct es as [|e es].
      * left. exists [], (S k). reflexivity.
      * right. exists 0, e. auto.
    + right. exists (S j), e'. auto.
Qed.

Lemma alter_setChild_same c p (h : list fiber) pf :
  h !! p = Some pf -> child pf = c -> alter (setChild c) p h = h.
Proof.
  intros Hp Hc. apply list_eq. intros i. rewrite list_lookup_alter.
  case_decide; [subst i|reflexivity]. rewrite Hp. simpl. f_equal.
  destruct pf; simpl in *; subst; reflexivity.
Qed.

(** The call on a sequence of elements followed by [null] entries, on a
    parent that has no child yet. *)
Lemma reconcileChildren_run_nulls fuel p pf es k os ds m :
  reconcilePre fuel p pf es os ds m -> child pf = None ->
  exists m', reconcileChildren (fuel + k) p (map Some es ++ repeat None k) m
             = Ok tt m' /\
             reconcilePost p es os (fibers m) ds m'.
Proof.
  intros Hpre Hfresh.
  destruct (reconcileChildren_run fuel p pf es os ds m Hpre)
    as (m' & Hrun & _ & Hpost).
  destruct Hpre as (Hp & Halt & Hchain & Hds & Hfuel).
  rewrite (reconcileChildren_enter _ _ _ _ _ Hp Halt) in Hrun.
  rewrite (reconcileChildren_enter _ _ _ _ _ Hp Halt).
  assert (Hcase : (es <> [] \/ oldHead (fibers m) pf <> None) \/
                  (es = [] /\ os = [])).
  { destruct es as [|e es]; [|left; left; discriminate].
    inversion Hchain; subst; [right; split; reflexivity|left; right; discriminate]. }
  destruct Hcase as [Hsome|[-> ->]].
  - exists m'. split; [|exact Hpost]. rewrite <- Hrun.
    apply reconcileLoop_nulls; [rewrite Hrun; discriminate|lia|right; exact Hsome].
  - inversion Hchain as [Hx|]; subst. clear Hrun Hpost m'.
    destruct k as [|k].
    + exists m. split.
      * destruct fuel as [|n]; [simpl in Hfuel; lia|]. reflexivity.
      * unfold reconcilePost. simpl. rewrite Nat.add_0_r, app_nil_r.
        split; [reflexivity|]. split; [exact Hds|]. split.
        -- intros r _. rewrite andb_false_r. auto.
        -- intros j e He. rewrite lookup_nil in He. discriminate.
    + exists (withFibers (alter (setChild None) p (fibers m)) m). split.
      * rewrite Nat.add_succ_r.
        rewrite (turn_none p (map Some [] ++ repeat None (S k)) 0 None [] None m
                   ds (fuel + k) eq_refl eq_refl (chain_nil _) Hds).
        unfold removedAt, nextOf. cbn [oldRecord tagAll fold_left].
        rewrite app_nil_r, with_id by exact Hds.
        rewrite (bind_eq _ _ _ _ _ (linkUnit_first _ _ _ _ _ _ Hp)).
        apply (reconcileLoop_idle p _ k).
        -- discriminate.
        -- intros j Hj. apply (mjoin_past [] (S k) j). simpl. lia.
        -- simpl. rewrite repeat_length. lia.
        -- simpl in Hfuel. lia.
      * cbn [fibers withFibers].
        rewrite (alter_setChild_same None p _ pf Hp Hfresh).
        unfold reconcilePost. simpl. rewrite Nat.add_0_r, app_nil_r.
        split; [reflexivity|]. split; [destruct m; exact Hds|]. split.
        -- intros r _. rewrite andb_false_r. auto.
        -- intros j e He. rewrite lookup_nil in He. discriminate.
Qed.

(** What [reconcilePost] says of the new chain and of the pending deletions,
    for a parent that had no child yet and old units none of which was pending
    before the call. *)
Lemma reconcilePost_outcome p pf es os ds m m' :
  fibers m !! p = Some pf ->
  child pf = None ->
  chain (fibers m) (oldHead (fibers m) pf) os ->
  (forall o, In o os -> ~ In o ds) ->
  reconcilePost p es os (fibers m) ds m' ->
  exists news ds',
    fld child (fibers m') p = Some (head news) /\
    chain (fibers m') (head news) news /\
    length news = length es /\
    (forall u, In u news -> fibers m !! u = None /\ is_Some (fibers m' !! u)) /\
    deletions m' = Some ds' /\
    (forall o, In o ds' <->
               In o ds \/ exists k, unmatched (fibers m) es os k o) /\
    (forall k o, unmatched (fibers m) es os k o ->
                 count_occ Nat.eq_dec ds' o = 1 /\ ~ In o news).
Proof.
  intros Hp Hfresh Hchain Hdisj Hpost.
  destruct (reconcilePost_chain p pf es os _ ds m' Hp Hfresh Hpost)
    as [Hchild Hnews].
  destruct Hpost as (Hlen & Hdel & Hold & Hnew).
  set (h := fibers m) in *. set (n := length h) in *.
  assert (Hhead : head (seq n (length es)) = firstNew n es)
    by (destruct es; reflexivity).
  exists (seq n (length es)), (ds ++ removedOf h es os).
  rewrite Hhead.
  split; [exact Hchild|]. split; [exact Hnews|].
  split; [apply length_seq|]. split; [|split; [exact Hdel|split]].
  - intros u Hu. apply in_seq in Hu. split.
    + apply lookup_ge_None. fold n. lia.
    + apply lookup_lt_is_Some. rewrite Hlen. lia.
  - intros o. rewrite in_app_iff, removedOf_unmatched. reflexivity.
  - intros k o Hun.
    assert (Hin : In o (removedOf h es os))
      by (apply removedOf_unmatched; eauto).
    assert (Hos : In o os) by (eapply removedOf_In; eauto).
    split.
    + rewrite count_occ_app.
      rewrite (proj1 (count_occ_not_In Nat.eq_dec ds o) (Hdisj o Hos)).
      apply NoDup_count_occ'; [|exact Hin].
      apply removedOf_NoDup. eapply chain_NoDup. exact Hchain.
    + intros Hseq. apply in_seq in Hseq.
      pose proof (chain_lt _ _ _ Hchain) as Hlt. rewrite Forall_forall in Hlt.
      apply list_elem_of_In, Hlt in Hos. fold n in Hos. lia.
Qed.

(** C7 (as amended).  The entries of the sequence handed to
    [reconcileChildren] are elements or [null].  A call returns only on a
    sequence whose [null] entries all come after its elements: with an element
    after a [null] the call ends by an exception.  On such a sequence, for a
    parent with no child yet, a finite old chain none of whose units is
    pending, and a pending-deletions collection, the call returns; the
    parent's [child] then starts a chain of units that did not exist before
    the call, as long as the number of elements (a [null] entry makes no
    unit); and every old unit removed (one at a position with no element of
    its type) occurs once in the pending deletions. *)
Theorem reconcileChildren_chain :
  (forall fuel p elements m r m',
     reconcileChildren fuel p elements m = Ok r m' ->
     exists es k, elements = map Some es ++ repeat None k) /\
  (forall fuel p pf es k os ds m,
     reconcilePre fuel p pf es os ds m ->
     child pf = None ->
     (forall o, In o os -> ~ In o ds) ->
     exists m' news ds',
       reconcileChildren (fuel + k) p (map Some es ++ repeat None k) m
       = Ok tt m' /\
       fld child (fibers m') p = Some (head news) /\
       chain (fibers m') (head news) news /\
       length news = length es /\
       (forall u, In u news -> fibers m !! u = None /\ is_Some (fibers m' !! u)) /\
       deletions m' = Some ds' /\
       (forall o, In o ds' <->
                  In o ds \/ exists k, unmatched (fibers m) es os k o) /\
       (forall k o, unmatched (fibers m) es os k o ->
                    count_occ Nat.eq_dec ds' o = 1 /\ ~ In o news)).
Proof.
  split.
  - intros fuel p elements m r m' Hrun.
    destruct (nulls_last_or_gap elements) as [H|(j & e & Hnull & Helem)];
      [exact H|].
    exfalso.
    exact (reconcileChildren_null_gap elements j e Hnull Helem _ _ _ _ _ Hrun).
  - intros fuel p pf es k os ds m Hpre Hfresh Hdisj.
    destruct (reconcileChildren_run_nulls fuel p pf es k os ds m Hpre Hfresh)
      as (m' & Hrun & Hpost).
    destruct Hpre as (Hp & _ & Hchain & _ & _).
    destruct (reconcilePost_outcome p pf es os ds m m' Hp Hfresh Hchain Hdisj Hpost)
      as (news & ds' & H).
    exists m', news, ds'. split; [exact Hrun|exact H].
Qed.

Lemma commitRoot_fibers fuel m m' :
  commitRoot fuel m = Ok tt m' -> fibers m' = fibers m.
Proof.
  unfold commitRoot. intros H. ok_inv.
  match goal with
  | E1 : forEach _ _ _ = Ok _ _, E2 : commitWork _ _ _ = Ok _ _ |- _ =>
      apply keeps_forEach in E1; [|intros ?; apply keeps_commitWork];
      apply keeps_commitWork in E2;
      destruct E1 as (?&_), E2 as (?&_)
  end.
  simpl. congruence.
Qed.

Lemma unitFor_effectTag h p x e :
  effectTag (unitFor h p x e) = Some UPDATE \/
  effectTag (unitFor h p x e) = Some PLACEMENT.
Proof.
  unfold unitFor. destruct (oldRecord h x); [destruct (sameTypeOf _ _)|]; auto.
Qed.

(** *** The [effectTag] of a unit: who assigns it *)

Lemma pres_weaken (R R' : machine -> machine -> Prop) {A} (c : M A) :
  (forall m m', R m m' -> R' m m') -> pres R c -> pres R' c.
Proof. intros HR Hc m m' H. apply HR, Hc, H. Qed.

Section Splits.

Variables R P : machine -> machine -> Prop.
Hypothesis R_refl : forall m, R m m.
Hypothesis R_trans : forall m1 m2 m3, R m1 m2 -> R m2 m3 -> R m1 m3.

Lemma splits_bind {A B} (c : M A) (k : A -> M B) :
  pres R c -> (forall a, splits R P (k a)) -> splits R P (bind c k).
Proof.
  intros Hc Hk m m' H. apply ends_bind in H.
  destruct H as [(a & m1 & E & H)|E].
  - destruct (Hk a m1 m' H) as (m2 & H2 & Hend).
    exists m2. split; [|exact Hend].
    apply R_trans with m1; [|exact H2]. apply (Hc m m1). rewrite E. reflexivity.
  - exists m'. split; [|left; reflexivity]. apply (Hc m m'). rewrite E. reflexivity.
Qed.

Lemma splits_end {A} (c : M A) :
  (forall m m', ends (c m) m' -> P m m') -> splits R P c.
Proof. intros Hc m m' H. exists m. split; [apply R_refl|right; apply Hc, H]. Qed.

Lemma splits_pres {A} (c : M A) : pres R c -> splits R P c.
Proof. intros Hc m m' H. exists m'. split; [apply Hc, H|left; reflexivity]. Qed.

Lemma splits_then {A B} (c : M A) (k : A -> M B) :
  splits R P c -> (forall a, pres unchanged (k a)) -> splits R P (bind c k).
Proof.
  intros Hc Hk m m' H. apply ends_bind in H.
  destruct H as [(a & m1 & E & H)|E].
  - apply Hk in H. unfold unchanged in H. subst m'.
    apply (Hc m m1). rewrite E. reflexivity.
  - apply (Hc m m'). rewrite E. reflexivity.
Qed.

End Splits.

Lemma unchanged_refl m : unchanged m m.
Proof. reflexivity. Qed.

Lemma unchanged_trans m1 m2 m3 : unchanged m1 m2 -> unchanged m2 m3 -> unchanged m1 m3.
Proof. unfold unchanged. congruence. Qed.

Lemma unchanged_nextFiberLoop fuel : forall x, pres unchanged (nextFiberLoop fuel x).
Proof.
  induction fuel as [|k IH]; intros x; cbn [nextFiberLoop].
  - apply pres_abort.
  - destruct x as [r|]; [|apply pres_ret, unchanged_refl].
    apply pres_bind; [exact unchanged_trans|apply pres_getFiber, unchanged_refl|].
    intros f. destruct (sibling f); [apply pres_ret, unchanged_refl|apply IH].
Qed.

Lemma tagsKept_refl m : tagsKept m m.
Proof. intros r. reflexivity. Qed.

Lemma tagsKept_trans m1 m2 m3 : tagsKept m1 m2 -> tagsKept m2 m3 -> tagsKept m1 m3.
Proof. intros H1 H2 r. rewrite H2. apply H1. Qed.

Lemma tagsKept_fibers m m' : fibers m' = fibers m -> tagsKept m m'.
Proof. intros H r. rewrite H. reflexivity. Qed.

Lemma tagsKept_hostOnly m m' : hostOnly m m' -> tagsKept m m'.
Proof. intros (H & _). apply tagsKept_fibers. exact H. Qed.

Lemma tagsStep_refl m : tagsStep m m.
Proof. intros r. destruct (fld effectTag (fibers m) r); auto. Qed.

Lemma tagsStep_trans m1 m2 m3 : tagsStep m1 m2 -> tagsStep m2 m3 -> tagsStep m1 m3.
Proof.
  intros H1 H2 r. specialize (H1 r). specialize (H2 r).
  destruct (fld effectTag (fibers m1) r) as [t|].
  - destruct H1 as [H1|H1]; rewrite H1 in H2; destruct H2 as [H2|H2]; auto.
  - destruct H1 as [H1|[H1|[H1|H1]]]; rewrite H1 in H2.
    + exact H2.
    + destruct H2 as [H2|H2]; auto.
    + destruct H2 as [H2|H2]; auto.
    + destruct H2 as [H2|H2]; auto.
Qed.

Lemma tagsStep_kept m m' : tagsKept m m' -> tagsStep m m'.
Proof.
  intros H r. rewrite (H r). destruct (fld effectTag (fibers m) r); auto.
Qed.

Lemma kept_updFiber r g :
  (forall f, effectTag (g f) = effectTag f) -> pres tagsKept (updFiber r g).
Proof.
  intros Hg m m'. unfold updFiber.
  destruct (fibers m !! r) as [f|] eqn:Hf; simpl; intros H; [|destruct H].
  subst m'. intros r'. cbn [fibers withFibers]. unfold fld.
  destruct (decide (r = r')) as [<-|Hne].
  - rewrite list_lookup_insert_eq by (eapply lookup_lt_Some; eauto).
    rewrite Hf. simpl. rewrite Hg. reflexivity.
  - rewrite list_lookup_insert_ne by exact Hne. reflexivity.
Qed.

Lemma kept_updHook h g : pres tagsKept (updHook h g).
Proof.
  intros m m'. unfold updHook. destruct (hookStore m !! h); simpl; intros H;
    [subst; intros r; reflexivity | destruct H].
Qed.

Lemma kept_newHook x : pres tagsKept (newHook x).
Proof. intros m m' H. simpl in H. subst. intros r. reflexivity. Qed.

Lemma kept_of_only {A} (c : M A) : pres hostOnly c -> pres tagsKept c.
Proof. apply pres_weaken. exact tagsKept_hostOnly. Qed.

Create HintDb kept.
#[local] Hint Resolve tagsKept_refl tagsKept_trans kept_updHook kept_newHook : kept.

(** Goals [pres tagsKept c] for straight-line code. *)
Ltac kept_side := try exact tagsKept_refl; try exact tagsKept_trans.

Ltac kept_tac :=
  repeat first
    [ solve [auto with kept]
    | solve [apply kept_of_only; auto with only]
    | solve [apply kept_updFiber; intros ?; reflexivity]
    | apply pres_bind; kept_side; [|intros ?]
    | apply pres_forEach; kept_side; intros ?
    | solve [apply pres_ret; kept_side]
    | solve [apply pres_throw; kept_side]
    | solve [apply pres_abort]
    | solve [apply pres_gets; kept_side]
    | solve [apply pres_deref; kept_side]
    | solve [apply pres_getFiber; kept_side]
    | solve [apply pres_getHook; kept_side]
    | solve [apply pres_modify; intros ? ?; reflexivity]
    | match goal with
      | |- pres _ (match ?x with _ => _ end) => destruct x
      | |- pres _ (if ?b then _ else _) => destruct b
      | |- pres _ (let _ := _ in _) => cbv zeta
      end ].

Lemma kept_useState initial : pres tagsKept (useState initial).
Proof. unfold useState. kept_tac. Qed.

Lemma only_createDom f : pres hostOnly (createDom f).
Proof.
  unfold createDom, createTextNode, createElementNode. only_tac.
Qed.

Lemma kept_createDom f : pres tagsKept (createDom f).
Proof. apply kept_of_only, only_createDom. Qed.

Lemma kept_childrenOf p : pres tagsKept (childrenOf p).
Proof. unfold childrenOf. kept_tac. Qed.

(** The statements of [updateHostComponent] before its call of
    [reconcileChildren] assign no [effectTag]. *)
Lemma splits_updateHostComponent fuel r :
  splits tagsKept
    (fun m1 m' => exists elements, ends (reconcileChildren fuel r elements m1) m')
    (updateHostComponent fuel r).
Proof.
  unfold updateHostComponent.
  apply splits_bind; [exact tagsKept_trans|kept_tac|intros f].
  apply splits_bind; [exact tagsKept_trans| |intros _].
  { destruct (isSome (dom f)); [kept_tac|].
    apply pres_bind; [exact tagsKept_trans|apply kept_createDom|intros d].
    kept_tac. }
  apply splits_bind; [exact tagsKept_trans|kept_tac|intros f'].
  apply splits_bind; [exact tagsKept_trans|apply kept_childrenOf|intros elements].
  apply splits_end; [exact tagsKept_refl|]. intros m m' H. exists elements. exact H.
Qed.

Section TagsWalk.

Variable components : nat -> component.

(** The components assign no [effectTag]: they call [useState] and return. *)
Hypothesis components_kept : forall c p, pres tagsKept (components c p).

Lemma splits_updateFunctionComponent fuel r :
  splits tagsKept
    (fun m1 m' => exists elements, ends (reconcileChildren fuel r elements m1) m')
    (updateFunctionComponent components fuel r).
Proof.
  unfold updateFunctionComponent.
  do 6 (apply splits_bind; [exact tagsKept_trans|solve [kept_tac]|intros ?]).
  apply splits_bind; [exact tagsKept_trans| |intros result].
  { match goal with |- pres _ (match type ?f with _ => _ end) =>
      destruct (type f) as [[tag|c]|] end; kept_tac. }
  apply splits_end; [exact tagsKept_refl|]. intros m m' H. eexists. exact H.
Qed.

Lemma splits_performUnitOfWork fuel r :
  splits tagsKept
    (fun m1 m' => exists elements, ends (reconcileChildren fuel r elements m1) m')
    (performUnitOfWork components fuel r).
Proof.
  unfold performUnitOfWork.
  apply splits_bind; [exact tagsKept_trans|kept_tac|intros f].
  apply splits_then.
  - destruct (isFunctionComponent f);
      [apply splits_updateFunctionComponent|apply splits_updateHostComponent].
  - intros _.
    apply pres_bind; [exact unchanged_trans|apply pres_getFiber, unchanged_refl|].
    intros f'. destruct (child f'); [apply pres_ret, unchanged_refl|].
    apply unchanged_nextFiberLoop.
Qed.

End TagsWalk.

Lemma step_of_kept {A} (c : M A) : pres tagsKept c -> pres tagsStep c.
Proof. apply pres_weaken. exact tagsStep_kept. Qed.

Lemma step_newFiber u :
  effectTag u = Some UPDATE \/ effectTag u = Some PLACEMENT ->
  pres tagsStep (newFiber u).
Proof.
  intros Hu m m' H. simpl in H. subst m'. intros r. cbn [fibers withFibers].
  unfold fld. destruct (fibers m !! r) as [f|] eqn:Hf.
  - rewrite (lookup_app_l_Some _ _ _ _ Hf). simpl. auto.
  - apply lookup_ge_None in Hf. simpl.
    destruct (decide (r = length (fibers m))) as [->|Hne].
    + rewrite list_lookup_middle by reflexivity. simpl.
      destruct Hu as [-> | ->]; auto.
    + rewrite lookup_ge_None_2 by (rewrite length_app; simpl; lia). auto.
Qed.

Lemma step_delete o : pres tagsStep (updFiber o (setEffectTag (Some DELETION))).
Proof.
  intros m m'. unfold updFiber.
  destruct (fibers m !! o) as [f|] eqn:Hf; simpl; intros H; [|destruct H].
  subst m'. intros r. cbn [fibers withFibers]. unfold fld.
  destruct (decide (o = r)) as [<-|Hne].
  - rewrite list_lookup_insert_eq by (eapply lookup_lt_Some; eauto).
    rewrite Hf. simpl. auto.
  - rewrite list_lookup_insert_ne by exact Hne.
    destruct (fibers m !! r); simpl; auto.
Qed.

Create HintDb step.
#[local] Hint Resolve tagsStep_refl tagsStep_trans step_delete : step.

(** Goals [pres tagsStep c] for straight-line code. *)
Ltac step_side := try exact tagsStep_refl; try exact tagsStep_trans.

Ltac step_tac :=
  repeat first
    [ solve [auto with step]
    | solve [apply step_newFiber; auto]
    | solve [apply step_of_kept, kept_updFiber; intros ?; reflexivity]
    | apply pres_bind; step_side; [|intros ?]
    | solve [apply pres_ret; step_side]
    | solve [apply pres_throw; step_side]
    | solve [apply pres_abort]
    | solve [apply pres_gets; step_side]
    | solve [apply pres_deref; step_side]
    | solve [apply pres_getFiber; step_side]
    | solve [apply pres_modify; intros ?; apply tagsStep_kept; intros ?; reflexivity]
    | match goal with
      | |- pres _ (match ?x with _ => _ end) => destruct x
      | |- pres _ (if ?b then _ else _) => destruct b
      | |- pres _ (let _ := _ in _) => cbv zeta
      end ].

Lemma step_createUnit p x old e : pres tagsStep (createUnit p x old e).
Proof. unfold createUnit. step_tac. Qed.

Lemma step_markDeletion x b : pres tagsStep (markDeletion x b).
Proof. unfold markDeletion. step_tac. Qed.

Lemma step_advanceOld x : pres tagsStep (advanceOld x).
Proof. unfold advanceOld. step_tac. Qed.

Lemma step_linkUnit p i e prev new : pres tagsStep (linkUnit p i e prev new).
Proof. unfold linkUnit. step_tac. Qed.

#[local] Hint Resolve step_createUnit step_markDeletion step_advanceOld
  step_linkUnit : step.

Lemma step_reconcileLoop fuel : forall p elements i x prev,
  pres tagsStep (reconcileLoop fuel p elements i x prev).
Proof.
  induction fuel as [|k IH]; intros p elements i x prev; cbn [reconcileLoop].
  - apply pres_abort.
  - step_tac.
Qed.

Lemma step_reconcileChildren fuel p elements :
  pres tagsStep (reconcileChildren fuel p elements).
Proof. unfold reconcileChildren. step_tac. apply step_reconcileLoop. Qed.

Lemma commitRoot_throw_only fuel : forall m m',
  commitRoot fuel m = Throw m' -> hostOnly m m'.
Proof.
  unfold commitRoot.
  repeat (apply throw_bind_only; [solve [only_tac]|intros ?]).
  intros m m' H. discriminate H.
Qed.

Lemma commitRoot_ends_fibers fuel m m' :
  ends (commitRoot fuel m) m' -> fibers m' = fibers m.
Proof.
  destruct (commitRoot fuel m) as [[] m1|m1|] eqn:E; simpl; intros H;
    [| |destruct H]; subst m'.
  - apply (commitRoot_fibers fuel m m1 E).
  - apply (commitRoot_throw_only fuel m m1 E).
Qed.

Lemma render_ends element container m m' :
  ends (render element container m) m' ->
  exists root, fibers m' = fibers m ++ [root] /\ effectTag root = None.
Proof. intros H. simpl in H. subst m'. eexists. split; reflexivity. Qed.

Lemma setState_ends h action m m' :
  ends (setState h action m) m' ->
  fibers m' = fibers m \/
  exists root, fibers m' = fibers m ++ [root] /\ effectTag root = None.
Proof.
  unfold setState, bind, updHook, gets, deref, getFiber, newFiber, modify, ret, throw.
  destruct (hookStore m !! h); [|intros []]. unfold_with. simpl.
  destruct (currentRoot m) as [c|]; simpl; [|intros <-; left; reflexivity].
  destruct (fibers m !! c); simpl; [|intros []].
  intros <-. right. eexists. split; reflexivity.
Qed.

Section TagsLoop.

Variable components : nat -> component.
Hypothesis components_kept : forall c p, pres tagsKept (components c p).

Lemma step_performUnitOfWork fuel r :
  pres tagsStep (performUnitOfWork components fuel r).
Proof.
  intros m m' H.
  destruct (splits_performUnitOfWork components components_kept fuel r m m' H)
    as (m1 & Hk & [->|(elements & He)]).
  - apply tagsStep_kept. exact Hk.
  - apply tagsStep_trans with m1; [apply tagsStep_kept; exact Hk|].
    apply (step_reconcileChildren fuel r elements m1 m' He).
Qed.

Lemma step_workLoopWhile fuel deadline : forall k shouldYield,
  pres tagsStep (workLoopWhile components fuel deadline k shouldYield).
Proof.
  induction fuel as [|n IH]; intros k shouldYield; cbn [workLoopWhile].
  - apply pres_abort.
  - apply pres_bind; [exact tagsStep_trans|apply pres_gets, tagsStep_refl|intros next].
    destruct next as [u|]; [|apply pres_ret, tagsStep_refl].
    destruct (negb shouldYield); [|apply pres_ret, tagsStep_refl].
    apply pres_bind; [exact tagsStep_trans|apply step_performUnitOfWork|intros r].
    apply pres_bind; [exact tagsStep_trans| |intros _; apply IH].
    apply pres_modify. intros m. apply tagsStep_kept. intros x. reflexivity.
Qed.

Lemma step_workLoop fuel deadline :
  pres tagsStep (workLoop components fuel deadline).
Proof.
  unfold workLoop.
  apply pres_bind; [exact tagsStep_trans|apply step_workLoopWhile|intros _].
  apply pres_bind; [exact tagsStep_trans|apply pres_gets, tagsStep_refl|intros next].
  apply pres_bind; [exact tagsStep_trans|apply pres_gets, tagsStep_refl|intros w].
  destruct (negb (isSome next) && isSome w); [|apply pres_ret, tagsStep_refl].
  intros m m' H. apply tagsStep_kept, tagsKept_fibers.
  apply (commitRoot_ends_fibers fuel m m' H).
Qed.

End TagsLoop.

(** C6 (as amended).  A unit made by [reconcileChildren] has its [effectTag]
    ([UPDATE] or [PLACEMENT]) from its creation, in the reconciliation of its
    parent.  After that no operation of the engine, however it ends, assigns
    the [effectTag] of a unit that exists, except [reconcileChildren], and
    that assigns nothing but [DELETION]: on a sequence of elements, exactly to
    the old units that have no element of their type at their position.  So
    the commit engine assigns no field of any unit, also when it throws;
    [render] and the update capability only add a root, without [effectTag];
    [useState] assigns none; a unit of work ([performUnitOfWork], with
    components that assign none) assigns none outside its one call of
    [reconcileChildren]; and over a whole slice ([workLoop]) a unit keeps its
    [effectTag] or ends with [DELETION], a unit made in the slice having
    [UPDATE] or [PLACEMENT] unless deleted since. *)
Theorem effectTag_assignments :
  (forall fuel p pf es os ds m,
      reconcilePre fuel p pf es os ds m ->
      exists m',
        reconcileChildren fuel p (map Some es) m = Ok tt m' /\
        (forall r, r < length (fibers m) ->
           (exists k, unmatched (fibers m) es os k r) ->
           fld effectTag (fibers m') r = Some (Some DELETION)) /\
        (forall r, r < length (fibers m) ->
           ~ (exists k, unmatched (fibers m) es os k r) ->
           fld effectTag (fibers m') r = fld effectTag (fibers m) r) /\
        (forall r, length (fibers m) <= r -> r < length (fibers m') ->
           fld effectTag (fibers m') r = Some (Some UPDATE) \/
           fld effectTag (fibers m') r = Some (Some PLACEMENT))) /\
  (forall fuel p elements m m',
      ends (reconcileChildren fuel p elements m) m' -> tagsStep m m') /\
  (forall fuel m m', ends (commitRoot fuel m) m' -> fibers m' = fibers m) /\
  (forall element container m m',
      ends (render element container m) m' ->
      exists root, fibers m' = fibers m ++ [root] /\ effectTag root = None) /\
  (forall h action m m',
      ends (setState h action m) m' ->
      fibers m' = fibers m \/
      exists root, fibers m' = fibers m ++ [root] /\ effectTag root = None) /\
  (forall initial m m', ends (useState initial m) m' -> tagsKept m m') /\
  (forall components : nat -> component,
      (forall c p m m', ends (components c p m) m' -> tagsKept m m') ->
      forall fuel r m m',
        ends (performUnitOfWork components fuel r m) m' ->
        exists m1, tagsKept m m1 /\
                   (m' = m1 \/
                    exists elements,
                      ends (reconcileChildren fuel r elements m1) m')) /\
  (forall components : nat -> component,
      (forall c p m m', ends (components c p m) m' -> tagsKept m m') ->
      forall fuel deadline m m',
        ends (workLoop components fuel deadline m) m' -> tagsStep m m').
Proof.
  split; [|split; [|split; [|split; [|split; [|split; [|split]]]]]].
  - intros fuel p pf es os ds m Hpre.
    destruct (reconcileChildren_run fuel p pf es os ds m Hpre)
      as (m' & Hrun & _ & Hlen & _ & Hold & Hnew).
    exists m'. split; [exact Hrun|]. split; [|split].
    + intros r Hr Hun. destruct (Hold r Hr) as (_ & _ & _ & Ht). rewrite Ht.
      apply removedOf_unmatched, inb_In in Hun. rewrite Hun. reflexivity.
    + intros r Hr Hun. destruct (Hold r Hr) as (_ & _ & _ & Ht). rewrite Ht.
      destruct (inb r (removedOf (fibers m) es os)) eqn:E; [|reflexivity].
      exfalso. apply Hun. apply removedOf_unmatched, inb_In. exact E.
    + intros r Hge Hlt. rewrite Hlen in Hlt.
      destruct (lookup_lt_is_Some_2 es (r - length (fibers m))) as [e He]; [lia|].
      specialize (Hnew _ e He).
      replace (length (fibers m) + (r - length (fibers m))) with r in Hnew by lia.
      unfold fld. rewrite Hnew. simpl.
      destruct (unitFor_effectTag (fibers m) p
                  (os !! (r - length (fibers m))) e) as [-> | ->]; auto.
  - intros fuel p elements. apply step_reconcileChildren.
  - apply commitRoot_ends_fibers.
  - apply render_ends.
  - apply setState_ends.
  - intros initial. apply kept_useState.
  - intros components Hc fuel r. apply (splits_performUnitOfWork components Hc).
  - intros components Hc fuel deadline. apply (step_workLoop components Hc).
Qed.

(** The call of [reconcileChildren] made for the root of the generation that
    replaces [<App/>] by [<p/>] meets [reconcilePre]. *)
Lemma appReplaced_pre :
  reconcilePre 20 3 replacedRoot [createElement (TStr "p") [] []] [1] []
               (after (appReplaced (initial demoPage))).
Proof.
  unfold reconcilePre. split; [vm_compute; reflexivity|]. split.
  { intros a Ha. injection Ha as <-. vm_compute. eauto. }
  split.
  { replace (oldHead (fibers (after (appReplaced (initial demoPage)))) replacedRoot)
      with (Some 1) by (vm_compute; reflexivity).
    apply chain_cons with (s := None); [vm_compute; reflexivity | constructor]. }
  split; [vm_compute; reflexivity | simpl; lia].
Qed.

Lemma appUnit_type old :
  fibers (after (appReplaced (initial demoPage))) !! 1 = Some old ->
  type old = Some (TFun 0).
Proof. intros H. vm_compute in H. injection H as <-. reflexivity. Qed.

Lemma reconcileChildren_by_position_witness :
  let m := after (appReplaced (initial demoPage)) in
  exists m' news ds' u,
    reconcileChildren 20 3 [Some (createElement (TStr "p") [] [])] m = Ok tt m' /\
    deletions m' = Some ds' /\
    news !! 0 = Some u /\
    fibers m' !! u =
      Some (Fiber (Some (TStr "p")) [("children", VElems [])] None (Some 3) None
                  (news !! 1) None (Some PLACEMENT) None) /\
    fld effectTag (fibers m') 1 = Some (Some DELETION) /\
    In 1 ds' /\ ~ In 1 news.
Proof.
  intros m.
  destruct (reconcileChildren_by_position 20 3 replacedRoot
              [createElement (TStr "p") [] []] [1] [] m appReplaced_pre eq_refl)
    as (m' & news & ds' & Hrun & _ & _ & Hdel & _ & Hpl & Hdl).
  destruct (Hpl 0 (createElement (TStr "p") [] []) eq_refl) as (u & Hu & Hf).
  { intros o old Ho Hold. injection Ho as <-.
    rewrite (appUnit_type old Hold). discriminate. }
  destruct (lookup_lt_is_Some_2 (fibers m) 1) as [old Hold];
    [vm_compute; lia|].
  destruct (Hdl 0 1 old eq_refl Hold) as (Ht & Hin & Hnot).
  { intros e He. injection He as <-. rewrite (appUnit_type old Hold). discriminate. }
  exists m', news, ds', u. auto 10.
Defined.

Lemma reconcileChildren_chain_witness :
  let m := after (appReplaced (initial demoPage)) in
  let p := createElement (TStr "p") [] [] in
  (exists m' news ds',
     reconcileChildren 21 3 [Some p; None] m = Ok tt m' /\
     fld child (fibers m') 3 = Some (head news) /\
     chain (fibers m') (head news) news /\
     length news = 1 /\
     deletions m' = Some ds' /\
     count_occ Nat.eq_dec ds' 1 = 1) /\
  (exists m', reconcileChildren 21 3 [Some p; None] m = Ok tt m') /\
  (exists es k, [Some p; None] = map Some es ++ repeat None k).
Proof.
  intros m p.
  destruct (proj2 reconcileChildren_chain 20 3 replacedRoot [p] 1 [1] [] m
              appReplaced_pre eq_refl)
    as (m' & news & ds' & Hrun & Hchild & Hchain & Hlen & _ & Hdel & _ & Hcount).
  { intros o _ []. }
  destruct (Hcount 0 1) as [Hc _].
  { split; [reflexivity|]. vm_compute. reflexivity. }
  split; [exists m', news, ds'; auto 10|].
  split; [exists m'; exact Hrun|].
  exact (proj1 reconcileChildren_chain 21 3 [Some p; None] m tt m' Hrun).
Defined.

(** A call on the one entry [null], for the root of the generation that
    replaces [<App/>] by nothing, returns; the sequence has one entry, and the
    parent has no child: the chain is empty. *)
Lemma reconcileChildren_null_entry_no_unit :
  let m := after ((appCommitted ;;; render None (Some 0)) (initial demoPage)) in
  exists m',
    reconcileChildren 20 3 [None] m = Ok tt m' /\
    length [@None element] = 1 /\
    fld child (fibers m') 3 = Some None /\
    length (fibers m') = length (fibers m).
Proof.
  intros m. eexists. split; [vm_compute; reflexivity|].
  split; [reflexivity|]. split; vm_compute; reflexivity.
Qed.

(** The demo components assign no [effectTag]. *)
Lemma demoComponents_kept c p m m' :
  ends (demoComponents c p m) m' -> tagsKept m m'.
Proof.
  revert m m'. change (pres tagsKept (demoComponents c p)).
  destruct c as [|c]; cbn [demoComponents]; unfold App, Counter.
  - apply pres_ret. exact tagsKept_refl.
  - apply pres_bind; [exact tagsKept_trans|apply kept_useState|intros r].
    apply pres_ret. exact tagsKept_refl.
Qed.

Lemma effectTag_assignments_witness :
  let m := after (appReplaced (initial demoPage)) in
  (exists m',
     reconcileChildren 20 3 [Some (createElement (TStr "p") [] [])] m = Ok tt m' /\
     fld effectTag (fibers m') 1 = Some (Some DELETION) /\
     (fld effectTag (fibers m') 4 = Some (Some UPDATE) \/
      fld effectTag (fibers m') 4 = Some (Some PLACEMENT))) /\
  completes (workLoop demoComponents 20 idle m) = true /\
  tagsStep m (after (workLoop demoComponents 20 idle m)).
Proof.
  intros m. split; [|split; [vm_compute; reflexivity|]].
  - destruct (proj1 effectTag_assignments 20 3 replacedRoot
                [createElement (TStr "p") [] []] [1] [] m appReplaced_pre)
      as (m' & Hrun & Hdel & _ & Hnew).
    exists m'. split; [exact Hrun|]. split.
    + apply Hdel; [vm_compute; lia|]. exists 0. split; [reflexivity|].
      vm_compute. reflexivity.
    + apply Hnew; [vm_compute; lia|].
      pose proof (f_equal after Hrun) as Hm'.
      change (after (reconcileChildren 20 3
                       [Some (createElement (TStr "p") [] [])] m) = m') in Hm'.
      rewrite <- Hm'. vm_compute. lia.
  - apply (proj2 (proj2 (proj2 (proj2 (proj2 (proj2 (proj2 effectTag_assignments))))))
             demoComponents demoComponents_kept 20 idle m).
    vm_compute. reflexivity.
Defined.

(** C6 as stated fails: the unit of [<App/>] got its [effectTag] ([PLACEMENT])
    in the first generation and has been committed; the reconciliation of the
    next generation's root assigns its [effectTag] again, to [DELETION]. *)
Lemma effectTag_assigned_twice :
  let m1 := after (appCommitted (initial demoPage)) in
  let m2 := after (appReplaced (initial demoPage)) in
  fld effectTag (fibers m1) 1 = Some (Some PLACEMENT) /\
  currentRoot m1 = Some 0 /\
  fld effectTag (fibers m2) 1 = Some (Some PLACEMENT) /\
  exists m3,
    reconcileChildren 20 3 [Some (createElement (TStr "p") [] [])] m2 = Ok tt m3 /\
    fld effectTag (fibers m3) 1 = Some (Some DELETION).
Proof.
  intros m1 m2. split; [vm_compute; reflexivity|].
  split; [vm_compute; reflexivity|]. split; [vm_compute; reflexivity|].
  eexists. split; [vm_compute; reflexivity|]. vm_compute. reflexivity.
Qed.

(** ** Deletions at commit *)

(** C5 fails on the code.  The generation that replaces [<App/>] by [<p/>]:
    the unit of [App] (unit 1, no [dom]) is tagged [DELETION] and pending; its
    child (unit 2) holds the [<div>] (node 1).  [commitRoot] removes node 1
    from the container (node 0), then goes on into the deleted unit's child,
    whose [effectTag] is still [PLACEMENT], and appends node 1 again: after
    the commit the [<div>] is a child of the container, before the new [<p>]. *)
Theorem commitRoot_reattaches_deleted :
  let m := after (appReplacedWalked (initial demoPage)) in
  let m' := after (commitRoot 20 m) in
  deletions m = Some [1] /\
  fld effectTag (fibers m) 1 = Some (Some DELETION) /\
  fld dom (fibers m) 1 = Some None /\
  fld child (fibers m) 1 = Some (Some 2) /\
  fld dom (fibers m) 2 = Some (Some 1) /\
  completes (commitRoot 20 m) = true /\
  hostCalls m' = hostCalls m ++ [RemoveChild 0 1; AppendChild 0 1; AppendChild 0 2] /\
  childNodes <$> document m' !! 0 = Some [1; 2] /\
  parentNode <$> document m' !! 1 = Some (Some 0).
Proof. intros m m'. by_evaluation. Qed.

(** The same defect, with two deletions next to each other: [<ul><a/><b/></ul>]
    re-rendered as [<ul/>].  Committing the first pending deletion goes on to
    its sibling and removes that too; the second pending deletion then calls
    [removeChild] on a node that is no longer a child, and [commitRoot] ends
    by that exception, [wipRoot] still set. *)
Lemma commitRoot_throws_on_sibling_deletions :
  let m := after (listEmptiedWalked (initial demoPage)) in
  let m' := after (commitRoot 20 m) in
  deletions m = Some [2; 3] /\
  throws (commitRoot 20 m) = true /\
  hostCalls m' = hostCalls m ++ [RemoveChild 1 2; RemoveChild 1 3; RemoveChild 1 3] /\
  wipRoot m' = wipRoot m /\ currentRoot m' = currentRoot m.
Proof. intros m m'. by_evaluation. Qed.

(** * Further properties of the code *)

(** ** createElement *)

Lemma plookup_pset_eq key v : forall p, plookup (pset p key v) key = Some v.
Proof.
  induction p as [|[k w] p IH]; simpl.
  - rewrite String.eqb_refl. reflexivity.
  - destruct (String.eqb k key) eqn:E; simpl; rewrite E; [reflexivity|exact IH].
Qed.

Lemma plookup_pset_ne key v k' : key <> k' ->
  forall p, plookup (pset p key v) k' = plookup p k'.
Proof.
  intros Hne. induction p as [|[k w] p IH]; simpl.
  - apply String.eqb_neq in Hne. rewrite Hne. reflexivity.
  - destruct (String.eqb_spec k key) as [->|Hk]; simpl.
    + apply String.eqb_neq in Hne. rewrite Hne. reflexivity.
    + rewrite IH. reflexivity.
Qed.

Lemma pget_pset_eq key v p : pget (pset p key v) key = v.
Proof. unfold pget. rewrite plookup_pset_eq. reflexivity. Qed.

Lemma pget_pset_ne key v k' p : key <> k' -> pget (pset p key v) k' = pget p k'.
Proof. intros Hne. unfold pget. rewrite plookup_pset_ne by exact Hne. reflexivity. Qed.

Lemma keys_pset key v : forall p,
  keys (pset p key v) =
  match plookup p key with Some _ => keys p | None => keys p ++ [key] end.
Proof.
  induction p as [|[k w] p IH]; simpl; [reflexivity|].
  destruct (String.eqb k key) eqn:E; simpl; [reflexivity|].
  rewrite IH. destruct (plookup p key); reflexivity.
Qed.

(** X1.  [createElement] keeps the type and every attribute the caller gave
    under a key other than [children], in the caller's key order; [children]
    holds one entry per child argument, an object as it is and a primitive as
    a text element, whatever the caller had put under that key; and that is
    the sequence [updateHostComponent] reads back. *)
Theorem createElement_children t p cs m :
  let e := createElement t p cs in
  etype e = t /\
  childrenOf (eprops e) m = Ok (map asChild cs) m /\
  keys (eprops e) = (if pin "children" p then keys p else keys p ++ ["children"]) /\
  forall k, k <> "children" -> plookup (eprops e) k = plookup p k.
Proof.
  cbv zeta. unfold createElement. cbn [etype eprops].
  split; [reflexivity|]. split; [|split].
  - unfold childrenOf. rewrite pget_pset_eq. reflexivity.
  - rewrite keys_pset. unfold pin. destruct (plookup p "children"); reflexivity.
  - intros k Hk. apply plookup_pset_ne. congruence.
Qed.

Lemma createElement_children_witness :
  let e := createElement (TStr "h1") [("children", VNum 7); ("title", VStr "t")]
             [ChildPrimitive (VStr "Count: "); ChildObject None] in
  plookup (eprops e) "title" = Some (VStr "t") /\
  childrenOf (eprops e) (initial []) =
    Ok [Some (createTextElement (VStr "Count: ")); None] (initial []).
Proof.
  intros e.
  destruct (createElement_children (TStr "h1")
              [("children", VNum 7); ("title", VStr "t")]
              [ChildPrimitive (VStr "Count: "); ChildObject None] (initial []))
    as (_ & Hc & _ & Hk).
  split; [|exact Hc].
  apply (Hk "title"). discriminate.
Defined.

(** ** updateDom: the node it leaves *)

Lemma forEach_updNode {A} (f : A -> M unit) (C : A -> hostCall)
  (G : A -> node -> node) d :
  forall xs,
  (forall x, In x xs -> forall m, f x m = (called (C x) ;;; updNode d (G x)) m) ->
  forall m nd, document m !! d = Some nd ->
  forEach xs f m =
  Ok tt (withDocument (<[d := foldNode G xs nd]> (document m))
           (withHostCalls (hostCalls m ++ map C xs) m)).
Proof.
  induction xs as [|x xs IH]; intros Hf m nd Hd; cbn [forEach map foldNode fold_left].
  - rewrite app_nil_r, list_insert_id by exact Hd. destruct m; reflexivity.
  - assert (E : f x m =
                Ok tt (withDocument (<[d := G x nd]> (document m))
                         (withHostCalls (hostCalls m ++ [C x]) m))).
    { rewrite (Hf x (or_introl eq_refl)).
      unfold bind, called, modify, updNode. unfold_with. cbn [document].
      rewrite Hd. reflexivity. }
    rewrite (bind_eq _ _ _ _ _ E).
    rewrite (IH (fun y Hy => Hf y (or_intror Hy)) _ (G x nd)).
    + unfold_with. cbn [document hostCalls fibers hookStore nextUnitOfWork
                        currentRoot wipRoot deletions wipFiber hookIndex].
      rewrite list_insert_insert_eq, <- app_assoc. reflexivity.
    + unfold_with. cbn [document]. apply list_lookup_insert_eq.
      eapply lookup_lt_Some; eauto.
Qed.

Lemma foldNode_listeners_only {A} (G : A -> node -> node) :
  (forall x n, assigned (G x n) = assigned n) ->
  forall xs n, assigned (foldNode G xs n) = assigned n.
Proof.
  intros HG. induction xs as [|x xs IH]; intros n; cbn [foldNode fold_left].
  - reflexivity.
  - unfold foldNode in IH. rewrite IH. apply HG.
Qed.

Lemma foldNode_setProp (V : string -> value) : forall xs n,
  assigned (foldNode (fun x => setProp x (V x)) xs n) =
    fold_left (fun ps x => pset ps x (V x)) xs (assigned n).
Proof.
  induction xs as [|x xs IH]; intros n; cbn [foldNode fold_left].
  - reflexivity.
  - unfold foldNode in IH. rewrite IH. reflexivity.
Qed.

Lemma plookup_fold_notin (V : string -> value) k : forall xs ps,
  ~ In k xs ->
  plookup (fold_left (fun ps x => pset ps x (V x)) xs ps) k = plookup ps k.
Proof.
  induction xs as [|x xs IH]; intros ps Hk; simpl; [reflexivity|].
  rewrite IH by (intros H; apply Hk; right; exact H).
  apply plookup_pset_ne. intros ->. apply Hk. left. reflexivity.
Qed.

Lemma plookup_fold_in (V : string -> value) k : forall xs ps,
  In k xs ->
  plookup (fold_left (fun ps x => pset ps x (V x)) xs ps) k = Some (V k).
Proof.
  induction xs as [|x xs IH]; intros ps Hk; simpl; [destruct Hk|].
  destruct (in_dec string_dec k xs) as [Hin|Hout].
  - apply IH. exact Hin.
  - destruct Hk as [->|Hin]; [|contradiction].
    rewrite plookup_fold_notin by exact Hout. apply plookup_pset_eq.
Qed.

Lemma strict_eq_true a b : strict_eq a b = true -> a = b.
Proof.
  destruct a, b; simpl; try discriminate; intros H; try reflexivity.
  - apply Bool.eqb_prop in H. congruence.
  - apply Z.eqb_eq in H. congruence.
  - apply String.eqb_eq in H. congruence.
  - apply Nat.eqb_eq in H. congruence.
  - apply String.eqb_eq in H. congruence.
Qed.

Lemma addListener_In ev h n :
  isNullish h = false -> In (ev, h) (listeners (addListener ev h n)).
Proof.
  intros Hh. unfold addListener. rewrite Hh. cbn [orb].
  destruct (existsb (sameListener ev h) (listeners n)) eqn:E.
  - apply existsb_exists in E. destruct E as ([ev' h'] & Hin & Hs).
    unfold sameListener in Hs. cbn [fst snd] in Hs.
    apply andb_true_iff in Hs. destruct Hs as [He Hv].
    apply String.eqb_eq in He. apply strict_eq_true in Hv. subst. exact Hin.
  - cbn [listeners]. apply in_or_app. right. left. reflexivity.
Qed.

Lemma addListener_keeps ev h n l :
  In l (listeners n) -> In l (listeners (addListener ev h n)).
Proof.
  intros Hin. unfold addListener.
  destruct (isNullish h || existsb (sameListener ev h) (listeners n)); [exact Hin|].
  cbn [listeners]. apply in_or_app. left. exact Hin.
Qed.

Lemma foldNode_addListener (ev : string -> string) (h : string -> value) :
  forall xs n k,
  In k xs -> isNullish (h k) = false ->
  In (ev k, h k) (listeners (foldNode (fun x => addListener (ev x) (h x)) xs n)).
Proof.
  assert (Hkeep : forall xs n l, In l (listeners n) ->
            In l (listeners (foldNode (fun x => addListener (ev x) (h x)) xs n))).
  { induction xs as [|x xs IH]; intros n l Hl; cbn [foldNode fold_left]; [exact Hl|].
    apply IH. apply addListener_keeps. exact Hl. }
  induction xs as [|x xs IH]; intros n k Hk Hh; [destruct Hk|].
  cbn [foldNode fold_left]. destruct Hk as [->|Hk].
  - apply Hkeep. apply addListener_In. exact Hh.
  - apply IH; assumption.
Qed.

Lemma forEach_pass {A} (f : A -> M unit) (C : A -> hostCall)
  (G : A -> node -> node) d xs m nd :
  (forall x, In x xs -> forall m, f x m = (called (C x) ;;; updNode d (G x)) m) ->
  document m !! d = Some nd ->
  exists m', forEach xs f m = Ok tt m' /\
             hostOnly m m' /\
             document m' = <[d := foldNode G xs nd]> (document m).
Proof.
  intros Hf Hd. eexists. split; [apply (forEach_updNode f C G d xs Hf m nd Hd)|].
  split; [repeat split|reflexivity].
Qed.

Lemma removeListener_body d name h :
  ascii7 name = true -> isListenerValue h = true ->
  forall m,
  (let! ev := eventTypeOf name in removeEventListener d ev h) m =
  (called (RemoveEventListener d (eventName name) h) ;;;
   updNode d (rmListener (eventName name) h)) m.
Proof.
  intros Ha Hh m. rewrite (bind_eq _ _ _ _ _ (eventTypeOf_ascii name m Ha)).
  unfold removeEventListener. rewrite Hh. reflexivity.
Qed.

Lemma addListener_body d name h :
  ascii7 name = true -> isListenerValue h = true ->
  forall m,
  (let! ev := eventTypeOf name in addEventListener d ev h) m =
  (called (AddEventListener d (eventName name) h) ;;;
   updNode d (addListener (eventName name) h)) m.
Proof.
  intros Ha Hh m. rewrite (bind_eq _ _ _ _ _ (eventTypeOf_ascii name m Ha)).
  unfold addEventListener. rewrite Hh. reflexivity.
Qed.

Lemma updateDom_run d P N m nd :
  document m !! d = Some nd ->
  asciiListenerKeys P -> asciiListenerKeys N ->
  objectListeners P -> objectListeners N ->
  exists m', updateDom d P N m = Ok tt m' /\ hostOnly m m' /\
             document m' = <[d := updateDomNode P N nd]> (document m).
Proof.
  intros Hd HaP HaN HoP HoN. unfold updateDomNode.
  assert (Hlt : d < length (document m)) by (eapply lookup_lt_Some; eauto).
  destruct (forEach_pass
              (fun name => let! ev := eventTypeOf name in
                           removeEventListener d ev (pget P name))
              (fun name => RemoveEventListener d (eventName name) (pget P name))
              (fun name => rmListener (eventName name) (pget P name)) d
              (List.filter (fun key => negb (pin key N) || isNew P N key)
                 (List.filter isEvent (keys P))) m nd)
    as (m1 & E1 & O1 & D1); [|exact Hd|].
  { intros x Hx. apply filter_In in Hx as [Hx _]. apply filter_In in Hx as [Hx He].
    apply removeListener_body; [apply HaP|apply HoP]; assumption. }
  match type of D1 with _ = <[_ := ?n]> _ => set (n1 := n) in * end.
  assert (Hd1 : document m1 !! d = Some n1)
    by (rewrite D1; apply list_lookup_insert_eq; exact Hlt).
  destruct (forEach_pass (fun name => setProperty d name (VStr ""))
              (fun name => SetProperty d name (VStr ""))
              (fun name => setProp name (VStr "")) d
              (List.filter (isGone P N) (List.filter isProperty (keys P)))
              m1 n1 (fun x _ m0 => eq_refl) Hd1)
    as (m2 & E2 & O2 & D2).
  match type of D2 with _ = <[_ := ?n]> _ => set (n2 := n) in * end.
  assert (Hlt1 : d < length (document m1)) by (eapply lookup_lt_Some; eauto).
  assert (Hd2 : document m2 !! d = Some n2)
    by (rewrite D2; apply list_lookup_insert_eq; exact Hlt1).
  destruct (forEach_pass (fun name => setProperty d name (pget N name))
              (fun name => SetProperty d name (pget N name))
              (fun name => setProp name (pget N name)) d
              (List.filter (isNew P N) (List.filter isProperty (keys N)))
              m2 n2 (fun x _ m0 => eq_refl) Hd2)
    as (m3 & E3 & O3 & D3).
  match type of D3 with _ = <[_ := ?n]> _ => set (n3 := n) in * end.
  assert (Hlt2 : d < length (document m2)) by (eapply lookup_lt_Some; eauto).
  assert (Hd3 : document m3 !! d = Some n3)
    by (rewrite D3; apply list_lookup_insert_eq; exact Hlt2).
  destruct (forEach_pass
              (fun name => let! ev := eventTypeOf name in
                           addEventListener d ev (pget N name))
              (fun name => AddEventListener d (eventName name) (pget N name))
              (fun name => addListener (eventName name) (pget N name)) d
              (List.filter (isNew P N) (List.filter isEvent (keys N)))
              m3 n3)
    as (m4 & E4 & O4 & D4); [|exact Hd3|].
  { intros x Hx. apply filter_In in Hx as [Hx _]. apply filter_In in Hx as [Hx He].
    apply addListener_body; [apply HaN|apply HoN]; assumption. }
  exists m4. split; [|split].
  - unfold updateDom.
    refine (eq_trans (bind_eq _ _ _ _ _ E1) _).
    refine (eq_trans (bind_eq _ _ _ _ _ E2) _).
    refine (eq_trans (bind_eq _ _ _ _ _ E3) _).
    exact E4.
  - eapply hostOnly_trans; [exact O1|]. eapply hostOnly_trans; [exact O2|].
    eapply hostOnly_trans; [exact O3|exact O4].
  - rewrite D4, D3, D2, D1. rewrite !list_insert_insert_eq. reflexivity.
Qed.

Lemma updateDomNode_assigned P N nd :
  assigned (updateDomNode P N nd) =
    fold_left (fun ps x => pset ps x (pget N x))
      (List.filter (isNew P N) (List.filter isProperty (keys N)))
      (fold_left (fun ps x => pset ps x (VStr ""))
         (List.filter (isGone P N) (List.filter isProperty (keys P)))
         (assigned nd)).
Proof.
  unfold updateDomNode.
  rewrite foldNode_listeners_only
    by (intros x n; unfold addListener;
        destruct (isNullish _ || existsb _ _); reflexivity).
  rewrite (foldNode_setProp (pget N)).
  rewrite (foldNode_setProp (fun _ => VStr "")).
  rewrite foldNode_listeners_only by reflexivity.
  reflexivity.
Qed.

Lemma updateDomNode_plain P N nd k :
  plainKey k -> In k (keys N) ->
  (strict_eq (pget P k) (pget N k) = true -> assignedValue nd k = pget P k) ->
  assignedValue (updateDomNode P N nd) k = pget N k.
Proof.
  intros Hk Hin Hsame. unfold assignedValue. rewrite updateDomNode_assigned.
  destruct (strict_eq (pget P k) (pget N k)) eqn:Heq.
  - rewrite plookup_fold_notin.
    2:{ intros H. apply filter_In in H as [_ H]. unfold isNew in H.
        rewrite Heq in H. discriminate H. }
    rewrite plookup_fold_notin.
    2:{ intros H. apply filter_In in H as [_ H]. unfold isGone in H.
        apply negb_true_iff in H. rewrite (pin_own _ _ Hin) in H. discriminate H. }
    unfold assignedValue in Hsame. rewrite (Hsame eq_refl).
    apply strict_eq_true. exact Heq.
  - rewrite (plookup_fold_in (pget N)); [reflexivity|]. apply filter_In. split.
    + apply filter_In. split; [exact Hin|]. apply isProperty_plainKey. exact Hk.
    + unfold isNew. rewrite Heq. reflexivity.
Qed.

Lemma updateDomNode_gone P N nd k :
  plainKey k -> In k (keys P) -> pin k N = false ->
  assignedValue (updateDomNode P N nd) k = VStr "".
Proof.
  intros Hk Hin Hout. unfold assignedValue. rewrite updateDomNode_assigned.
  rewrite plookup_fold_notin.
  2:{ intros H. apply filter_In in H as [H _]. apply filter_In in H as [H _].
      rewrite (pin_own _ _ H) in Hout. discriminate Hout. }
  rewrite (plookup_fold_in (fun _ => VStr "")); [reflexivity|].
  apply filter_In. split.
  - apply filter_In. split; [exact Hin|]. apply isProperty_plainKey. exact Hk.
  - unfold isGone. rewrite Hout. reflexivity.
Qed.

Lemma updateDomNode_listener P N nd k :
  isEvent k = true -> In k (keys N) -> differs P N k ->
  isNullish (pget N k) = false ->
  In (eventName k, pget N k) (listeners (updateDomNode P N nd)).
Proof.
  intros Hk Hin Hdiff Hh. unfold updateDomNode.
  apply (foldNode_addListener eventName (pget N)); [|exact Hh].
  apply filter_In. split; [apply filter_In; split; assumption|].
  apply isNew_differs. exact Hdiff.
Qed.



(** ** createDom *)

Lemma inherited_not_event k : isEvent k = true -> inherited k = None.
Proof.
  intros Hk. unfold inherited.
  destruct (existsb (String.eqb k) protoNames) eqn:E; [|reflexivity].
  apply existsb_exists in E. destruct E as (x & Hin & Hx).
  apply String.eqb_eq in Hx. subst x.
  unfold protoNames in Hin. cbn [In] in Hin.
  repeat (destruct Hin as [<-|Hin]; [discriminate Hk|]). destruct Hin.
Qed.



(** ** The render phase and the host *)

(** X7.  The render phase never reaches the host.  However [render], the
    update capability [setState], [useState] or [reconcileChildren] ends,
    normally or by an exception, the document and the record of host calls
    are as they were: the page changes at commit only. *)
Theorem render_phase_leaves_host m m' :
  (exists element container, ends (render element container m) m') \/
  (exists h action, ends (setState h action m) m') \/
  (exists initial, ends (useState initial m) m') \/
  (exists fuel p elements, ends (reconcileChildren fuel p elements m) m') ->
  document m' = document m /\ hostCalls m' = hostCalls m.
Proof.
  intros [(element & container & H)|[(h & action & H)|[(initial & H)|
         (fuel & p & elements & H)]]].
  - exact (same_render element container m m' H).
  - exact (same_setState h action m m' H).
  - exact (same_useState initial m m' H).
  - exact (same_reconcileChildren fuel p elements m m' H).
Qed.

Lemma render_phase_leaves_host_witness :
  let m := after (counterCommitted (initial demoPage)) in
  let m' := after (setState 0 increment m) in
  document m' = document m /\ hostCalls m' = hostCalls m.
Proof.
  intros m m'. apply (render_phase_leaves_host m m').
  right. left. exists 0, increment. vm_compute. reflexivity.
Defined.

(** ** The walk and the page *)

Lemma holds_bind (I : machine -> Prop) {A B} (c : M A) (k : A -> M B) :
  holds I c -> (forall a, holds I (k a)) -> holds I (bind c k).
Proof.
  intros Hc Hk m m' HI H. apply ends_bind in H.
  destruct H as [(a & m1 & E & H)|E].
  - apply (Hk a m1 m'); [|exact H]. apply (Hc m m1 HI). rewrite E. reflexivity.
  - apply (Hc m m' HI). rewrite E. reflexivity.
Qed.

Lemma holds_forEach (I : machine -> Prop) {A} (xs : list A) (f : A -> M unit) :
  (forall x, holds I (f x)) -> holds I (forEach xs f).
Proof.
  intros Hf. induction xs as [|x xs IH]; simpl.
  - intros m m' HI H. simpl in H. subst. exact HI.
  - apply holds_bind; auto.
Qed.

Lemma holds_of_same base {A} (c : M A) :
  pres hostSame c -> holds (hostFrame base) c.
Proof.
  intros Hc m m' (new & Hdoc & Hnew) H. destruct (Hc m m' H) as [Hd _].
  exists new. rewrite Hd. auto.
Qed.

Lemma holds_ret (I : machine -> Prop) {A} (a : A) : holds I (ret a).
Proof. intros m m' HI H. simpl in H. subst. exact HI. Qed.

Lemma holds_throw (I : machine -> Prop) {A} : holds I (@throw A).
Proof. intros m m' HI H. simpl in H. subst. exact HI. Qed.

Lemma holds_abort (I : machine -> Prop) {A} : holds I (@abort A).
Proof. intros m m' _ []. Qed.

Lemma frame_called base call : holds (hostFrame base) (called call).
Proof. intros m m' HI H. simpl in H. subst. exact HI. Qed.

(** A change of node [d] that attaches nothing. *)
Lemma frame_updNode base d g :
  length base <= d ->
  (forall n, parentNode (g n) = parentNode n /\ childNodes (g n) = childNodes n) ->
  holds (hostFrame base) (updNode d g).
Proof.
  intros Hd Hg m m' (new & Hdoc & Hnew) H. unfold updNode in H.
  destruct (document m !! d) as [x|] eqn:Hx; simpl in H; [|destruct H].
  subst m'. simpl. rewrite Hdoc in Hx |- *.
  rewrite lookup_app_r in Hx by exact Hd.
  exists (<[d - length base := g x]> new). split.
  - apply insert_app_r_alt. exact Hd.
  - apply Forall_insert; [exact Hnew|].
    rewrite Forall_forall in Hnew.
    destruct (Hnew x (list_elem_of_lookup_2 _ _ _ Hx)) as [Hp Hc].
    destruct (Hg x) as [Hp' Hc']. split; congruence.
Qed.

Lemma frame_updateDom base d prevProps nextProps :
  length base <= d -> holds (hostFrame base) (updateDom d prevProps nextProps).
Proof.
  intros Hd.
  unfold updateDom, setProperty, addEventListener, removeEventListener, eventTypeOf.
  repeat first
    [ apply holds_bind; [|intros ?]
    | apply holds_forEach; intros ?
    | apply holds_ret
    | apply holds_throw
    | apply holds_abort
    | apply frame_called
    | apply frame_updNode;
        [exact Hd | intros ?; try destruct (isNullish _ || existsb _ _);
                    split; reflexivity]
    | match goal with
      | |- holds _ (if ?b then _ else _) => destruct b
      end ].
Qed.

Lemma frame_create base (c : M dref) :
  c = createTextNode "" \/ (exists tag, c = createElementNode tag) \/ c = throw ->
  forall m, hostFrame base m ->
  match c m with
  | Ok d m1 => hostFrame base m1 /\ length base <= d
  | Throw m1 => hostFrame base m1
  | Abort => True
  end.
Proof.
  assert (Hnew : forall call nd m, detached nd -> hostFrame base m ->
            match (called call ;;; newNode nd) m with
            | Ok d m1 => hostFrame base m1 /\ length base <= d
            | Throw m1 => hostFrame base m1
            | Abort => True
            end).
  { intros call nd m Hnd (new & Hdoc & Hall).
    unfold bind, called, modify, newNode. unfold_with. cbn [document]. split.
    - exists (new ++ [nd]). cbn [document]. split.
      + rewrite Hdoc, app_assoc. reflexivity.
      + apply Forall_app. split; [exact Hall|]. constructor; [exact Hnd|constructor].
    - rewrite Hdoc, length_app. lia. }
  intros [->|[[tag ->]| ->]] m HI.
  - apply Hnew; [split; reflexivity|exact HI].
  - unfold createElementNode. destruct (plainTag tag); [|exact I].
    apply Hnew; [split; reflexivity|exact HI].
  - exact HI.
Qed.

Lemma frame_createDom base f : holds (hostFrame base) (createDom f).
Proof.
  intros m m' HI H. unfold createDom in H.
  match type of H with
  | ends (bind ?c _ _) _ =>
      assert (Hc : c = createTextNode "" \/ (exists tag, c = createElementNode tag)
                   \/ c = throw)
  end.
  { destruct (type f) as [[tag|c]|]; [|auto|eauto].
    destruct (String.eqb tag "TEXT_ELEMENT"); eauto. }
  pose proof (frame_create base _ Hc m HI) as Hm.
  apply ends_bind in H. destruct H as [(d & m1 & E & H)|E].
  - rewrite E in Hm. destruct Hm as [H1 Hd]. revert H. apply holds_bind; [|intros _|exact H1].
    + apply frame_updateDom. exact Hd.
    + apply holds_ret.
  - rewrite E in Hm. exact Hm.
Qed.

Lemma same_childrenOf p : pres hostSame (childrenOf p).
Proof. unfold childrenOf. same_tac. Qed.

Lemma same_nextFiberLoop fuel : forall x, pres hostSame (nextFiberLoop fuel x).
Proof.
  induction fuel as [|k IH]; intros x; cbn [nextFiberLoop].
  - apply pres_abort.
  - same_tac; apply IH.
Qed.

#[local] Hint Resolve same_reconcileChildren same_childrenOf same_nextFiberLoop : same.

Lemma frame_updateHostComponent base fuel r :
  holds (hostFrame base) (updateHostComponent fuel r).
Proof.
  unfold updateHostComponent.
  apply holds_bind; [apply holds_of_same, pres_getFiber, hostSame_refl|intros f].
  apply holds_bind.
  - destruct (isSome (dom f)).
    + apply holds_of_same, pres_ret, hostSame_refl.
    + apply holds_bind; [apply frame_createDom|intros d].
      apply holds_of_same, same_updFiber.
  - intros _. apply holds_of_same. same_tac.
Qed.

Section WalkHost.

Variable components : nat -> component.

(** The components of the application reach the host only through what they
    return. *)
Hypothesis components_same : forall c p, pres hostSame (components c p).

Lemma same_updateFunctionComponent fuel r :
  pres hostSame (updateFunctionComponent components fuel r).
Proof.
  unfold updateFunctionComponent. pose proof components_same. same_tac.
Qed.

Lemma frame_performUnitOfWork base fuel r :
  holds (hostFrame base) (performUnitOfWork components fuel r).
Proof.
  unfold performUnitOfWork.
  apply holds_bind; [apply holds_of_same, pres_getFiber, hostSame_refl|intros f].
  apply holds_bind.
  - destruct (isFunctionComponent f).
    + apply holds_of_same, same_updateFunctionComponent.
    + apply frame_updateHostComponent.
  - intros _. apply holds_of_same. same_tac.
Qed.

Lemma frame_workLoopWhile base fuel deadline : forall k shouldYield,
  holds (hostFrame base) (workLoopWhile components fuel deadline k shouldYield).
Proof.
  induction fuel as [|n IH]; intros k shouldYield; cbn [workLoopWhile].
  - intros m m' _ [].
  - apply holds_bind; [apply holds_of_same, pres_gets, hostSame_refl|intros next].
    destruct next as [u|]; [|apply holds_of_same, pres_ret, hostSame_refl].
    destruct (negb shouldYield); [|apply holds_of_same, pres_ret, hostSame_refl].
    apply holds_bind; [apply frame_performUnitOfWork|intros r].
    apply holds_bind; [|intros _; apply IH].
    apply holds_of_same, pres_modify. intros m. split; reflexivity.
Qed.

End WalkHost.


Lemma demoComponents_same c p : pres hostSame (demoComponents c p).
Proof.
  destruct c as [|c]; unfold demoComponents, App, Counter.
  - apply pres_ret. exact hostSame_refl.
  - apply pres_bind; [exact hostSame_trans|apply same_useState|intros r].
    apply pres_ret. exact hostSame_refl.
Qed.


(** ** A commit that fails *)

(** X4.  A commit that ends by an exception has changed the host only: no unit,
    no hook record and no engine variable differs, so the generation is still
    in progress ([wipRoot]) and the committed one ([currentRoot]) is the old
    one, whatever was already done to the page. *)
Theorem commitRoot_failure_promotes_nothing fuel m m' :
  commitRoot fuel m = Throw m' -> hostOnly m m'.
Proof.
  revert m m'. unfold commitRoot.
  repeat (apply throw_bind_only; [solve [only_tac]|intros ?]).
  intros m m' H. discriminate H.
Qed.

Lemma commitRoot_failure_promotes_nothing_witness :
  let m := after (listEmptiedWalked (initial demoPage)) in
  hostOnly m (after (commitRoot 20 m)).
Proof.
  intros m. apply (commitRoot_failure_promotes_nothing 20 m).
  vm_compute. reflexivity.
Defined.

(** ** The searches of the commit engine *)

(** X5.  [domParentOf] is the [dom] of the nearest ancestor that has one, and
    leaves the machine as it is; when no ancestor has one, the read of [.dom]
    on [undefined] throws. *)
Theorem domParentOf_nearest fuel x path res m :
  domAlong parent (fibers m) x path res -> length path < fuel ->
  domParentOf fuel x m = match res with Some d => Ok d m | None => Throw m end.
Proof.
  intros H. revert fuel. induction H as [|r f d Hr Hd|r f path res Hr Hd H IH];
    intros fuel Hfuel; (destruct fuel as [|n]; [simpl in Hfuel; lia|]);
    cbn [domParentOf].
  - reflexivity.
  - cbn [deref]. rewrite (bind_eq _ _ _ _ _ (eq_refl : ret r m = Ok r m)).
    rewrite (bind_eq _ _ _ _ _ (getFiber_eq _ _ _ Hr)). rewrite Hd. reflexivity.
  - cbn [deref]. rewrite (bind_eq _ _ _ _ _ (eq_refl : ret r m = Ok r m)).
    rewrite (bind_eq _ _ _ _ _ (getFiber_eq _ _ _ Hr)). rewrite Hd.
    apply IH. simpl in Hfuel. lia.
Qed.

Lemma domParentOf_nearest_witness :
  let m := after (counterAlmostWalked (initial demoPage)) in
  domParentOf 20 (Some 1) m = Ok 0 m.
Proof.
  intros m. apply (domParentOf_nearest 20 (Some 1) [1; 0] (Some 0) m).
  - eapply domAlong_step; [vm_compute; reflexivity|vm_compute; reflexivity|].
    eapply domAlong_found; vm_compute; reflexivity.
  - simpl. lia.
Defined.

(** X6.  [commitDeletion] removes from [domParent] the node of the first unit
    that has one down the [child] links, and nothing else; when the links end
    first (a component that rendered nothing), it throws without a host
    call. *)
Theorem commitDeletion_first_dom fuel x path res domParent m :
  domAlong child (fibers m) x path res -> length path < fuel ->
  commitDeletion fuel x domParent m =
    match res with Some d => removeChild domParent d m | None => Throw m end.
Proof.
  intros H. revert fuel. induction H as [|r f d Hr Hd|r f path res Hr Hd H IH];
    intros fuel Hfuel; (destruct fuel as [|n]; [simpl in Hfuel; lia|]);
    cbn [commitDeletion].
  - reflexivity.
  - cbn [deref]. rewrite (bind_eq _ _ _ _ _ (eq_refl : ret r m = Ok r m)).
    rewrite (bind_eq _ _ _ _ _ (getFiber_eq _ _ _ Hr)). rewrite Hd. reflexivity.
  - cbn [deref]. rewrite (bind_eq _ _ _ _ _ (eq_refl : ret r m = Ok r m)).
    rewrite (bind_eq _ _ _ _ _ (getFiber_eq _ _ _ Hr)). rewrite Hd.
    apply IH. simpl in Hfuel. lia.
Qed.

Lemma commitDeletion_first_dom_witness :
  let m := after (appReplacedWalked (initial demoPage)) in
  commitDeletion 20 (Some 1) 0 m = removeChild 0 1 m.
Proof.
  intros m. apply (commitDeletion_first_dom 20 (Some 1) [1; 2] (Some 1) 0 m).
  - eapply domAlong_step; [vm_compute; reflexivity|vm_compute; reflexivity|].
    eapply domAlong_found; vm_compute; reflexivity.
  - simpl. lia.
Defined.

(** ** useState: the bookkeeping *)

Lemma useState_dangling initial m w wf o :
  wipFiber m = Some w ->
  fibers m !! w = Some wf ->
  oldHookOf (fibers m) wf (hookIndex m) = Some o ->
  hookStore m !! o = None ->
  useState initial m = Abort.
Proof.
  intros Hw Hwf Ho Hold. unfold useState.
  unfold bind at 1. unfold gets at 1. rewrite Hw.
  unfold bind at 1. unfold deref at 1, ret at 1.
  rewrite (bind_eq _ _ _ _ _ (getFiber_eq _ _ _ Hwf)).
  unfold bind at 1. unfold gets at 1.
  unfold bind at 1. unfold gets at 1.
  rewrite Ho.
  unfold bind at 1. unfold bind at 1. unfold getHook. rewrite Hold. reflexivity.
Qed.

(** X11.  A [useState] call that returns has made one hook record, left every
    older record as it was (the queue it replayed included), appended the new
    record to the unit's [hooks] at the position of the call and advanced
    [hookIndex] to the next position; a unit whose [alternate] is this unit
    finds that record at the same position. *)
Theorem useState_records_hook initial m w wf hs v h m' :
  wipFiber m = Some w -> fibers m !! w = Some wf -> hooks wf = Some hs ->
  hookIndex m = Some (length hs) ->
  useState initial m = Ok (v, h) m' ->
  h = length (hookStore m) /\
  hookStore m' = hookStore m ++ [Hook v []] /\
  fibers m' = <[w := setHooks (Some (hs ++ [h])) wf]> (fibers m) /\
  hookIndex m' = Some (length (hs ++ [h])) /\
  forall uf, alternate uf = Some w ->
             oldHookOf (fibers m') uf (Some (length hs)) = Some h.
Proof.
  intros Hw Hwf Hhs Hi H.
  assert (Hlt : w < length (fibers m)) by (eapply lookup_lt_Some; exact Hwf).
  assert (Hpost : forall x,
    Ok (v, h) m' =
      Ok (x, length (hookStore m))
         (Machine (<[w := setHooks (Some (hs ++ [length (hookStore m)])) wf]> (fibers m))
                  (hookStore m ++ [Hook x []])
                  (document m) (hostCalls m) (nextUnitOfWork m) (currentRoot m)
                  (wipRoot m) (deletions m) (wipFiber m)
                  (Some (match hookIndex m with Some i => S i | None => 1 end))) ->
    h = length (hookStore m) /\
    hookStore m' = hookStore m ++ [Hook v []] /\
    fibers m' = <[w := setHooks (Some (hs ++ [h])) wf]> (fibers m) /\
    hookIndex m' = Some (length (hs ++ [h])) /\
    forall uf, alternate uf = Some w ->
               oldHookOf (fibers m') uf (Some (length hs)) = Some h).
  { intros x E. injection E as -> -> ->. cbn [hookStore fibers hookIndex].
    rewrite Hi, length_app. cbn [length]. rewrite Nat.add_1_r.
    repeat split; try reflexivity.
    intros uf Ha. unfold oldHookOf. rewrite Ha.
    rewrite list_lookup_insert_eq by exact Hlt. cbn [hooks setHooks].
    apply list_lookup_middle. reflexivity. }
  destruct (oldHookOf (fibers m) wf (hookIndex m)) as [o|] eqn:Ho.
  - destruct (hookStore m !! o) as [old|] eqn:Hold.
    + rewrite (useState_old _ _ _ _ _ _ _ Hw Hwf Hhs Ho Hold) in H.
      apply (Hpost _ (eq_sym H)).
    + rewrite (useState_dangling _ _ _ _ _ Hw Hwf Ho Hold) in H. discriminate H.
  - rewrite (useState_fresh _ _ _ _ _ Hw Hwf Hhs Ho) in H.
    apply (Hpost _ (eq_sym H)).
Qed.

Lemma useState_records_hook_witness :
  let m := after (counterEntered (initial demoPage)) in
  let m' := after (useState (VNum 1) m) in
  hookStore m' = hookStore m ++ [Hook (VNum 3) []] /\
  hookIndex m' = Some 1.
Proof.
  intros m m'.
  assert (Hw : wipFiber m = Some 7) by (vm_compute; reflexivity).
  assert (Hwf : fibers m !! 7 =
                Some (Fiber (Some (TFun 1)) [("children", VElems [])] None (Some 6)
                            None None (Some 1) (Some UPDATE) (Some [])))
    by (vm_compute; reflexivity).
  assert (Hi : hookIndex m = Some (length (@nil href))) by (vm_compute; reflexivity).
  assert (E : useState (VNum 1) m = Ok (VNum 3, 1) m') by (vm_compute; reflexivity).
  destruct (useState_records_hook (VNum 1) m 7 _ [] (VNum 3) 1 m' Hw Hwf eq_refl Hi E)
    as (_ & Hs & _ & Hx & _).
  split; [exact Hs|exact Hx].
Defined.

(** ** reconcileChildren and null elements *)

Lemma setChild_tag_commute c t p o (h : list fiber) :
  alter (setChild c) p (alter (setEffectTag t) o h) =
  alter (setEffectTag t) o (alter (setChild c) p h).
Proof.
  destruct (decide (p = o)) as [->|Hne].
  - rewrite !list_alter_alter_eq. apply list_alter_ext; [|reflexivity]. intros f _. reflexivity.
  - apply list_alter_alter_ne. exact Hne.
Qed.

Lemma tagAll_setChild c p os : forall h,
  tagAll os (alter (setChild c) p h) = alter (setChild c) p (tagAll os h).
Proof.
  induction os as [|o os IH]; intros h; simpl; [reflexivity|].
  unfold tagAll in IH. rewrite <- setChild_tag_commute. apply IH.
Qed.

(** X13.  A component that renders nothing.  [reconcileChildren] on the one
    element [null] makes no unit, leaves the parent without a child, and
    passes the whole old chain to the pending deletions. *)
Theorem reconcileChildren_nothing fuel p pf os ds m :
  reconcilePre fuel p pf [] os ds m -> 1 < fuel ->
  reconcileChildren fuel p [None] m =
  Ok tt (withDeletions (Some (ds ++ os))
           (withFibers (alter (setChild None) p (tagAll os (fibers m))) m)).
Proof.
  intros (Hp & Halt & Hchain & Hds & Hfuel) Hfuel2.
  rewrite (reconcileChildren_enter _ _ _ _ _ Hp Halt).
  destruct fuel as [|k]; [lia|].
  rewrite (turn_none p [None] 0 _ os None m ds k eq_refl eq_refl Hchain Hds).
  set (x := oldHead (fibers m) pf) in *.
  set (m1 := withDeletions _ _).
  assert (Hlen1 : length (fibers m1) = length (fibers m)).
  { subst m1. cbn [fibers withDeletions withFibers]. apply length_tagAll. }
  destruct (lookup_lt_is_Some_2 (fibers m1) p) as [pf1 Hp1].
  { rewrite Hlen1. eapply lookup_lt_Some; eauto. }
  rewrite (bind_eq _ _ _ _ _ (linkUnit_first _ _ _ _ _ _ Hp1)).
  assert (Hrem : removedAt (fibers m) x None = firstn 1 os).
  { inversion Hchain as [|o s os' Hs Hrest]; [reflexivity|].
    unfold removedAt, oldRecord. destruct (fibers m !! o) as [f|]; [|reflexivity].
    destruct f; reflexivity. }
  rewrite (reconcileLoop_tail p [None] (tail os) _ _ (ds ++ firstn 1 os)).
  - f_equal. subst m1. unfold_with. cbn [fibers deletions]. rewrite Hrem.
    rewrite <- app_assoc.
    replace (firstn 1 os ++ tail os) with os by (destruct os; reflexivity).
    rewrite tagAll_setChild.
    replace (tagAll (tail os) (tagAll (firstn 1 os) (fibers m)))
      with (tagAll os (fibers m)) by (destruct os; reflexivity).
    destruct m; reflexivity.
  - discriminate.
  - simpl. lia.
  - cbn [fibers withFibers]. subst m1. cbn [fibers withDeletions withFibers].
    eapply chain_ext; [|apply chain_next; exact Hchain].
    intros o _. rewrite fld_alter_frame by reflexivity.
    rewrite Hrem. destruct os as [|o1 os1]; [reflexivity|].
    cbn [firstn tagAll fold_left]. apply fld_alter_frame. reflexivity.
  - subst m1. cbn [deletions withDeletions withFibers]. rewrite Hrem. reflexivity.
  - simpl in Hfuel. destruct os; simpl in *; lia.
Qed.

Lemma reconcileChildren_nothing_witness :
  let m := after ((appCommitted ;;; render None (Some 0)) (initial demoPage)) in
  reconcileChildren 20 3 [None] m =
  Ok tt (withDeletions (Some [1])
           (withFibers (alter (setChild None) 3 (tagAll [1] (fibers m))) m)).
Proof.
  intros m.
  pose (pf := Fiber None [("children", VElems [None])] (Some 0) None None None
                    (Some 0) None None).
  assert (Hpre : reconcilePre 20 3 pf [] [1] [] m).
  { unfold reconcilePre. split; [vm_compute; reflexivity|]. split.
    { intros a Ha. injection Ha as <-. vm_compute. eauto. }
    split.
    { replace (oldHead (fibers m) pf) with (Some 1) by (vm_compute; reflexivity).
      apply chain_cons with (s := None); [vm_compute; reflexivity | constructor]. }
    split; [vm_compute; reflexivity | simpl; lia]. }
  assert (Hfuel : 1 < 20) by lia.
  exact (reconcileChildren_nothing 20 3 pf [1] [] m Hpre Hfuel).
Defined.

(** X14.  A [null] child followed by an element.  The turn for [null] leaves no
    unit to link to, and the turn for the element throws at the assignment of
    [prevSibling.sibling]: [reconcileChildren] ends by that exception, the
    unit for the element made but linked nowhere. *)
Theorem reconcileChildren_null_then_element fuel p pf os ds e rest m :
  reconcilePre fuel p pf [] os ds m -> 1 < fuel ->
  exists m', reconcileChildren fuel p (None :: Some e :: rest) m = Throw m' /\
             length (fibers m') = S (length (fibers m)) /\
             fld child (fibers m') p = Some None /\
             forall r, r < length (fibers m) ->
                       fld sibling (fibers m') r = fld sibling (fibers m) r.
Proof.
  intros (Hp & Halt & Hchain & Hds & Hfuel) Hfuel2.
  rewrite (reconcileChildren_enter _ _ _ _ _ Hp Halt).
  destruct fuel as [|[|k]]; [lia|lia|].
  rewrite (turn_none p (None :: Some e :: rest) 0 _ os None m ds (S k)
             eq_refl eq_refl Hchain Hds).
  set (x := oldHead (fibers m) pf) in *.
  set (m1 := withDeletions _ _).
  assert (Hlen1 : length (fibers m1) = length (fibers m)).
  { subst m1. cbn [fibers withDeletions withFibers]. apply length_tagAll. }
  destruct (lookup_lt_is_Some_2 (fibers m1) p) as [pf1 Hp1].
  { rewrite Hlen1. eapply lookup_lt_Some; eauto. }
  rewrite (bind_eq _ _ _ _ _ (linkUnit_first _ _ _ _ _ _ Hp1)).
  set (m2 := withFibers _ m1).
  assert (Hrem : removedAt (fibers m) x None = firstn 1 os).
  { inversion Hchain as [|o s os' Hs Hrest]; [reflexivity|].
    unfold removedAt, oldRecord. destruct (fibers m !! o) as [f|]; [|reflexivity].
    destruct f; reflexivity. }
  assert (Hchain2 : chain (fibers m2) (nextOf (fibers m) x) (tail os)).
  { subst m2 m1. cbn [fibers withDeletions withFibers].
    eapply chain_ext; [|apply chain_next; exact Hchain].
    intros o _. rewrite fld_alter_frame by reflexivity.
    rewrite Hrem. destruct os as [|o1 os1]; [reflexivity|].
    cbn [firstn tagAll fold_left]. apply fld_alter_frame. reflexivity. }
  assert (Hds2 : deletions m2 = Some (ds ++ removedAt (fibers m) x None))
    by reflexivity.
  assert (Hlen2 : length (fibers m2) = length (fibers m)).
  { subst m2. cbn [fibers withFibers]. rewrite length_alter. exact Hlen1. }
  rewrite (turn_element p (None :: Some e :: rest) 1 e _ (tail os) None m2 _ k
             eq_refl Hchain2 Hds2).
  eexists. split; [reflexivity|].
  cbn [fibers withDeletions withFibers].
  assert (Hplt : p < length (fibers m)) by (eapply lookup_lt_Some; eauto).
  split; [|split].
  - rewrite length_tagAll, length_app, Hlen2. simpl. lia.
  - rewrite fld_tagAll_frame by reflexivity.
    rewrite fld_app_l by (rewrite Hlen2; exact Hplt).
    subst m2. cbn [fibers withFibers]. rewrite fld_alter_eq.
    unfold fld. rewrite Hp1. reflexivity.
  - intros r Hr. rewrite fld_tagAll_frame by reflexivity.
    rewrite fld_app_l by (rewrite Hlen2; exact Hr).
    subst m2 m1. cbn [fibers withFibers withDeletions].
    rewrite fld_alter_frame by reflexivity.
    apply fld_tagAll_frame. reflexivity.
Qed.

Lemma reconcileChildren_null_then_element_witness :
  let m := after (appReplaced (initial demoPage)) in
  exists m',
    reconcileChildren 20 3 [None; Some (createElement (TStr "p") [] [])] m
      = Throw m' /\
    length (fibers m') = 5 /\ fld child (fibers m') 3 = Some None.
Proof.
  intros m.
  assert (Hpre : reconcilePre 20 3 replacedRoot [] [1] [] m).
  { unfold reconcilePre. split; [vm_compute; reflexivity|]. split.
    { intros a Ha. injection Ha as <-. vm_compute. eauto. }
    split.
    { replace (oldHead (fibers m) replacedRoot) with (Some 1)
        by (vm_compute; reflexivity).
      apply chain_cons with (s := None); [vm_compute; reflexivity | constructor]. }
    split; [vm_compute; reflexivity | simpl; lia]. }
  assert (Hfuel : 1 < 20) by lia.
  destruct (reconcileChildren_null_then_element 20 3 replacedRoot [1] []
              (createElement (TStr "p") [] []) [] m Hpre Hfuel)
    as (m' & E & Hlen & Hchild & _).
  exists m'. split; [exact E|]. split; [|exact Hchild].
  rewrite Hlen. vm_compute. reflexivity.
Defined.

(** ** What reconcileChildren leaves alone *)

(** X12.  What [reconcileChildren] leaves alone.  Of the engine's variables only
    the store of units and the pending deletions change; of a unit that
    existed before the call, nothing changes but the [child] of the parent
    and the [effectTag] of units of the old chain: no such unit is relinked
    or given other props. *)
Theorem reconcileChildren_frame fuel p pf es os ds m :
  reconcilePre fuel p pf es os ds m ->
  exists m', reconcileChildren fuel p (map Some es) m = Ok tt m' /\
    sameGlobals m m' /\
    forall r, r < length (fibers m) ->
      fld core (fibers m') r = fld core (fibers m) r /\
      fld sibling (fibers m') r = fld sibling (fibers m) r /\
      (r <> p -> fld child (fibers m') r = fld child (fibers m) r) /\
      (~ In r os -> fld effectTag (fibers m') r = fld effectTag (fibers m) r).
Proof.
  intros Hpre.
  destruct (reconcileChildren_run _ _ _ _ _ _ _ Hpre)
    as (m' & E & Hg & _ & _ & Hold & _).
  exists m'. split; [exact E|]. split; [exact Hg|].
  intros r Hr. destruct (Hold r Hr) as (Hcore & Hchild & Hsib & Htag).
  split; [exact Hcore|]. split; [exact Hsib|]. split.
  - intros Hne. rewrite Hchild.
    replace (Nat.eqb p r) with false by (symmetry; apply Nat.eqb_neq; congruence).
    reflexivity.
  - intros Hnot. rewrite Htag.
    destruct (inb r (removedOf (fibers m) es os)) eqn:Hin; [|reflexivity].
    apply inb_In, removedOf_In in Hin. contradiction.
Qed.

Lemma reconcileChildren_frame_witness :
  let m := after (appReplaced (initial demoPage)) in
  exists m',
    reconcileChildren 20 3 [Some (createElement (TStr "p") [] [])] m = Ok tt m' /\
    sameGlobals m m' /\
    fld sibling (fibers m') 2 = fld sibling (fibers m) 2.
Proof.
  intros m.
  destruct (reconcileChildren_frame 20 3 replacedRoot
              [createElement (TStr "p") [] []] [1] [] m appReplaced_pre)
    as (m' & E & Hg & Hold).
  exists m'. split; [exact E|]. split; [exact Hg|].
  apply (Hold 2). vm_compute. lia.
Defined.

(** ** The scheduler *)

(** X8.  A slice always works on one unit, however little time it is given:
    [shouldYield] starts false, and the deadline is only read after a unit is
    done.  With no time left the slice stops there, the unit found by
    [performUnitOfWork] stored for the next slice, and commits nothing while a
    unit is left. *)
Theorem workLoop_one_unit_without_time components fuel (deadline : nat -> Z) u m r m1 :
  nextUnitOfWork m = Some u ->
  performUnitOfWork components (S fuel) u m = Ok (Some r) m1 ->
  (deadline 0%nat < 1)%Z ->
  workLoop components (S (S fuel)) deadline m =
  Ok tt (withNextUnitOfWork (Some r) m1).
Proof.
  intros Hu E Hd.
  assert (W : workLoopWhile components (S (S fuel)) deadline 0 false m =
              Ok tt (withNextUnitOfWork (Some r) m1)).
  { cbn [workLoopWhile].
    rewrite (bind_eq _ _ _ _ _ (eq_refl : gets nextUnitOfWork m = Ok _ m)).
    rewrite Hu. cbn [negb].
    rewrite (bind_eq _ _ _ _ _ E).
    rewrite (bind_eq _ _ _ _ _
               (eq_refl : modify (withNextUnitOfWork (Some r)) m1 = Ok tt _)).
    rewrite (bind_eq _ _ _ _ _
               (eq_refl : gets nextUnitOfWork (withNextUnitOfWork (Some r) m1)
                          = Ok (Some r) _)).
    apply Z.ltb_lt in Hd. rewrite Hd. reflexivity. }
  unfold workLoop. rewrite (bind_eq _ _ _ _ _ W). reflexivity.
Qed.

Lemma workLoop_one_unit_without_time_witness :
  let m := after (render (Some (createElement (TFun 1) [] [])) (Some 0)
                    (initial demoPage)) in
  exists m1, workLoop demoComponents 20 busy m = Ok tt m1 /\
             nextUnitOfWork m1 = Some 1.
Proof.
  intros m.
  assert (Hu : nextUnitOfWork m = Some 0) by (vm_compute; reflexivity).
  assert (E : performUnitOfWork demoComponents 19 0 m =
              Ok (Some 1) (after (performUnitOfWork demoComponents 19 0 m)))
    by (vm_compute; reflexivity).
  assert (Hd : (busy 0%nat < 1)%Z) by (vm_compute; reflexivity).
  eexists. split.
  - exact (workLoop_one_unit_without_time demoComponents 18 busy 0 m 1 _ Hu E Hd).
  - reflexivity.
Defined.

(** X9.  A slice with nothing to do does nothing: with no unit of work and no
    root in progress (as after a commit), [workLoop] leaves the machine as it
    is; in particular it commits nothing again. *)
Theorem workLoop_idle components fuel deadline m :
  nextUnitOfWork m = None -> wipRoot m = None ->
  workLoop components (S fuel) deadline m = Ok tt m.
Proof.
  intros Hu Hw. unfold workLoop. cbn [workLoopWhile].
  unfold bind, gets, ret. rewrite Hu. cbv beta iota. rewrite Hu, Hw. reflexivity.
Qed.

Lemma workLoop_idle_witness :
  let m := after (counterCommitted (initial demoPage)) in
  workLoop demoComponents 20 idle m = Ok tt m.
Proof.
  intros m. apply (workLoop_idle demoComponents 19 idle m); vm_compute; reflexivity.
Defined.
